(** * glivedisk.builder: the resumable build pipeline

    A shallow embedding of [src/python3/glivedisk/builder.py] (class
    [Builder]): settings validation, the action-sequence computation, the
    bind / unbind mount handling, the mount safety check, the unpack and
    capture stages, the kernel build stages and the [_run] driver.

    Python exceptions are values of [exn]; a method is a function from the
    world (file system, mount table, resume points, event trace) to a result
    and a new world.  External commands, the (de)compressor and the log are
    observed through the event trace. *)

From Stdlib Require Import Ascii String.
From stdpp Require Import gmap strings list.

Open Scope string_scope.
Open Scope list_scope.

(** ** Python values used by the embedding *)

(** The exception classes that the modelled code raises or catches.  All of
    them derive from Python's [Exception]. *)
Inductive exn : Type :=
| CatalystError (msg : string)
| KeyError (key : string)
| NameError (name : string)
| AttributeError (name : string)
| TypeError (msg : string)
| IOError (msg : string).

Inductive Res (A : Type) : Type :=
| Ok (a : A)
| Raise (e : exn).
Arguments Ok {A} a.
Arguments Raise {A} e.

Definition is_CatalystError (e : exn) : bool :=
  match e with CatalystError _ => true | _ => false end.

Definition is_IOError (e : exn) : bool :=
  match e with IOError _ => true | _ => false end.

(** A value of the spec dictionary: a string or a list of strings. *)
Inductive SpecValue : Type :=
| VStr (s : string)
| VList (l : list string).

(** A Python dict with string keys, in insertion order. *)
Definition Spec : Type := list (string * SpecValue).

Definition spec_keys (d : Spec) : list string := d.*1.

Fixpoint spec_get (k : string) (d : Spec) : option SpecValue :=
  match d with
  | [] => None
  | (k', v) :: d' => if String.eqb k k' then Some v else spec_get k d'
  end.

(** [d[k] = v]: replaces the value in place, or appends a new entry. *)
Fixpoint spec_set (k : string) (v : SpecValue) (d : Spec) : Spec :=
  match d with
  | [] => [(k, v)]
  | (k', v') :: d' =>
      if String.eqb k k' then (k', v) :: d' else (k', v') :: spec_set k v d'
  end.

Definition dq : string := String "034"%char EmptyString.
Definition newline : string := String "010"%char EmptyString.
Definition tab : string := String "009"%char EmptyString.

(** [sep.join(l)] *)
Fixpoint join (sep : string) (l : list string) : string :=
  match l with
  | [] => EmptyString
  | x :: rest =>
      match rest with
      | [] => x
      | _ :: _ => x +:+ sep +:+ join sep rest
      end
  end.

Definition substring_of (s t : string) : Prop :=
  ∃ pre post, t = pre +:+ s +:+ post.

(** Decidable form of [substring_of], used to evaluate concrete messages. *)
Fixpoint substringb (s t : string) : bool :=
  String.prefix s t ||
  match t with
  | EmptyString => false
  | String _ t' => substringb s t'
  end.

(** ** Settings validation (Builder.__init__, _addl_arg_parse) *)

Definition required_values : list string :=
  [ "storedir"; "sharedir"; "distdir"; "portdir"; "version_stamp"; "target";
    "subarch"; "rel_type"; "profile"; "snapshot"; "source_subpath" ].

Definition valid_values : list string :=
  [ "portage_confdir"; "portage_prefix"; "portage_overlay"; "cflags";
    "cxxflags"; "fcflags"; "fflags"; "ldflags"; "asflags"; "common_flags";
    "cbuild"; "hostuse"; "catalyst_use"; "distcc_hosts"; "makeopts";
    "pkgcache_path"; "kerncache_path"; "compression_mode";
    "decompression_mode"; "interpreter"; "fstype"; "fsopts"; "options";
    "snapshot_cache"; "hash_function"; "digests"; "contents";
    "compressor_arch"; "compression_mode"; "compressor_options";
    "decompressor_search_order" ].

Definition kernel_key (x suffix : string) : string :=
  "boot/kernel/" +:+ x +:+ suffix.

Definition kernel_suffixes : list string :=
  [ "/aliases"; "/config"; "/console"; "/extraversion"; "/gk_action";
    "/gk_kernargs"; "/initramfs_overlay"; "/machine_type"; "/sources";
    "/softlevel"; "/use"; "/packages"; "/kernelopts" ].

(** One iteration of the loop of [set_valid_build_kernel_vars]: the class
    attribute [valid_values] is threaded as the first component. *)
Definition kernel_vars_step (st : list string * Spec) (x : string)
  : list string * Spec :=
  let valid := st.1 ++ map (kernel_key x) kernel_suffixes in
  let addlargs :=
    match spec_get (kernel_key x "/packages") st.2 with
    | Some (VStr s) => spec_set (kernel_key x "/packages") (VList [s]) st.2
    | _ => st.2
    end in
  (valid, addlargs).

Definition set_valid_build_kernel_vars (valid : list string) (addlargs : Spec)
  : list string * Spec :=
  match spec_get "boot/kernel" addlargs with
  | Some v =>
      let loopy := match v with VStr s => [s] | VList l => l end in
      foldl kernel_vars_step (valid, addlargs) loopy
  | None => (valid, addlargs)
  end.

Definition msg_not_recognized (x : string) : string :=
  "Argument " +:+ dq +:+ x +:+ dq +:+ " not recognized.".

Definition msg_not_specified (x : string) : string :=
  "Required argument " +:+ dq +:+ x +:+ dq +:+ " not specified.".

Definition also_sep : string := newline +:+ tab +:+ "Also: ".

Definition addl_messages (valid : list string) (myspec : Spec) : list string :=
  let messages :=
    foldl (λ messages x,
             if bool_decide (x ∉ valid) && bool_decide (x ∉ required_values)
             then messages ++ [msg_not_recognized x] else messages)
          [] (spec_keys myspec) in
  foldl (λ messages x,
           if bool_decide (x ∉ spec_keys myspec)
           then messages ++ [msg_not_specified x] else messages)
        messages required_values.

Definition _addl_arg_parse (valid : list string) (myspec : Spec) : Res unit :=
  let messages := addl_messages valid myspec in
  if bool_decide (0 < length messages)
  then Raise (CatalystError (join also_sep messages))
  else Ok tt.

(** The first two statements of [Builder.__init__]; everything else in the
    constructor, and every stage, runs after them. *)
Definition Builder_init_validate (valid : list string) (settings : Spec)
  : Res (list string * Spec) :=
  let st := set_valid_build_kernel_vars valid settings in
  match _addl_arg_parse st.1 st.2 with
  | Ok _ => Ok st
  | Raise e => Raise e
  end.

(** ** The action sequence *)

Definition has_option (o : string) (options : list string) : bool :=
  bool_decide (o ∈ options).

Definition set_completion_action_sequences (options : list string)
    (action_sequence : list string) : list string :=
  let seq1 :=
    if negb (has_option "fetch" options)
    then action_sequence ++ ["capture"] else action_sequence in
  if has_option "keepwork" options then seq1 ++ ["clear_autoresume"]
  else if has_option "seedcache" options then seq1 ++ ["remove_autoresume"]
  else (seq1 ++ ["remove_autoresume"]) ++ ["remove_chroot"].

Definition set_action_sequence (options : list string) : list string :=
  set_completion_action_sequences options
    [ "unpack"; "unpack_snapshot"; "setup_confdir"; "portage_overlay";
      "base_dirs"; "bind"; "chroot_setup"; "setup_environment";
      "run_local"; "preclean"; "unbind"; "clean" ].

Definition set_default_action_sequence (options : list string) : list string :=
  if has_option "purgeonly" options then ["remove_chroot"]
  else set_action_sequence options.

(** ** The world the builder acts on *)

Inductive level : Type := Info | Notice | Warning | Error.

(** A path is absent, a directory, or a regular file with its text. *)
Inductive Node : Type :=
| Dir
| File (text : string).

(** The requests that leave the process: [support.cmd], and the
    decompressor's [extract] and the compressor's [compress]. *)
Inductive Call : Type :=
| Cmd (argv : list string)
| Extract (source destination : string) (mode : option string)
| Compress (basedir target_filename : string).

Inductive Event : Type :=
| EvLog (lvl : level) (fmt : string) (args : list string)
| EvCall (c : Call) (ok : bool)
| EvClearDir (path : string) (remove : bool).

Global Instance level_eq_dec : EqDecision level.
Proof. solve_decision. Defined.

Global Instance Call_eq_dec : EqDecision Call.
Proof. solve_decision. Defined.

Global Instance Event_eq_dec : EqDecision Event.
Proof. solve_decision. Defined.

(** [oracle] is the environment: given what happened so far it tells whether
    the next external call succeeds.  [mounted] is the kernel's mount table,
    most recent mount first.  [points] is the content of the AutoResume store:
    an enabled point and the data stored with it. *)
Record World : Type := mkWorld {
  fs : gmap string Node;
  mounted : list string;
  points : gmap string (option string);
  store_dir : bool;
  trace : list Event;
  oracle : list Event → Call → bool;
  sysname : string
}.

Definition with_fs (f : gmap string Node) (w : World) : World :=
  mkWorld f (mounted w) (points w) (store_dir w) (trace w) (oracle w) (sysname w).

Definition with_mounted (m : list string) (w : World) : World :=
  mkWorld (fs w) m (points w) (store_dir w) (trace w) (oracle w) (sysname w).

Definition with_points (p : gmap string (option string)) (dir : bool)
    (w : World) : World :=
  mkWorld (fs w) (mounted w) p dir (trace w) (oracle w) (sysname w).

Definition with_event (e : Event) (w : World) : World :=
  mkWorld (fs w) (mounted w) (points w) (store_dir w) (trace w ++ [e])
          (oracle w) (sysname w).

(** *** The method monad: state that survives an exception *)

Definition M (A : Type) : Type := World → Res A * World.

Definition ret {A} (a : A) : M A := λ w, (Ok a, w).

Definition raise {A} (e : exn) : M A := λ w, (Raise e, w).

Definition bind_ {A B} (m : M A) (k : A → M B) : M B :=
  λ w, match m w with
       | (Ok a, w') => k a w'
       | (Raise e, w') => (Raise e, w')
       end.

(** [try: m except <handles>: h] *)
Definition try_except {A} (m : M A) (handles : exn → bool) (h : exn → M A)
  : M A :=
  λ w, match m w with
       | (Ok a, w') => (Ok a, w')
       | (Raise e, w') => if handles e then h e w' else (Raise e, w')
       end.

Definition gets {A} (f : World → A) : M A := λ w, (Ok (f w), w).

Definition modify (f : World → World) : M unit := λ w, (Ok tt, f w).

Declare Scope py_scope.
Delimit Scope py_scope with py.
Notation "x <- m ;; k" := (bind_ m (λ x, k))
  (at level 100, m at next level, right associativity) : py_scope.
Notation "m ;; k" := (bind_ m (λ _, k))
  (at level 100, right associativity) : py_scope.
Open Scope py_scope.

(** [for x in l: body x] *)
Fixpoint for_each {A} (l : list A) (body : A → M unit) : M unit :=
  match l with
  | [] => ret tt
  | x :: l' => body x ;; for_each l' body
  end.

(** A loop that carries a local variable. *)
Fixpoint for_fold {A S} (l : list A) (body : A → S → M S) (s : S) : M S :=
  match l with
  | [] => ret s
  | x :: l' => s' <- body x s ;; for_fold l' body s'
  end.

(** *** Primitives *)

Definition log (lvl : level) (fmt : string) (args : list string) : M unit :=
  modify (with_event (EvLog lvl fmt args)).

Definition os_path_exists (p : string) : M bool :=
  gets (λ w, bool_decide (is_Some (fs w !! p))).

Definition os_path_isdir (p : string) : M bool :=
  gets (λ w, match fs w !! p with Some Dir => true | _ => false end).

Definition os_path_isfile (p : string) : M bool :=
  gets (λ w, match fs w !! p with Some (File _) => true | _ => false end).

(** Modelled from the spec: [support.ismount] is not part of the sources; a
    target is a mount point when the mount table lists it. *)
Definition ismount (p : string) : M bool :=
  gets (λ w, bool_decide (p ∈ mounted w)).

Fixpoint remove_first (t : string) (l : list string) : list string :=
  match l with
  | [] => []
  | x :: l' => if String.eqb t x then l' else x :: remove_first t l'
  end.

(** What a successful external call does to the world: [mount] stacks a mount
    on its last argument, [umount] removes the topmost mount of its target,
    the compressor creates the archive and the decompressor leaves its
    destination directory behind.  Every other command leaves the file
    system, the mount table and the resume points as they are. *)
Definition is_mount_prog (prog : string) : bool :=
  String.eqb prog "mount" || String.eqb prog "mount_nullfs".

Definition call_effect (c : Call) (w : World) : World :=
  match c with
  | Cmd [] => w
  | Cmd (prog :: args) =>
      if String.eqb prog "umount" then
        match args with
        | [t] => with_mounted (remove_first t (mounted w)) w
        | _ => w
        end
      else if is_mount_prog prog then
        match last args with
        | Some t => with_mounted (t :: mounted w) w
        | None => w
        end
      else w
  | Compress _ target_filename =>
      with_fs (<[target_filename := File EmptyString]> (fs w)) w
  | Extract _ destination _ =>
      match fs w !! destination with
      | Some _ => w
      | None => with_fs (<[destination := Dir]> (fs w)) w
      end
  end.

Definition call (c : Call) : M bool :=
  λ w, let ok := oracle w (trace w) c in
       let w' := if ok then call_effect c w else w in
       (Ok ok, with_event (EvCall c ok) w').

Definition cmd_error (argv : list string) : exn :=
  CatalystError ("cmd(" +:+ join " " argv +:+ ") exited non-zero").

(** Modelled from the spec: [support.cmd] is not part of the sources.  It
    runs the command; on a non-zero exit it calls [fail_func], when one is
    given, and then raises [CatalystError]. *)
Definition cmd (argv : list string) (fail_func : option (M unit)) : M unit :=
  ok <- call (Cmd argv) ;;
  if ok then ret tt
  else match fail_func with
       | Some f => f ;; raise (cmd_error argv)
       | None => raise (cmd_error argv)
       end.

(** Modelled from the spec: [fileops.ensure_dirs] is not part of the sources;
    it makes the directory exist and does not raise. *)
Definition ensure_dirs (p : string) : M unit :=
  modify (λ w, match fs w !! p with
               | Some _ => w
               | None => with_fs (<[p := Dir]> (fs w)) w
               end).

Definition under (p q : string) : bool := String.prefix (p +:+ "/") q.

(** Modelled from the spec: [fileops.clear_dir] is not part of the sources;
    it empties the directory, and removes it when [remove] is set. *)
Definition clear_dir (p : string) (remove : bool) : M unit :=
  modify (λ w,
    let kept := filter (λ kv, negb (under p kv.1) = true) (fs w) in
    let f := if remove then delete p kept else <[p := Dir]> kept in
    with_event (EvClearDir p remove) (with_fs f w)).

(** Modelled from the spec: [support.file_check] is not part of the sources;
    it returns the path of an existing file and raises otherwise (the search
    among the accepted extensions is left out). *)
Definition file_check (p : string) : M string :=
  isf <- os_path_isfile p ;;
  if isf then ret p else raise (CatalystError ("File Not Found: " +:+ p)).

(** An [OSError] of the file system ([IOError] is its alias, and
    [IsADirectoryError], [FileNotFoundError] and [NotADirectoryError] are
    subclasses of it): the text holds the [strerror] of the exception and
    the path it names. *)
Definition os_error (strerror path : string) : exn :=
  IOError (strerror +:+ ": " +:+ path).

(** [open(p).read()]: a directory cannot be read, and neither can a path
    that does not exist. *)
Definition open_read (p : string) : M string :=
  n <- gets (λ w, fs w !! p) ;;
  match n with
  | Some (File t) => ret t
  | Some Dir => raise (os_error "Is a directory" p)
  | None => raise (os_error "No such file or directory" p)
  end.

(** [fileutils.readfile(p, True)] of snakeoil: [None] stands for a path
    that does not exist, and for nothing else; a directory raises. *)
Definition readfile (p : string) : M (option string) :=
  e <- gets (λ w, bool_decide (is_Some (fs w !! p))) ;;
  if e then t <- open_read p ;; ret (Some t) else ret None.

Definition writefile (p text : string) : M unit :=
  modify (λ w, with_fs (<[p := File text]> (fs w)) w).

(** *** The AutoResume store *)

(** Modelled from the spec: class [resume.AutoResume] is not part of the
    sources.  [is_enabled] is the spec's [is_satisfied], [enable] its
    [record], [get] its [get_data] and [clear_all] its [clear_all]. *)
Definition resume_is_enabled (point : string) : M bool :=
  gets (λ w, bool_decide (is_Some (points w !! point))).

Definition resume_enable (point : string) (data : option string) : M unit :=
  modify (λ w, with_points (<[point := data]> (points w)) (store_dir w) w).

Definition resume_get (point : string) : M (option string) :=
  gets (λ w, match points w !! point with Some d => d | None => None end).

Definition resume_clear_all (remove : bool) : M unit :=
  modify (λ w, with_points ∅ (if remove then false else store_dir w) w).

(** ** String and path helpers *)

Definition slash : ascii := "/"%char.

(** [s.rstrip('/')] *)
Fixpoint rstrip_slash (s : string) : string :=
  match s with
  | EmptyString => EmptyString
  | String c s' =>
      match rstrip_slash s' with
      | EmptyString => if Ascii.eqb c slash then EmptyString else String c EmptyString
      | r => String c r
      end
  end.

(** [s.replace("\n", " ")] *)
Fixpoint replace_nl (s : string) : string :=
  match s with
  | EmptyString => EmptyString
  | String c s' =>
      String (if Ascii.eqb c "010"%char then " "%char else c) (replace_nl s')
  end.

(** The part of [s] up to and including its last slash, if it has one. *)
Fixpoint path_head (s : string) : option string :=
  match s with
  | EmptyString => None
  | String c s' =>
      match path_head s' with
      | Some h => Some (String c h)
      | None => if Ascii.eqb c slash then Some (String c EmptyString) else None
      end
  end.

(** [os.path.dirname(p)] *)
Definition dirname (p : string) : string :=
  match path_head p with
  | None => EmptyString
  | Some h =>
      match rstrip_slash h with
      | EmptyString => h
      | h' => h'
      end
  end.

(** [os.path.basename(p)] *)
Fixpoint basename (s : string) : string :=
  match s with
  | EmptyString => EmptyString
  | String c s' =>
      match path_head s' with
      | Some _ => basename s'
      | None => if Ascii.eqb c slash then s' else s
      end
  end.

Definition ends_with_slash (s : string) : bool :=
  match path_head s with
  | Some h => String.eqb h s
  | None => false
  end.

(** [os.path.join(a, c)] for a relative [c] *)
Definition os_path_join (a c : string) : string :=
  if String.eqb a EmptyString || ends_with_slash a then a +:+ c else a +:+ "/" +:+ c.

(** ** The builder object *)

(** The entries of [self.settings] that the modelled methods read, together
    with [self.mounts], [self.target_mounts] and [self.mountmap].  Entries
    that the constructor always installs are plain fields; entries that the
    methods test with [in] are options; the per-kernel entries are kept as a
    dictionary. *)
Record Builder : Type := mkBuilder {
  options : list string;
  action_sequence : list string;
  chroot_path : string;
  sharedir : string;
  shdir : string;
  controller_file : string;
  source_path : string;
  source_path_hash : option string;
  snapshot_path : string;
  snapshot_path_hash : string;
  snapshot_cache_path : string;
  repo_basedir : string;
  repo_name : string;
  target_path : string;
  stage_path : string;
  compression_mode : string;
  compressor_extension : string;
  pkgcache_path : string;
  kerncache_path : string;
  var_tmpfs_portage : option string;
  portage_confdir : option string;
  port_conf : string;
  portage_overlay : option (list string);
  local_overlay : string;
  contents : option string;
  digests : option string;
  kernel_settings : Spec;
  mounts : list string;
  target_mounts : gmap string string;
  mountmap : gmap string string
}.

Section Methods.

(** [support.normpath] is not part of the sources; it is a parameter. *)
Variable normpath : string → string.

Variable b : Builder.

Definition opt (o : string) : bool := has_option o (options b).

(** [self.target_mounts[x]] and [self.mountmap[x]] *)
Definition target_mounts_get (x : string) : M string :=
  match target_mounts b !! x with
  | Some t => ret t
  | None => raise (KeyError x)
  end.

Definition mountmap_get (x : string) : M string :=
  match mountmap b !! x with
  | Some s => ret s
  | None => raise (KeyError x)
  end.

Definition killcmd : string :=
  normpath (sharedir b +:+ shdir b +:+ "/support/kill-chroot-pids.sh").

(** [setup_environment] only rewrites [self.env], which no modelled method
    reads back; it is the identity on the world. *)
Definition setup_environment : M unit := ret tt.

Definition kill_chroot_pids : M unit :=
  log Info "Checking for processes running in chroot and killing them." [] ;;
  setup_environment ;;
  e <- os_path_exists killcmd ;;
  if e then cmd [killcmd] None else ret tt.

Definition umount_error : exn :=
  CatalystError "Couldn't umount one or more bind-mounts; aborting for safety.".

(** The body of the loop of [unbind], for mount name [x]; [ouch] is the
    local flag. *)
Definition unbind_entry (x : string) (ouch : bool) : M bool :=
  tm <- target_mounts_get x ;;
  let target := normpath (chroot_path b +:+ tm) in
  e <- os_path_exists target ;;
  if negb e then
    log Notice "%s does not exist. Skipping" [target] ;; ret ouch
  else
    im <- ismount target ;;
    if negb im then
      log Notice "%s is not a mount point. Skipping" [target] ;; ret ouch
    else
      try_except (cmd ["umount"; target] None ;; ret ouch) is_CatalystError
        (λ _,
           log Warning "First attempt to unmount failed: %s" [target] ;;
           log Warning "Killing any pids still running in the chroot" [] ;;
           kill_chroot_pids ;;
           try_except (cmd ["umount"; target] None ;; ret ouch)
             is_CatalystError
             (λ _,
                log Warning "Couldn't umount bind mount: %s" [target] ;;
                ret true)).

Definition unbind : M unit :=
  ouch <- for_fold (rev (mounts b)) unbind_entry false ;;
  if ouch then raise umount_error else ret tt.

(** The body of the loop of [mount_safety_check]. *)
Definition mount_safety_check_entry (x : string) : M unit :=
  tm <- target_mounts_get x ;;
  let target := normpath (chroot_path b +:+ tm) in
  e <- os_path_exists target ;;
  if negb e then ret tt
  else
    im <- ismount target ;;
    if im then
      try_except
        (log Warning "%s is still mounted; performing auto-bind-umount..."
             [target] ;;
         unbind ;;
         im' <- ismount target ;;
         if im' then raise (CatalystError ("Auto-unbind failed for " +:+ target))
         else log Notice "Auto-unbind successful..." [])
        is_CatalystError
        (λ _, raise (CatalystError ("Unable to auto-unbind " +:+ target)))
    else ret tt.

Definition mount_safety_check : M unit :=
  e <- os_path_exists (chroot_path b) ;;
  if negb e then ret tt
  else for_each (mounts b) mount_safety_check_entry.

(** The command that [bind] builds for source [src] and [target], if any. *)
Definition bind_command (sys src target : string) : option (list string) :=
  if String.eqb src "maybe_tmpfs" then
    match var_tmpfs_portage b with
    | Some size =>
        Some ["mount"; "-t"; "tmpfs"; "-o"; "size=" +:+ size +:+ "G"; src; target]
    | None => None
    end
  else if String.eqb src "tmpfs" then
    Some ["mount"; "-t"; "tmpfs"; src; target]
  else if String.eqb sys "FreeBSD" then
    if String.eqb src "/dev" then
      Some ["mount"; "-t"; "devfs"; "none"; target]
    else Some ["mount_nullfs"; src; target]
  else if String.eqb src "shmfs" then
    Some ["mount"; "-t"; "tmpfs"; "-o"; "noexec,nosuid,nodev"; "shm"; target]
  else Some ["mount"; "--bind"; src; target].

Definition virtual_source (src : string) : bool :=
  bool_decide (src ∈ ["maybe_tmpfs"; "tmpfs"; "shmfs"]).

(** The body of the loop of [bind], up to the mount command: the
    directories are made and [_cmd] is built. *)
Definition bind_prepare (x : string) : M (option (list string)) :=
  tm <- target_mounts_get x ;;
  let target := normpath (chroot_path b +:+ tm) in
  ensure_dirs target ;;
  src <- mountmap_get x ;;
  e <- os_path_exists src ;;
  (if negb e && negb (virtual_source src) then ensure_dirs src else ret tt) ;;
  sys <- gets sysname ;;
  ret (bind_command sys src target).

(** The body of the loop of [bind]. *)
Definition bind_entry (x : string) : M unit :=
  _cmd <- bind_prepare x ;;
  match _cmd with
  | Some argv => cmd argv (Some unbind)
  | None => ret tt
  end.

Definition bind : M unit := for_each (mounts b) bind_entry.

(** *** Resume points and the working root *)

Definition autoresume_enabled (point : string) : M bool :=
  en <- resume_is_enabled point ;;
  ret (opt "autoresume" && en).

Definition clear_autoresume : M unit :=
  if opt "autoresume" then
    log Notice "Removing AutoResume Points ..." [] ;;
    resume_clear_all false
  else ret tt.

Definition remove_autoresume : M unit :=
  if opt "autoresume" then
    log Notice "Removing AutoResume ..." [] ;;
    resume_clear_all true
  else ret tt.

Definition clear_chroot : M unit :=
  log Notice "Clearing the chroot path ..." [] ;;
  clear_dir (chroot_path b) false.

Definition remove_chroot : M unit :=
  log Notice "Removing the chroot path ..." [] ;;
  clear_dir (chroot_path b) true.

Definition clear_packages (remove : bool) : M unit :=
  if opt "pkgcache" then
    log Notice "purging the pkgcache ..." [] ;;
    clear_dir (pkgcache_path b) remove
  else ret tt.

Definition clear_kerncache (remove : bool) : M unit :=
  if opt "kerncache" then
    log Notice "purging the kerncache ..." [] ;;
    clear_dir (kerncache_path b) remove
  else ret tt.

(** [countdown] is neither defined nor imported in builder.py: the first
    statement of [purge] raises [NameError]. *)
Definition purge (remove : bool) : M unit :=
  (raise (NameError "countdown") : M unit) ;;
  if opt "purge" || opt "purgeonly" || opt "purgetmponly" then
    log Notice "purge(); clearing autoresume ..." [] ;;
    clear_autoresume ;;
    log Notice "purge(); clearing chroot ..." [] ;;
    clear_chroot ;;
    (if negb (opt "purgetmponly") then
       log Notice "purge(); clearing package cache ..." [] ;;
       clear_packages remove
     else ret tt) ;;
    log Notice "purge(); clearing kerncache ..." [] ;;
    clear_kerncache remove
  else ret tt.

(** *** unpack *)

Definition quoted (s : string) : string := dq +:+ s +:+ dq.

Definition display_msg : string :=
  "Starting %(mode)s from %(source)s" +:+ newline +:+
  "to %(destination)s (this may take some time) ..".

Definition error_msg : string :=
  "'%(mode)s' extraction of %(source)s to %(destination)s failed.".

Definition mode_str (mode : option string) : string :=
  match mode with Some m => m | None => "None" end.

Definition source_path_hash_get : M string :=
  match source_path_hash b with
  | Some h => ret h
  | None => raise (KeyError "source_path_hash")
  end.

(** The autoresume validation of [unpack]: returns the local variables
    [(_unpack, invalid_chroot)] and the possibly re-checked source. *)
Definition unpack_validate (clst_unpack_hash : option string)
    (source : string) : M (bool * bool * string) :=
  if opt "autoresume" then
    isd <- os_path_isdir (chroot_path b) ;;
    st <- (if isd then
             en <- resume_is_enabled "unpack" ;;
             if en then
               log Notice ("Resume: " +:+ quoted "chroot" +:+ " is valid...") [] ;;
               ret (false, false)
             else
               log Notice ("Resume: " +:+ quoted "seed source" +:+
                           " unpack resume point is disabled") [] ;;
               ret (true, true)
           else ret (true, true)) ;;
    isf <- os_path_isfile (source_path b) ;;
    if isf && negb st.2 then
      h <- source_path_hash_get ;;
      if bool_decide (Some (replace_nl h) = clst_unpack_hash) then
        log Notice ("Resume: " +:+ quoted "seed source" +:+
                    " hash matches chroot...") [] ;;
        ret (false, false, source)
      else
        log Notice ("Resume: " +:+ quoted "seed source" +:+
                    " has changed, hashes do not match, invalidating resume...") [] ;;
        log Notice "        source_path......: %s" [source_path b] ;;
        log Notice "        new source hash..: %s" [replace_nl h] ;;
        log Notice "        recorded hash....: %s"
            [match clst_unpack_hash with Some d => d | None => "None" end] ;;
        source' <- file_check source ;;
        ret (true, true, source')
    else ret (st.1, st.2, source)
  else
    (if opt "seedcache" then ret tt
     else
       isd <- os_path_isdir (source_path b) ;;
       if isd then
         raise (CatalystError
                  ("source path is a dir but seedcache is not enabled: "
                   +:+ source_path b))
       else ret tt) ;;
    ret (true, true, source).

(** The transfer proper of [unpack]: the directories, the extraction and
    the resume point. *)
Definition unpack_extract (source : string) (mode : option string) : M unit :=
  ensure_dirs (chroot_path b) ;;
  ensure_dirs (chroot_path b +:+ "/tmp") ;;
  (if opt "pkgcache" then ensure_dirs (pkgcache_path b) else ret tt) ;;
  (if opt "kerncache" then ensure_dirs (kerncache_path b) else ret tt) ;;
  log Notice display_msg [mode_str mode; source; chroot_path b] ;;
  ok <- call (Extract source (chroot_path b) mode) ;;
  (if negb ok then
     log Error error_msg [mode_str mode; source; chroot_path b]
   else ret tt) ;;
  match source_path_hash b with
  | Some h => resume_enable "unpack" (Some h)
  | None => resume_enable "unpack" None
  end.

Definition unpack : M unit :=
  clst_unpack_hash <- resume_get "unpack" ;;
  info <- (if opt "seedcache" then
             isd <- os_path_isdir (source_path b) ;;
             if isd then ret (source_path b, Some "rsync")
             else
               log Notice "Referenced SEEDCACHE does not appear to be a directory, trying to untar..." [] ;;
               source <- file_check (source_path b) ;;
               ret (source, None)
           else
             source <- file_check (source_path b) ;;
             ret (source, None)) ;;
  v <- unpack_validate clst_unpack_hash info.1 ;;
  let _unpack := v.1.1 in
  let invalid_chroot := v.1.2 in
  let source := v.2 in
  if _unpack then
    mount_safety_check ;;
    (if invalid_chroot then
       (if opt "autoresume" then
          log Notice "Resume: Target chroot is invalid, cleaning up..." []
        else ret tt) ;;
       clear_autoresume ;;
       clear_chroot
     else ret tt) ;;
    unpack_extract source info.2
  else
    log Notice "Resume: Valid resume point detected, skipping seed unpack operation..." [].

(** *** unpack_snapshot *)

(** [decompressor.determine_mode] belongs to the DeComp library; it is a
    parameter. *)
Variable determine_mode : string → string.

Definition target_portdir : string :=
  normpath (chroot_path b +:+ repo_basedir b +:+ "/" +:+ repo_name b).

Definition snapshot_cache_hash_path : string :=
  os_path_join (snapshot_cache_path b) "catalyst-hash".

(** [with open(path, 'w') as myf: myf.write(text)], for a file in [dir]:
    a directory cannot be opened for writing, and the file can only be made
    in a directory that exists. *)
Definition open_write (dir path text : string) : M unit :=
  n <- gets (λ w, fs w !! path) ;;
  match n with
  | Some Dir => raise (os_error "Is a directory" path)
  | _ =>
      d <- gets (λ w, fs w !! dir) ;;
      match d with
      | Some Dir => writefile path text
      | Some (File _) => raise (os_error "Not a directory" path)
      | None => raise (os_error "No such file or directory" path)
      end
  end.

Definition unpack_snapshot : M unit :=
  snapshot_hash <- resume_get "unpack_repo" ;;
  log Info "%s" [chroot_path b] ;;
  log Info "unpack_snapshot(), target_portdir = %s" [target_portdir] ;;
  let mode := Some (determine_mode (snapshot_path b)) in
  st <- (if opt "snapcache" then
           snapshot_cache_hash <- readfile snapshot_cache_hash_path ;;
           let cleanup_msg :=
             "Cleaning up invalid snapshot cache at " +:+ newline +:+ tab +:+
             snapshot_cache_path b +:+ " (this can take a long time)..." in
           if bool_decide (Some (snapshot_path_hash b) = snapshot_cache_hash)
           then
             log Info "Valid snapshot cache, skipping unpack of portage tree..." [] ;;
             ret (false, cleanup_msg, snapshot_cache_path b)
           else ret (true, cleanup_msg, snapshot_cache_path b)
         else
           let cleanup_msg :=
             "Cleaning up existing portage tree (this can take a long time)..." in
           let destination := normpath (chroot_path b +:+ repo_basedir b) in
           e <- os_path_exists target_portdir ;;
           en <- resume_is_enabled "unpack_repo" ;;
           if opt "autoresume" && e && en &&
              bool_decide (Some (snapshot_path_hash b) = snapshot_hash)
           then
             log Notice "Valid Resume point detected, skipping unpack of portage tree..." [] ;;
             ret (false, cleanup_msg, destination)
           else ret (true, cleanup_msg, destination)) ;;
  let unpack := st.1.1 in
  let cleanup_msg := st.1.2 in
  let destination := st.2 in
  if unpack then
    e <- os_path_exists target_portdir ;;
    (if e then log Info "%s" [cleanup_msg] else ret tt) ;;
    clear_dir target_portdir false ;;
    log Notice "Unpacking portage tree (this can take a long time) ..." [] ;;
    ok <- call (Extract (snapshot_path b) destination mode) ;;
    (if negb ok then
       log Error "Error unpacking snapshot using mode %(mode)s" [mode_str mode]
     else ret tt) ;;
    if opt "snapcache" then
      open_write (snapshot_cache_path b) snapshot_cache_hash_path
                 (snapshot_path_hash b)
    else
      log Info "Setting snapshot autoresume point" [] ;;
      resume_enable "unpack_repo" (Some (snapshot_path_hash b))
  else ret tt.

(** *** The stages between unpack and capture *)

Definition setup_confdir : M unit :=
  skip <- autoresume_enabled "setup_confdir" ;;
  if skip then
    log Notice "Resume point detected, skipping setup_confdir operation..." []
  else
    match portage_confdir b with
    | Some confdir =>
        log Info "Configuring %s..." [port_conf b] ;;
        let dest := normpath (chroot_path b +:+ "/" +:+ port_conf b) in
        ensure_dirs dest ;;
        cmd ["rsync"; "-a"; confdir +:+ "/"; dest +:+ "/"] None ;;
        resume_enable "setup_confdir" None
    | None => ret tt
    end.

Definition portage_overlay_stage : M unit :=
  match portage_overlay b with
  | Some overlays =>
      for_each overlays (λ x,
        e <- os_path_exists x ;;
        if e then
          log Info "Copying overlay dir %s" [x] ;;
          ensure_dirs (chroot_path b +:+ local_overlay b) ;;
          cmd ["cp -a " +:+ x +:+ "/* " +:+ chroot_path b +:+ local_overlay b]
              None
        else ret tt)
  | None => ret tt
  end.

Definition base_dirs : M unit := ret tt.

Definition run_local : M unit :=
  skip <- autoresume_enabled "run_local" ;;
  if skip then
    log Notice "Resume point detected, skipping run_local operation..." []
  else
    try_except
      (e <- os_path_exists (controller_file b) ;;
       if e then
         log Info "run_local() starting controller script..." [] ;;
         cmd [controller_file b; "run"] None ;;
         resume_enable "run_local" None
       else
         log Info "run_local() no controller_file found... %s"
             [controller_file b])
      is_CatalystError
      (λ _, unbind ;; raise (CatalystError "Stage build aborting due to error.")).

Definition preclean : M unit :=
  skip <- autoresume_enabled "preclean" ;;
  if skip then
    log Notice "Resume point detected, skipping preclean operation..." []
  else
    try_except
      (e <- os_path_exists (controller_file b) ;;
       if e then
         cmd [controller_file b; "preclean"] None ;;
         resume_enable "preclean" None
       else ret tt)
      (λ _, true)
      (λ _, unbind ;;
            raise (CatalystError "Build failed, could not execute preclean")).

(** *** capture *)

Definition os_remove (p : string) : M unit :=
  isd <- os_path_isdir p ;;
  if isd then raise (os_error "Is a directory" p)
  else modify (λ w, with_fs (delete p (fs w)) w).

(** [gzip] is not imported in builder.py: reaching [gzip.open] raises
    [NameError].  [settings["contents_map"]] is taken to be present. *)
Definition gen_contents_file (path : string) : M unit :=
  let contents_path := path +:+ ".CONTENTS.gz" in
  e <- os_path_exists contents_path ;;
  (if e then os_remove contents_path else ret tt) ;;
  match contents b with
  | Some _ =>
      e' <- os_path_exists path ;;
      if e' then raise (NameError "gzip") else ret tt
  | None => ret tt
  end.

(** [io] is not imported in builder.py either.  [settings["hash_map"]] is
    taken to be present. *)
Definition gen_digest_file (path : string) : M unit :=
  let digests_path := path +:+ ".DIGESTS" in
  e <- os_path_exists digests_path ;;
  (if e then os_remove digests_path else ret tt) ;;
  match digests b with
  | Some _ =>
      e' <- os_path_exists path ;;
      if e' then raise (NameError "io") else ret tt
  | None => ret tt
  end.

Definition target_filename : string :=
  rstrip_slash (target_path b) +:+ "." +:+ compressor_extension b.

Definition capture : M unit :=
  skip <- autoresume_enabled "capture" ;;
  if skip then
    log Notice "Resume point detected, skipping capture operation..." []
  else
    log Notice "Capture target in a tarball" [] ;;
    ensure_dirs (dirname (rstrip_slash (target_path b))) ;;
    log Notice "Creating stage tarball... mode: %s" [compression_mode b] ;;
    ok <- call (Compress (stage_path b) target_filename) ;;
    if ok then
      gen_contents_file target_filename ;;
      gen_digest_file target_filename ;;
      resume_enable "capture" None
    else
      log Warning "Couldn't create stage tarball: %s" [target_filename].

(** *** Kernel builds *)

(** A settings value used as a path: [os.path.exists] of a list raises
    the [TypeError] of [os.stat]. *)
Definition as_path (v : SpecValue) : M string :=
  match v with
  | VStr s => ret s
  | VList _ =>
      raise (TypeError
               "stat: path should be string, bytes, os.PathLike or integer, not list")
  end.

(** The file that [shutil.copy(src, dst)] writes: a [dst] that is a
    directory stands for the file of the name of [src] in it. *)
Definition copy_destination (src dst : string) : M string :=
  d <- os_path_isdir dst ;;
  ret (if d then os_path_join dst (basename src) else dst).

(** [shutil.copy(src, dst)]: copying a file onto itself is refused with
    [SameFileError], a subclass of [OSError] (the paths are shown as [repr]
    shows a plain path); then the source is opened, and then the
    destination.  The mode bits are not part of the world. *)
Definition shutil_copy (src dst : string) : M unit :=
  dst' <- copy_destination src dst ;;
  if String.eqb src dst' then
    raise (IOError ("'" +:+ src +:+ "' and '" +:+ dst' +:+ "' are the same file"))
  else
    text <- open_read src ;;
    open_write (dirname dst') dst' text.

Definition _copy_kernel_config (kname : string) : M unit :=
  match spec_get (kernel_key kname "/config") (kernel_settings b) with
  | Some v =>
      path <- as_path v ;;
      e <- os_path_exists path ;;
      if negb e then
        unbind ;;
        raise (CatalystError ("Can't find kernel config: " +:+ path))
      else
        try_except
          (shutil_copy path
             (chroot_path b +:+ "/var/tmp/" +:+ kname +:+ ".config"))
          is_IOError
          (λ _, unbind)
  | None => ret tt
  end.

Definition _copy_initramfs_overlay (kname : string) : M unit :=
  match spec_get (kernel_key kname "/initramfs_overlay") (kernel_settings b) with
  | Some v =>
      path <- as_path v ;;
      e <- os_path_exists path ;;
      if e then
        log Notice "Copying initramfs_overlay dir %s" [path] ;;
        ensure_dirs (chroot_path b +:+ "/tmp/initramfs_overlay/" +:+ path) ;;
        cmd ["cp -R " +:+ path +:+ "/* " +:+ chroot_path b +:+
             "/tmp/initramfs_overlay/" +:+ path] None
      else ret tt
  | None => ret tt
  end.

(** [_build_kernel] after its resume check.  The two blocks that fill
    [self.env] and set the default of the extraversion entry touch nothing
    the model tracks. *)
Definition _build_kernel_work (kname : string) : M unit :=
  _copy_kernel_config kname ;;
  _copy_initramfs_overlay kname ;;
  cmd [controller_file b; "kernel"; kname] None ;;
  (match spec_get (kernel_key kname "/initramfs_overlay") (kernel_settings b) with
   | Some _ =>
       log Notice "Cleaning up temporary overlay dir" [] ;;
       clear_dir (chroot_path b +:+ "/tmp/initramfs_overlay/") false
   | None => ret tt
   end) ;;
  _ <- resume_is_enabled ("build_kernel_" +:+ kname) ;;
  cmd [controller_file b; "post-kmerge"] None.

Definition _build_kernel (kname : string) : M unit :=
  skip <- autoresume_enabled ("build_kernel_" +:+ kname) ;;
  if skip then
    log Notice "Resume point detected, skipping build_kernel for %s operation..."
        [kname]
  else _build_kernel_work kname.

Definition build_kernel : M unit :=
  skip <- autoresume_enabled "build_kernel" ;;
  if skip then
    log Notice "Resume point detected, skipping build_kernel operation..." []
  else
    match spec_get "boot/kernel" (kernel_settings b) with
    | Some v =>
        try_except
          (let mynames := match v with VStr s => [s] | VList l => l end in
           cmd [controller_file b; "pre-kmerge"] None ;;
           for_each mynames _build_kernel ;;
           resume_enable "build_kernel" None)
          is_CatalystError
          (λ _, unbind ;;
                raise (CatalystError "build aborting due to kernel build error."))
    | None => ret tt
    end.

(** *** The driver *)

(** [getattr(self, x)]: the methods of the object, by name. *)
Variable methods : string → option (M unit).

Definition getattr_call (x : string) : M unit :=
  match methods x with
  | Some m => m
  | None => raise (AttributeError x)
  end.

(** The loop of [_run].  The first component of the result is the local
    [failure]; the second lists the names the loop dispatched, in order. *)
Fixpoint _run_loop (seq : list string) : M (bool * list string) :=
  match seq with
  | [] => ret (false, [])
  | x :: rest =>
      log Notice "--- Running action sequence: %s" [x] ;;
      failure <- try_except (getattr_call x ;; ret false) (λ _, true)
                   (λ _, log Error "Exception running action sequence %s" [x] ;;
                         ret true) ;;
      if failure then ret (true, [x])
      else res <- _run_loop rest ;; ret (res.1, x :: res.2)
  end.

(** The statements of [_run] before the loop; the result tells whether
    [_run] returned early (with [None]). *)
Definition _run_prelude : M bool :=
  kill_chroot_pids ;;
  mount_safety_check ;;
  (if opt "clear-autoresume" then clear_autoresume else ret tt) ;;
  if opt "purgetmponly" then
    purge false ;; ret true
  else
    (if opt "purgeonly" then
       log Info "StageBase: run() purgeonly" [] ;; purge false
     else ret tt) ;;
    (if opt "purge" then
       log Info "StageBase: run() purge" [] ;; purge false
     else ret tt) ;;
    ret false.

Definition _run_actions : M (option bool) :=
  res <- _run_loop (action_sequence b) ;;
  if res.1 then
    log Notice "Cleaning up... Running unbind()" [] ;;
    unbind ;;
    ret (Some false)
  else ret (Some true).

Definition _run : M (option bool) :=
  returned <- _run_prelude ;;
  if returned then ret None else _run_actions.

End Methods.

(** ** Predicates used in the statements *)

(** A key of the settings that is neither valid nor required. *)
Definition unknown_key (valid : list string) (settings : Spec) (k : string) : Prop :=
  k ∈ spec_keys settings ∧ (k ∉ valid) ∧ (k ∉ required_values).

(** A required key that the settings do not have. *)
Definition missing_key (settings : Spec) (k : string) : Prop :=
  k ∈ required_values ∧ (k ∉ spec_keys settings).

(** *** What unbind leaves in the trace *)

(** A world after a method that only touched the mount table and the
    trace. *)
Definition step_world (w : World) (m : list string) (evs : list Event) : World :=
  mkWorld (fs w) m (points w) (store_dir w) (trace w ++ evs) (oracle w)
          (sysname w).

(** The message [kill_chroot_pids] logs before it runs the script. *)
Definition checking_info : Event :=
  EvLog Info "Checking for processes running in chroot and killing them." [].

Definition absent_notice (t : string) : Event :=
  EvLog Notice "%s does not exist. Skipping" [t].

Definition not_mounted_notice (t : string) : Event :=
  EvLog Notice "%s is not a mount point. Skipping" [t].

Definition umount_call (t : string) (ok : bool) : Event :=
  EvCall (Cmd ["umount"; t]) ok.

Definition couldnt_umount_warning (t : string) : Event :=
  EvLog Warning "Couldn't umount bind mount: %s" [t].

(** The events between a failed first attempt and the retry; [ran] tells
    whether the kill script exists (and was run, successfully). *)
Definition escalation_events (kill : string) (t : string) (ran : bool)
  : list Event :=
  [ EvLog Warning "First attempt to unmount failed: %s" [t];
    EvLog Warning "Killing any pids still running in the chroot" [];
    EvLog Info "Checking for processes running in chroot and killing them." [] ]
  ++ (if ran then [EvCall (Cmd [kill]) true] else []).

(** The events of one visit that attempts the unmount; the flag tells
    whether the target could not be unmounted. *)
Inductive umount_block (kill t : string) : bool → list Event → Prop :=
| ub_first :
    umount_block kill t false [umount_call t true]
| ub_retry ran :
    umount_block kill t false
      (umount_call t false :: escalation_events kill t ran ++ [umount_call t true])
| ub_failed ran :
    umount_block kill t true
      (umount_call t false :: escalation_events kill t ran ++
       [umount_call t false; couldnt_umount_warning t]).

(** The events of a visit that the failing kill script cuts short. *)
Definition abort_block (kill t : string) : list Event :=
  [ umount_call t false;
    EvLog Warning "First attempt to unmount failed: %s" [t];
    EvLog Warning "Killing any pids still running in the chroot" [];
    EvLog Info "Checking for processes running in chroot and killing them." [];
    EvCall (Cmd [kill]) false ].

(** One iteration of the loop of [unbind] on target [t], from world [w]. *)
Inductive unbind_visit (kill t : string) (ouch : bool) (w : World)
  : Res bool → World → Prop :=
| uv_absent :
    fs w !! t = None →
    unbind_visit kill t ouch w (Ok ouch)
      (step_world w (mounted w) [absent_notice t])
| uv_not_mounted :
    is_Some (fs w !! t) → t ∉ mounted w →
    unbind_visit kill t ouch w (Ok ouch)
      (step_world w (mounted w) [not_mounted_notice t])
| uv_umount failed evs :
    is_Some (fs w !! t) → t ∈ mounted w →
    umount_block kill t failed evs →
    unbind_visit kill t ouch w (Ok (ouch || failed))
      (step_world w (if failed then mounted w else remove_first t (mounted w))
         evs)
| uv_abort tr :
    is_Some (fs w !! t) → t ∈ mounted w →
    is_Some (fs w !! kill) → oracle w tr (Cmd [kill]) = false →
    unbind_visit kill t ouch w (Raise (cmd_error [kill]))
      (step_world w (mounted w) (abort_block kill t)).

(** The trace of a visit, as seen from the world [w] in which [unbind]
    started: an absent target and a target that is not a mount point are
    skipped with a notice; an unmount is attempted only on an existing target
    that [w] has mounted. *)
Inductive visit_block (kill : string) (w : World) (t : string)
  : bool → list Event → Prop :=
| vb_absent :
    fs w !! t = None → visit_block kill w t false [absent_notice t]
| vb_not_mounted :
    is_Some (fs w !! t) → visit_block kill w t false [not_mounted_notice t]
| vb_umount failed evs :
    is_Some (fs w !! t) → t ∈ mounted w → umount_block kill t failed evs →
    visit_block kill w t failed evs.

(** The target of mount name [x]. *)
Definition mount_target (normpath : string → string) (b : Builder) (x : string)
  : string :=
  normpath (chroot_path b +:+ default EmptyString (target_mounts b !! x)).

Definition mounts_resolved (b : Builder) : Prop :=
  Forall (λ x, is_Some (target_mounts b !! x)) (mounts b).

Definition any_failed (outs : list bool) : bool := bool_decide (true ∈ outs).

(** The run of the loop of [unbind] over the targets [ts], started from
    [w]: it either visits every target, or the kill script fails during the
    visit of a target and the exception leaves the loop. *)
Inductive unbind_trace (kill : string) (w : World) (ts : list string)
  : Res bool → list Event → Prop :=
| ut_finished outs blocks :
    Forall3 (visit_block kill w) ts outs blocks →
    unbind_trace kill w ts (Ok (any_failed outs)) (concat blocks)
| ut_aborted visited t rest outs blocks tr :
    ts = visited ++ t :: rest →
    Forall3 (visit_block kill w) visited outs blocks →
    is_Some (fs w !! t) → t ∈ mounted w →
    is_Some (fs w !! kill) → oracle w tr (Cmd [kill]) = false →
    unbind_trace kill w ts (Raise (cmd_error [kill]))
      (concat blocks ++ abort_block kill t).

(** The events from a failed first attempt on [t] up to the moment the
    kill script is looked for. *)
Definition escalation_head (t : string) : list Event :=
  [ umount_call t false;
    EvLog Warning "First attempt to unmount failed: %s" [t];
    EvLog Warning "Killing any pids still running in the chroot" [];
    checking_info ].

(** During the escalation on [t] the kill script is run exactly when it
    exists; [ran] tells that it was run and exited zero. *)
Definition kill_script_ran (kill t : string) (w : World) (ran : bool) : Prop :=
  if bool_decide (is_Some (fs w !! kill))
  then ran = true ∧ oracle w (trace w ++ escalation_head t) (Cmd [kill]) = true
  else ran = false.

(** The visit of target [t] in world [w]: what it yields (the flag tells
    that the target could not be unmounted), the mount table it leaves and
    the events it adds.  Every case is decided by the files and the mount
    table of [w] and by the exit status of the commands. *)
Inductive target_visit (kill t : string) (w : World)
  : Res bool → list string → list Event → Prop :=
| tv_absent :
    fs w !! t = None →
    target_visit kill t w (Ok false) (mounted w) [absent_notice t]
| tv_not_mounted :
    is_Some (fs w !! t) → t ∉ mounted w →
    target_visit kill t w (Ok false) (mounted w) [not_mounted_notice t]
| tv_unmounted :
    is_Some (fs w !! t) → t ∈ mounted w →
    oracle w (trace w) (Cmd ["umount"; t]) = true →
    target_visit kill t w (Ok false) (remove_first t (mounted w))
      [umount_call t true]
| tv_retried ran ok :
    is_Some (fs w !! t) → t ∈ mounted w →
    oracle w (trace w) (Cmd ["umount"; t]) = false →
    kill_script_ran kill t w ran →
    oracle w (trace w ++ umount_call t false :: escalation_events kill t ran)
      (Cmd ["umount"; t]) = ok →
    target_visit kill t w (Ok (negb ok))
      (if ok then remove_first t (mounted w) else mounted w)
      (umount_call t false :: escalation_events kill t ran ++
       (if ok then [umount_call t true]
        else [umount_call t false; couldnt_umount_warning t]))
| tv_aborted :
    is_Some (fs w !! t) → t ∈ mounted w →
    oracle w (trace w) (Cmd ["umount"; t]) = false →
    is_Some (fs w !! kill) →
    oracle w (trace w ++ escalation_head t) (Cmd [kill]) = false →
    target_visit kill t w (Raise (cmd_error [kill])) (mounted w)
      (abort_block kill t).

(** The visits of the targets [ts], one after the other and in the order of
    [ts], each in the world the visit before it left; an exception ends the
    visits, and the targets after it are not visited. *)
Inductive unbind_visits (kill : string)
  : list string → World → Res bool → World → Prop :=
| uvs_done w :
    unbind_visits kill [] w (Ok false) w
| uvs_visit t ts w failed m evs r w' :
    target_visit kill t w (Ok failed) m evs →
    unbind_visits kill ts (step_world w m evs) r w' →
    unbind_visits kill (t :: ts) w
      (match r with Ok f => Ok (failed || f) | Raise e => Raise e end) w'
| uvs_stop t ts w e m evs :
    target_visit kill t w (Raise e) m evs →
    unbind_visits kill (t :: ts) w (Raise e) (step_world w m evs).

(** What [unbind] makes of the outcome of its loop. *)
Definition unbind_verdict (r : Res bool) : Res unit :=
  match r with
  | Ok false => Ok tt
  | Ok true => Raise umount_error
  | Raise e => Raise e
  end.

(** The notice for a target that is skipped. *)
Definition skip_notice (w : World) (t : string) : Event :=
  match fs w !! t with
  | None => absent_notice t
  | Some _ => not_mounted_notice t
  end.

(** The event of the visit of [t] when every unmount succeeds at once. *)
Definition clean_visit_event (w : World) (t : string) : Event :=
  match fs w !! t with
  | None => absent_notice t
  | Some _ =>
      if bool_decide (t ∈ mounted w) then umount_call t true
      else not_mounted_notice t
  end.

(** The mount table after one unmount of each existing target of [ts]. *)
Definition unmount_each (w : World) (ts : list string) : list string :=
  foldl (λ m t, remove_first t m) (mounted w)
    (filter (λ t, is_Some (fs w !! t)) ts).

(** The number of mounts stacked on [t]. *)
Fixpoint mount_count (t : string) (l : list string) : nat :=
  match l with
  | [] => 0
  | x :: l' => (if String.eqb t x then 1 else 0) + mount_count t l'
  end.

Definition still_mounted_warning (t : string) : Event :=
  EvLog Warning "%s is still mounted; performing auto-bind-umount..." [t].

Definition unable_to_unbind (t : string) : exn :=
  CatalystError ("Unable to auto-unbind " +:+ t).

(** A target that the safety check passes over. *)
Definition not_a_mount_point (w : World) (t : string) : Prop :=
  fs w !! t = None ∨ t ∉ mounted w.

(** *** Statements about the driver and the stages *)

Definition running_notice (x : string) : Event :=
  EvLog Notice "--- Running action sequence: %s" [x].

Definition exception_error (x : string) : Event :=
  EvLog Error "Exception running action sequence %s" [x].

Definition cleaning_up_notice : Event :=
  EvLog Notice "Cleaning up... Running unbind()" [].

(** The actions [l] dispatched one after the other, as the loop of [_run]
    does while none of them raises. *)
Fixpoint dispatch_all (methods : string → option (M unit)) (l : list string)
  : M unit :=
  match l with
  | [] => ret tt
  | x :: rest =>
      modify (with_event (running_notice x)) ;;
      getattr_call methods x ;;
      dispatch_all methods rest
  end.

(** The resume store is the same in both worlds. *)
Definition same_store (w w' : World) : Prop :=
  points w' = points w ∧ store_dir w' = store_dir w.

(** The calls to the decompressor and to the compressor in a trace. *)
Fixpoint transfers (tr : list Event) : list (Call * bool) :=
  match tr with
  | [] => []
  | EvCall (Cmd _) _ :: tr' => transfers tr'
  | EvCall c ok :: tr' => (c, ok) :: transfers tr'
  | _ :: tr' => transfers tr'
  end.

(** The directories cleared in a trace. *)
Fixpoint cleared (tr : list Event) : list string :=
  match tr with
  | [] => []
  | EvClearDir p _ :: tr' => p :: cleared tr'
  | _ :: tr' => cleared tr'
  end.

(** No call to the decompressor or compressor, and no directory cleared,
    between the two worlds. *)
Definition same_transfers (w w' : World) : Prop :=
  transfers (trace w') = transfers (trace w) ∧
  cleared (trace w') = cleared (trace w).

(** The events of an [unpack_snapshot] that skips, outside the snapshot
    cache mode. *)
Definition snapshot_skip_events (normpath : string → string) (b : Builder)
  : list Event :=
  [ EvLog Info "%s" [chroot_path b];
    EvLog Info "unpack_snapshot(), target_portdir = %s"
      [target_portdir normpath b];
    EvLog Notice "Valid Resume point detected, skipping unpack of portage tree..." [] ].

(** The events of an [unpack_snapshot] that unpacks, outside the snapshot
    cache mode; [existed] tells whether the tree was there, [ok] is the
    extractor's report. *)
Definition snapshot_transfer_events (normpath determine_mode : string → string)
    (b : Builder) (existed ok : bool) : list Event :=
  [ EvLog Info "%s" [chroot_path b];
    EvLog Info "unpack_snapshot(), target_portdir = %s"
      [target_portdir normpath b] ]
  ++ (if existed then
        [EvLog Info "%s"
           ["Cleaning up existing portage tree (this can take a long time)..."]]
      else [])
  ++ [ EvClearDir (target_portdir normpath b) false;
       EvLog Notice "Unpacking portage tree (this can take a long time) ..." [];
       EvCall (Extract (snapshot_path b)
                 (normpath (chroot_path b +:+ repo_basedir b))
                 (Some (determine_mode (snapshot_path b)))) ok ]
  ++ (if ok then []
      else [EvLog Error "Error unpacking snapshot using mode %(mode)s"
              [determine_mode (snapshot_path b)]])
  ++ [EvLog Info "Setting snapshot autoresume point" []].

(** The methods of the class that the embedding covers, by name;
    [chroot_setup], [clean] and the other methods of the class are not
    embedded. *)
Fixpoint method_lookup (x : string) (table : list (string * M unit))
  : option (M unit) :=
  match table with
  | [] => None
  | (name, m) :: table' =>
      if String.eqb x name then Some m else method_lookup x table'
  end.

Definition embedded_methods (normpath determine_mode : string → string)
    (b : Builder) (x : string) : option (M unit) :=
  method_lookup x
    [ ("unpack", unpack normpath b);
      ("unpack_snapshot", unpack_snapshot normpath b determine_mode);
      ("setup_confdir", setup_confdir normpath b);
      ("portage_overlay", portage_overlay_stage b);
      ("base_dirs", base_dirs);
      ("bind", bind normpath b);
      ("setup_environment", setup_environment);
      ("run_local", run_local normpath b);
      ("preclean", preclean normpath b);
      ("unbind", unbind normpath b);
      ("capture", capture b);
      ("build_kernel", build_kernel normpath b);
      ("clear_autoresume", clear_autoresume b);
      ("remove_autoresume", remove_autoresume b);
      ("clear_chroot", clear_chroot b);
      ("remove_chroot", remove_chroot b);
      ("kill_chroot_pids", kill_chroot_pids normpath b);
      ("mount_safety_check", mount_safety_check normpath b) ].

(** ** A small builder and worlds to run the methods on *)

Definition demo_normpath (p : string) : string := p.

Definition demo_builder (opts seq : list string) : Builder := {|
  options := opts;
  action_sequence := seq;
  chroot_path := "/work";
  sharedir := "/share";
  shdir := "/targets";
  controller_file := "/share/targets/stage3/stage3-controller.sh";
  source_path := "/store/builds/seed.tar";
  source_path_hash := Some "sha512 aaaa";
  snapshot_path := "/store/snapshots/repo.tar";
  snapshot_path_hash := "sha512 bbbb";
  snapshot_cache_path := "/store/snapshot_cache/repo";
  repo_basedir := "/var/db/repos";
  repo_name := "gentoo";
  target_path := "/store/builds/stage3/";
  stage_path := "/work";
  compression_mode := "lbzip2";
  compressor_extension := "tar.bz2";
  pkgcache_path := "/store/packages";
  kerncache_path := "/store/kerncache";
  var_tmpfs_portage := None;
  portage_confdir := None;
  port_conf := "etc/portage";
  portage_overlay := None;
  local_overlay := "/var/db/repos/local";
  contents := None;
  digests := None;
  kernel_settings := [("boot/kernel", VStr "gentoo")];
  mounts := ["proc"; "dev"; "devpts"];
  target_mounts :=
    list_to_map [("proc", "/proc"); ("dev", "/dev"); ("devpts", "/dev/pts")];
  mountmap :=
    list_to_map [("proc", "/proc"); ("dev", "/dev"); ("devpts", "/dev/pts")]
|}.

Definition demo_fs : gmap string Node :=
  list_to_map
    [ ("/work", Dir); ("/work/proc", Dir); ("/work/dev", Dir);
      ("/work/dev/pts", Dir); ("/proc", Dir); ("/dev", Dir);
      ("/dev/pts", Dir); ("/store/builds/seed.tar", File "seed");
      ("/store/snapshots/repo.tar", File "repo");
      ("/share/targets/stage3/stage3-controller.sh", File "#!/bin/bash") ].

Definition demo_world (files : gmap string Node) (mnt : list string)
    (pts : gmap string (option string))
    (env : list Event → Call → bool) : World :=
  mkWorld files mnt pts true [] env "Linux".

(** Environments: everything succeeds; [umount] always fails; the mount on
    one given target fails (and, in the last one, [umount] too). *)
Definition env_ok : list Event → Call → bool := λ _ _, true.

Definition is_umount (c : Call) : bool :=
  match c with
  | Cmd (prog :: _) => String.eqb prog "umount"
  | _ => false
  end.

Definition is_mount_on (t : string) (c : Call) : bool :=
  match c with
  | Cmd (prog :: args) =>
      is_mount_prog prog && bool_decide (last args = Some t)
  | _ => false
  end.

Definition env_umount_busy : list Event → Call → bool :=
  λ _ c, negb (is_umount c).

Definition env_mount_fails (t : string) : list Event → Call → bool :=
  λ _ c, negb (is_mount_on t c).

Definition env_mount_fails_busy (t : string) : list Event → Call → bool :=
  λ _ c, negb (is_mount_on t c) && negb (is_umount c).

(** [m] keeps the relation [R] between the world it starts in and the world
    it leaves, whatever its outcome. *)
Definition keeps {A} (R : World → World → Prop) (m : M A) : Prop :=
  ∀ w, R w (m w).2.

Definition is_log (e : Event) : Prop :=
  match e with EvLog _ _ _ => True | _ => False end.

(** The directories and the extraction of a full [unpack], from the moment
    the working root is found invalid; [ok] is the extractor's report. *)
Definition unpack_transfer_events (b : Builder) (ok : bool) : list Event :=
  [ EvLog Notice "Resume: Target chroot is invalid, cleaning up..." [];
    EvLog Notice "Removing AutoResume Points ..." [];
    EvLog Notice "Clearing the chroot path ..." [];
    EvClearDir (chroot_path b) false;
    EvLog Notice display_msg ["None"; source_path b; chroot_path b];
    EvCall (Extract (source_path b) (chroot_path b) None) ok ]
  ++ (if ok then []
      else [EvLog Error error_msg ["None"; source_path b; chroot_path b]]).

(** The events of an [unpack] that skips. *)
Definition unpack_skip_events (b : Builder) : list Event :=
  (if has_option "seedcache" (options b) then
     [EvLog Notice "Referenced SEEDCACHE does not appear to be a directory, trying to untar..." []]
   else [])
  ++ [ EvLog Notice ("Resume: " +:+ quoted "chroot" +:+ " is valid...") [];
       EvLog Notice ("Resume: " +:+ quoted "seed source" +:+
                     " hash matches chroot...") [];
       EvLog Notice "Resume: Valid resume point detected, skipping seed unpack operation..." [] ].

(** A run of [m] that raises leaves the resume store as it found it: [m]
    records nothing unless it returns. *)
Definition records_only_on_return {A} (m : M A) : Prop :=
  ∀ w e, (m w).1 = Raise e → same_store w (m w).2.

Definition never_raises {A} (m : M A) : Prop :=
  ∀ w, ∃ a, (m w).1 = Ok a.

(** Only files differ between the two worlds. *)
Definition only_files (w w' : World) : Prop :=
  mounted w' = mounted w ∧ points w' = points w ∧
  store_dir w' = store_dir w ∧ trace w' = trace w ∧
  oracle w' = oracle w ∧ sysname w' = sysname w.

Definition compress_call (b : Builder) : Call :=
  Compress (stage_path b) (target_filename b).

Definition tarball_warning (b : Builder) : Event :=
  EvLog Warning "Couldn't create stage tarball: %s" [target_filename b].

(** The stages of the embedding that record a resume point of their own. *)
Definition recording_stages (normpath determine_mode : string → string)
    (b : Builder) : list (M unit) :=
  [ unpack normpath b; unpack_snapshot normpath b determine_mode;
    setup_confdir normpath b; run_local normpath b; preclean normpath b;
    capture b; build_kernel normpath b ].

Definition env_compress_fails : list Event → Call → bool :=
  λ _ c, match c with Compress _ _ => false | _ => true end.

Definition env_extract_fails : list Event → Call → bool :=
  λ _ c, match c with Extract _ _ _ => false | _ => true end.

(** The controller script fails when asked to [run]. *)
Definition env_run_fails : list Event → Call → bool :=
  λ _ c, match c with
         | Cmd [_; action] => negb (String.eqb action "run")
         | _ => true
         end.

Definition demo_methods (b : Builder) : string → option (M unit) :=
  embedded_methods demo_normpath demo_normpath b.

(** Decision procedures for the hypotheses on concrete builders and
    worlds. *)
Global Instance mounts_resolved_dec (b : Builder) : Decision (mounts_resolved b).
Proof. unfold mounts_resolved. apply _. Defined.

Global Instance not_a_mount_point_dec (w : World) (t : string) :
  Decision (not_a_mount_point w t).
Proof. unfold not_a_mount_point. apply _. Defined.

(** ** The builders and worlds of the examples *)

Definition plain_builder : Builder := demo_builder [] [].

Definition resuming_builder : Builder := demo_builder ["autoresume"] [].

(** A run whose controller script fails in [run_local]. *)
Definition failing_run_builder : Builder :=
  demo_builder ["autoresume"]
    ["unpack"; "bind"; "run_local"; "preclean"; "capture"].

Definition capture_run_builder : Builder :=
  demo_builder [] ["capture"; "remove_chroot"].

Definition clean_world : World := demo_world demo_fs [] ∅ env_ok.

Definition failing_run_world : World := demo_world demo_fs [] ∅ env_run_fails.

(** [/work/dev/pts] is missing and only [/work/proc] is mounted. *)
Definition mixed_world : World :=
  demo_world (delete "/work/dev/pts" demo_fs) ["/work/proc"] ∅ env_ok.

(** [/work/proc] is mounted and [umount] fails; in the second world the
    kill script is installed. *)
Definition busy_world : World :=
  demo_world demo_fs ["/work/proc"] ∅ env_umount_busy.

Definition busy_world_with_kill_script : World :=
  demo_world
    (<["/share/targets/support/kill-chroot-pids.sh" := File "#!/bin/bash"]>
       demo_fs)
    ["/work/proc"] ∅ env_umount_busy.

(** Nothing is mounted; the mount on [/work/dev] fails, and in the second
    world [umount] fails as well. *)
Definition mount_fails_world : World :=
  demo_world demo_fs [] ∅ (env_mount_fails "/work/dev").

Definition mount_fails_busy_world : World :=
  demo_world demo_fs [] ∅ (env_mount_fails_busy "/work/dev").

(** The hash of the seed is recorded at [unpack]; in the second world the
    working root is missing. *)
Definition resumed_world : World :=
  demo_world demo_fs [] {["unpack" := Some "sha512 aaaa"]} env_ok.

Definition resumed_world_without_root : World :=
  demo_world (delete "/work" demo_fs) []
    {["unpack" := Some "sha512 aaaa"]} env_ok.

(** The tree of the repository is unpacked and its hash recorded. *)
Definition snapshot_world : World :=
  demo_world (<["/work/var/db/repos/gentoo" := Dir]> demo_fs) []
    {["unpack_repo" := Some "sha512 bbbb"]} env_ok.

Definition compress_fails_world : World :=
  demo_world demo_fs [] ∅ env_compress_fails.

Definition extract_fails_world : World :=
  demo_world demo_fs [] ∅ env_extract_fails.

(** Settings with a key that is not known, and without most of the
    required ones. *)
Definition bogus_settings : Spec :=
  [("storedir", VStr "/store"); ("bogus", VStr "x")].

(** ** Predicates for the statements about single stages *)

(** The stage guarded by [point] is not skipped in [w]. *)
Definition gate_open (b : Builder) (point : string) (w : World) : Prop :=
  opt b "autoresume" = false ∨ points w !! point = None.

(** The world after [resume.enable(point, data)]. *)
Definition recorded (point : string) (data : option string) (w : World)
  : World :=
  with_points (<[point := data]> (points w)) (store_dir w) w.

(** The world after a successful command. *)
Definition ran (argv : list string) (w : World) : World :=
  with_event (EvCall (Cmd argv) true) (call_effect (Cmd argv) w).

(** The world after a command that exited non-zero. *)
Definition failed (argv : list string) (w : World) : World :=
  with_event (EvCall (Cmd argv) false) w.

(** The outcome of [unbind(); raise e] from [w]: the error of [unbind] when
    it raises, [e] otherwise. *)
Definition unbind_then_raise {A} (normpath : string → string) (b : Builder)
    (e : exn) (w : World) : Res A * World :=
  (match (unbind normpath b w).1 with
   | Ok _ => Raise e
   | Raise e' => Raise e'
   end, (unbind normpath b w).2).

(** The commands of a trace, with their outcome. *)
Fixpoint commands (tr : list Event) : list (list string * bool) :=
  match tr with
  | [] => []
  | EvCall (Cmd argv) ok :: tr' => (argv, ok) :: commands tr'
  | _ :: tr' => commands tr'
  end.

(** The command [portage_overlay] runs for the overlay [x]: a single
    string, handed to [cmd] as it is. *)
Definition overlay_copy_command (b : Builder) (x : string) : list string :=
  ["cp -a " +:+ x +:+ "/* " +:+ chroot_path b +:+ local_overlay b].

(** The overlays among [l] that exist in [w]. *)
Definition existing (w : World) (l : list string) : list string :=
  filter (λ x, is_Some (fs w !! x)) l.

(** ** The stages of the class outside the default action sequence *)

Section MoreStages.

Variable normpath : string → string.
Variable b : Builder.

Definition rcupdate : M unit :=
  skip <- autoresume_enabled b "rcupdate" ;;
  if skip then
    log Notice "Resume point detected, skipping rcupdate operation..." []
  else
    e <- os_path_exists (controller_file b) ;;
    if e then
      cmd [controller_file b; "rc-update"] None ;;
      resume_enable "rcupdate" None
    else ret tt.

Definition target_setup : M unit :=
  skip <- autoresume_enabled b "target_setup" ;;
  if skip then
    log Notice "Resume point detected, skipping target_setup operation..." []
  else
    log Notice "Setting up filesystems per filesystem type" [] ;;
    cmd [controller_file b; "target_image_setup"; target_path b] None ;;
    resume_enable "target_setup" None.

Definition bootloader : M unit :=
  skip <- autoresume_enabled b "bootloader" ;;
  if skip then
    log Notice "Resume point detected, skipping bootloader operation..." []
  else
    try_except
      (cmd [controller_file b; "bootloader"; rstrip_slash (target_path b)]
           None ;;
       resume_enable "bootloader" None)
      is_CatalystError
      (λ _, unbind normpath b ;;
            raise (CatalystError "Script aborting due to error.")).

(** The notice of a skipped [livecd_update] names [build_packages]: the
    source has it so. *)
Definition livecd_update : M unit :=
  skip <- autoresume_enabled b "livecd_update" ;;
  if skip then
    log Notice "Resume point detected, skipping build_packages operation..." []
  else
    try_except
      (cmd [controller_file b; "livecd-update"] None ;;
       resume_enable "livecd_update" None)
      is_CatalystError
      (λ _, unbind normpath b ;;
            raise (CatalystError "build aborting due to livecd_update error.")).

(** The stages that look at their own resume point and at nothing else
    before they decide to skip, with the name of the point. *)
Definition gated_stages : list (string * M unit) :=
  [ ("setup_confdir", setup_confdir normpath b);
    ("run_local", run_local normpath b);
    ("preclean", preclean normpath b);
    ("capture", capture b);
    ("build_kernel", build_kernel normpath b);
    ("rcupdate", rcupdate);
    ("target_setup", target_setup);
    ("bootloader", bootloader);
    ("livecd_update", livecd_update) ].

End MoreStages.

(** ** The settings during construction *)

(** Results of pure code that can raise. *)
Global Instance Res_ret : MRet Res := λ A a, Ok a.

Global Instance Res_bind : MBind Res :=
  λ A B f m, match m with Ok a => f a | Raise e => Raise e end.

(** [del d[k]], for a key that is there. *)
Fixpoint spec_del (k : string) (d : Spec) : Spec :=
  match d with
  | [] => []
  | (k', v) :: d' =>
      if String.eqb k k' then spec_del k d' else (k', v) :: spec_del k d'
  end.

(** [d[k]] *)
Definition getitem (k : string) (d : Spec) : Res SpecValue :=
  match spec_get k d with
  | Some v => Ok v
  | None => Raise (KeyError k)
  end.

(** [v1 + v2]: strings and lists concatenate with their own kind only. *)
Definition py_add (v1 v2 : SpecValue) : Res SpecValue :=
  match v1, v2 with
  | VStr s1, VStr s2 => Ok (VStr (s1 +:+ s2))
  | VList l1, VList l2 => Ok (VList (l1 ++ l2))
  | VStr _, VList _ =>
      Raise (TypeError ("can only concatenate str (not " +:+ dq +:+ "list"
                        +:+ dq +:+ ") to str"))
  | VList _, VStr _ =>
      Raise (TypeError ("can only concatenate list (not " +:+ dq +:+ "str"
                        +:+ dq +:+ ") to list"))
  end.

(** [x in v]: a substring test on a string, membership in a list. *)
Definition py_contains (x : string) (v : SpecValue) : bool :=
  match v with
  | VStr s => substringb x s
  | VList l => bool_decide (x ∈ l)
  end.

(** [v.rstrip('/')] *)
Definition py_rstrip_slash (v : SpecValue) : Res SpecValue :=
  match v with
  | VStr s => Ok (VStr (rstrip_slash s))
  | VList _ =>
      Raise (AttributeError "'list' object has no attribute 'rstrip'")
  end.

Section Settings.

(** [support.normpath] is not part of the sources: it is a parameter, and
    so is what it does when it is handed a list.  [split] is [str.split()]
    of Python. *)
Variable normpath : string → string.
Variable normpath_list : list string → Res SpecValue.
Variable split : string → list string.

Definition py_normpath (v : SpecValue) : Res SpecValue :=
  match v with
  | VStr s => Ok (VStr (normpath s))
  | VList l => normpath_list l
  end.

(** [self.settings["spec_prefix"] + suffix], used as a key. *)
Definition prefixed (suffix : string) (settings : Spec) : Res string :=
  p ← getitem "spec_prefix" settings;
  k ← py_add p (VStr suffix);
  match k with
  | VStr key => Ok key
  | VList _ => Raise (TypeError "unhashable type: 'list'")
  end.

Definition set_spec_prefix (settings : Spec) : Res Spec :=
  target ← getitem "target" settings;
  Ok (spec_set "spec_prefix" target settings).

Definition set_target_subpath (settings : Spec) : Res Spec :=
  rel_type ← getitem "rel_type" settings;
  t1 ← py_add rel_type (VStr "/");
  target ← getitem "target" settings;
  t2 ← py_add t1 target;
  t3 ← py_add t2 (VStr "-");
  subarch ← getitem "subarch" settings;
  common ← py_add t3 subarch;
  t4 ← py_add common (VStr "-");
  version_stamp ← getitem "version_stamp" settings;
  t5 ← py_add t4 version_stamp;
  versioned ← py_add t5 (VStr "/");
  let settings1 := spec_set "target_subpath" versioned settings in
  unversioned ← py_add common (VStr "/");
  Ok (spec_set "target_subpath_unversioned" unversioned settings1).

Definition set_source_subpath (settings : Spec) : Res Spec :=
  v ← getitem "source_subpath" settings;
  match v with
  | VStr _ => Ok settings
  | VList _ =>
      Raise (CatalystError
               ("source_subpath should have been a string. Perhaps you have "
                +:+ "something wrong in your spec file?"))
  end.

(** The body shared by [set_rcadd], [set_rcdel] and
    [set_build_kernel_vars]: the entry under the prefixed key moves to the
    plain key. *)
Definition move_prefixed (suffix dest : string) (settings : Spec) : Res Spec :=
  key ← prefixed suffix settings;
  match spec_get key settings with
  | Some v => Ok (spec_del key (spec_set dest v settings))
  | None => Ok settings
  end.

Definition set_rcadd : Spec → Res Spec := move_prefixed "/rcadd" "rcadd".

Definition set_rcdel : Spec → Res Spec := move_prefixed "/rcdel" "rcdel".

Definition set_build_kernel_vars : Spec → Res Spec :=
  move_prefixed "/gk_mainargs" "gk_mainargs".

Definition set_cdtar (settings : Spec) : Res Spec :=
  key ← prefixed "/cdtar" settings;
  match spec_get key settings with
  | Some v =>
      cdtar ← py_normpath v;
      Ok (spec_del key (spec_set "cdtar" cdtar settings))
  | None => Ok settings
  end.

Definition set_linuxrc (settings : Spec) : Res Spec :=
  key ← prefixed "/linuxrc" settings;
  match spec_get key settings with
  | Some (VStr s) => Ok (spec_del key (spec_set "linuxrc" (VStr s) settings))
  | _ => Ok settings
  end.

(** The first half of [set_use] and of [set_catalyst_use]. *)
Definition move_use (suffix dest : string) (settings : Spec) : Res Spec :=
  key ← prefixed suffix settings;
  match spec_get key settings with
  | Some (VStr s) =>
      Ok (spec_del key (spec_set dest (VList (split s)) settings))
  | Some (VList l) => Ok (spec_del key (spec_set dest (VList l) settings))
  | None => Ok (spec_set dest (VList []) settings)
  end.

Definition set_use : Spec → Res Spec := move_use "/use" "use".

Definition set_catalyst_use (settings : Spec) : Res Spec :=
  settings1 ← move_use "/catalyst_use" "catalyst_use" settings;
  options ← getitem "options" settings1;
  if py_contains "bindist" options then
    catalyst_use ← getitem "catalyst_use" settings1;
    match catalyst_use with
    | VList l =>
        Ok (spec_set "catalyst_use" (VList (l ++ ["bindist"])) settings1)
    | VStr _ =>
        Raise (AttributeError "'str' object has no attribute 'append'")
    end
  else Ok settings1.

(** The body shared by [set_rm], [set_overlay] and [set_root_overlay]: a
    string under the prefixed key is split in place. *)
Definition split_prefixed (suffix : string) (settings : Spec) : Res Spec :=
  key ← prefixed suffix settings;
  match spec_get key settings with
  | Some (VStr s) => Ok (spec_set key (VList (split s)) settings)
  | _ => Ok settings
  end.

Definition set_rm : Spec → Res Spec := split_prefixed "/rm".

Definition set_overlay : Spec → Res Spec := split_prefixed "/overlay".

Definition set_root_overlay : Spec → Res Spec :=
  split_prefixed "/root_overlay".

Definition set_install_mask (settings : Spec) : Res Spec :=
  match spec_get "install_mask" settings with
  | Some (VList l) => Ok (spec_set "install_mask" (VStr (join " " l)) settings)
  | _ => Ok settings
  end.

Definition set_root_path (settings : Spec) : Res Spec :=
  Ok (spec_set "root_path" (VStr "/") settings).

Definition set_chroot_path (settings : Spec) : Res Spec :=
  storedir ← getitem "storedir" settings;
  t1 ← py_add storedir (VStr "/tmp/");
  target_subpath ← getitem "target_subpath" settings;
  stripped ← py_rstrip_slash target_subpath;
  t2 ← py_add t1 stripped;
  chroot_path ← py_normpath t2;
  Ok (spec_set "chroot_path" chroot_path settings).

Definition set_dest_path (settings : Spec) : Res Spec :=
  match spec_get "root_path" settings with
  | Some root_path =>
      chroot_path ← getitem "chroot_path" settings;
      t ← py_add chroot_path root_path;
      destpath ← py_normpath t;
      Ok (spec_set "destpath" destpath settings)
  | None =>
      chroot_path ← getitem "chroot_path" settings;
      destpath ← py_normpath chroot_path;
      Ok (spec_set "destpath" destpath settings)
  end.

Definition set_stage_path (settings : Spec) : Res Spec :=
  chroot_path ← getitem "chroot_path" settings;
  stage_path ← py_normpath chroot_path;
  Ok (spec_set "stage_path" stage_path settings).

Definition set_controller_file (settings : Spec) : Res Spec :=
  sharedir ← getitem "sharedir" settings;
  t1 ← py_add sharedir (VStr "/targets/");
  target ← getitem "target" settings;
  t2 ← py_add t1 target;
  t3 ← py_add t2 (VStr "/");
  target' ← getitem "target" settings;
  t4 ← py_add t3 target';
  t5 ← py_add t4 (VStr "-controller.sh");
  controller_file ← py_normpath t5;
  Ok (spec_set "controller_file" controller_file settings).

(** The cache path of [set_pkgcache_path] and [set_kerncache_path]: a path
    given as a string is kept as it is; otherwise the path is derived from
    [storedir] and the target subpath, versioned or not. *)
Definition set_pkgcache_path (settings : Spec) : Res Spec :=
  match spec_get "pkgcache_path" settings with
  | Some (VStr _) => Ok settings
  | Some (VList l) =>
      p ← normpath_list l;
      Ok (spec_set "pkgcache_path" p settings)
  | None =>
      options ← getitem "options" settings;
      let subpath :=
        if py_contains "versioned_cache" options then "target_subpath"
        else "target_subpath_unversioned" in
      storedir ← getitem "storedir" settings;
      t1 ← py_add storedir (VStr "/packages/");
      sub ← getitem subpath settings;
      t2 ← py_add t1 sub;
      t3 ← py_add t2 (VStr "/");
      p ← py_normpath t3;
      Ok (spec_set "pkgcache_path" p settings)
  end.

Definition set_kerncache_path (settings : Spec) : Res Spec :=
  match spec_get "kerncache_path" settings with
  | Some (VStr _) => Ok settings
  | Some (VList l) =>
      p ← normpath_list l;
      Ok (spec_set "kerncache_path" p settings)
  | None =>
      options ← getitem "options" settings;
      let subpath :=
        if py_contains "versioned_cache" options then "target_subpath"
        else "target_subpath_unversioned" in
      storedir ← getitem "storedir" settings;
      t1 ← py_add storedir (VStr "/kerncache/");
      sub ← getitem subpath settings;
      t2 ← py_add t1 sub;
      p ← py_normpath t2;
      Ok (spec_set "kerncache_path" p settings)
  end.

(** The path settings in the order of [__init__]: [set_root_path],
    [set_chroot_path], [set_dest_path], [set_stage_path]. *)
Definition set_paths (settings : Spec) : Res Spec :=
  s1 ← set_root_path settings;
  s2 ← set_chroot_path s1;
  s3 ← set_dest_path s2;
  set_stage_path s3.

End Settings.

(** The string held under [k], if [k] holds a string. *)
Definition spec_str (k : string) (d : Spec) : option string :=
  match spec_get k d with
  | Some (VStr s) => Some s
  | _ => None
  end.

(** ** class generic *)

Section Generic.

(** [str(v)] of a list is left as a parameter. *)
Variable repr_list : list string → string.

Definition py_str (v : SpecValue) : string :=
  match v with
  | VStr s => s
  | VList l => repr_list l
  end.

(** [generic.__init__]: [myspec.setdefault('CHROOT', 'chroot')] *)
Definition generic_init (myspec : Spec) : Spec :=
  match spec_get "CHROOT" myspec with
  | Some _ => myspec
  | None => spec_set "CHROOT" (VStr "chroot") myspec
  end.

(** [generic.setarch]; [sys] is [os.uname()[0]]. *)
Definition setarch (sys arch : string) (settings : Spec) : Res Spec :=
  if String.eqb sys "Linux" then
    chroot ← getitem "CHROOT" settings;
    Ok (spec_set "CHROOT"
          (VStr ("setarch " +:+ arch +:+ " " +:+ py_str chroot)) settings)
  else Ok settings.

End Generic.

(** ** Predicates for the statements about the settings *)

(** [f] moves the entry of the prefixed key to [dest]: the value is kept,
    the prefixed key is gone, every other entry is as it was, and a second
    call changes nothing.  Without the prefixed key [f] changes nothing. *)
Definition moves_key (f : Spec → Res Spec) (suffix dest : string) : Prop :=
  ∀ (prefix : string) (settings : Spec),
    spec_get "spec_prefix" settings = Some (VStr prefix) →
    let key := prefix +:+ suffix in
    match spec_get key settings with
    | Some v =>
        ∃ settings',
          f settings = Ok settings' ∧
          spec_get dest settings' = Some v ∧
          spec_get key settings' = None ∧
          (∀ k, k ≠ key → k ≠ dest →
                spec_get k settings' = spec_get k settings) ∧
          f settings' = Ok settings'
    | None => f settings = Ok settings
    end.

(** The names of the kernels in the settings. *)
Definition kernel_names (settings : Spec) : list string :=
  match spec_get "boot/kernel" settings with
  | Some (VStr s) => [s]
  | Some (VList l) => l
  | None => []
  end.

(** The string [s] has the character [c]. *)
Fixpoint has_char (c : ascii) (s : string) : bool :=
  match s with
  | EmptyString => false
  | String c' s' => Ascii.eqb c c' || has_char c s'
  end.

(** ** More builders, worlds and settings for the examples *)

(** [contents] is configured. *)
Definition contents_builder : Builder :=
  let b := demo_builder [] ["capture"] in
  mkBuilder (options b) (action_sequence b) (chroot_path b) (sharedir b)
    (shdir b) (controller_file b) (source_path b) (source_path_hash b)
    (snapshot_path b) (snapshot_path_hash b) (snapshot_cache_path b)
    (repo_basedir b) (repo_name b) (target_path b) (stage_path b)
    (compression_mode b) (compressor_extension b) (pkgcache_path b)
    (kerncache_path b) (var_tmpfs_portage b) (Some "/etc/portage")
    (port_conf b) (Some ["/overlays/a"; "/overlays/missing"; "/overlays/b"])
    (local_overlay b) (Some "auto") (digests b)
    [("boot/kernel", VStr "gentoo");
     ("boot/kernel/gentoo/config", VStr "/etc/kernels/gentoo.config")]
    (mounts b) (target_mounts b) (mountmap b).

Definition purging_builder : Builder :=
  demo_builder ["purgeonly"; "clear-autoresume"; "autoresume"]
    ["remove_chroot"].

(** The overlays [a] and [b] exist; the kernel configuration is a
    directory. *)
Definition overlay_world : World :=
  demo_world
    (<["/overlays/a" := Dir]>
       (<["/overlays/b" := Dir]>
          (<["/etc/kernels/gentoo.config" := Dir]> demo_fs)))
    [] ∅ env_ok.

(** [/work/proc] carries two mounts. *)
Definition stacked_world : World :=
  demo_world demo_fs ["/work/proc"; "/work/proc"] ∅ env_ok.

(** Every command fails. *)
Definition env_commands_fail : list Event → Call → bool :=
  λ _ c, match c with Cmd _ => false | _ => true end.

Definition commands_fail_world : World :=
  demo_world demo_fs [] ∅ env_commands_fail.

(** The point [run_local] is enabled. *)
Definition run_local_done_world : World :=
  demo_world demo_fs [] {["run_local" := None]} env_commands_fail.

(** A [split] for the examples: it splits at spaces. *)
Fixpoint demo_split_from (word : string) (s : string) : list string :=
  match s with
  | EmptyString =>
      match word with EmptyString => [] | _ => [word] end
  | String c s' =>
      if Ascii.eqb c " "%char then
        match word with
        | EmptyString => demo_split_from EmptyString s'
        | _ => word :: demo_split_from EmptyString s'
        end
      else demo_split_from (word +:+ String c EmptyString) s'
  end.

Definition demo_split : string → list string := demo_split_from EmptyString.

Definition demo_normpath_list (l : list string) : Res SpecValue :=
  Raise (TypeError "expected str, bytes or os.PathLike object, not list").

Definition demo_repr_list (l : list string) : string :=
  "[" +:+ join ", " (map (λ x, "'" +:+ x +:+ "'") l) +:+ "]".

Definition demo_settings : Spec :=
  [ ("storedir", VStr "/store"); ("sharedir", VStr "/share");
    ("rel_type", VStr "default"); ("target", VStr "stage3");
    ("subarch", VStr "amd64"); ("version_stamp", VStr "2021");
    ("options", VList ["bindist"]); ("spec_prefix", VStr "stage3");
    ("target_subpath", VStr "default/stage3-amd64-2021/");
    ("target_subpath_unversioned", VStr "default/stage3-amd64/");
    ("catalyst_use", VList ["old"]);
    ("stage3/use", VStr "ssl -doc");
    ("stage3/catalyst_use", VList ["static"]);
    ("stage3/rcadd", VStr "sshd|default");
    ("stage3/linuxrc", VStr "/etc/linuxrc");
    ("boot/kernel", VList ["gentoo"; "vanilla"]);
    ("boot/kernel/gentoo/packages", VStr "sys-kernel/zfs") ].

(** A run whose sequence names an action the object does not have. *)
Definition unknown_action_builder : Builder :=
  demo_builder [] ["unpack"; "no_such_action"; "capture"].


(** Every target is mounted, the kill script is installed, and every
    command fails: [umount] and the kill script. *)
Definition kill_script_fails_world : World :=
  demo_world
    (<["/share/targets/support/kill-chroot-pids.sh" := File "#!/bin/bash"]>
       demo_fs)
    ["/work/dev/pts"; "/work/dev"; "/work/proc"] ∅ env_commands_fail.


Lemma string_app_assoc (s1 s2 s3 : string) :
  (s1 +:+ s2) +:+ s3 = s1 +:+ (s2 +:+ s3).
Proof.
  induction s1 as [|c s1 IH]; [done|].
  change (String c ((s1 +:+ s2) +:+ s3) = String c (s1 +:+ (s2 +:+ s3))).
  by rewrite IH.
Qed.

Lemma string_app_empty_r (s : string) : s +:+ EmptyString = s.
Proof.
  induction s as [|c s IH]; [done|].
  change (String c (s +:+ EmptyString) = String c s). by rewrite IH.
Qed.

Lemma substring_of_refl (s : string) : substring_of s s.
Proof.
  exists EmptyString, EmptyString. by rewrite string_app_empty_r.
Qed.

Lemma substring_of_app_l (s t pre : string) :
  substring_of s t → substring_of s (pre +:+ t).
Proof.
  intros (p & q & ->). exists (pre +:+ p), q. by rewrite string_app_assoc.
Qed.

Lemma substring_of_app_r (s t post : string) :
  substring_of s t → substring_of s (t +:+ post).
Proof.
  intros (p & q & ->). exists p, (q +:+ post).
  by rewrite !string_app_assoc.
Qed.

Lemma substring_of_trans (s t u : string) :
  substring_of s t → substring_of t u → substring_of s u.
Proof.
  intros Hst (p & q & ->). by apply substring_of_app_l, substring_of_app_r.
Qed.

Lemma join_substring (sep m : string) (l : list string) :
  m ∈ l → substring_of m (join sep l).
Proof.
  induction l as [|x rest IH]; intros Hin; [by apply elem_of_nil in Hin|].
  apply elem_of_cons in Hin. simpl. destruct rest as [|y rest'].
  - destruct Hin as [->|Hin]; [apply substring_of_refl | by apply elem_of_nil in Hin].
  - destruct Hin as [->|Hin].
    + apply substring_of_app_r, substring_of_refl.
    + apply substring_of_app_l, substring_of_app_l. by apply IH.
Qed.

Lemma foldl_append_elem {A} (P : A → bool) (f : A → string)
    (l : list A) (acc : list string) (m : string) :
  m ∈ foldl (λ messages x, if P x then messages ++ [f x] else messages) acc l
  ↔ m ∈ acc ∨ ∃ x, x ∈ l ∧ P x = true ∧ m = f x.
Proof.
  revert acc. induction l as [|y l IH]; intros acc; simpl.
  - split; [by left | intros [H|(x & Hx & _)]; [done | by apply elem_of_nil in Hx]].
  - rewrite IH. split.
    + intros [H|(x & Hx & HP & ->)].
      * destruct (P y) eqn:HPy; [|by left].
        apply elem_of_app in H as [H|H]; [by left|].
        apply list_elem_of_singleton in H as ->. right. exists y.
        split_and!; [apply elem_of_cons; by left | done | done].
      * right. exists x. split_and!; [apply elem_of_cons; by right | done | done].
    + intros [H|(x & Hx & HP & ->)].
      * left. destruct (P y); [apply elem_of_app; by left | done].
      * apply elem_of_cons in Hx as [->|Hx].
        -- left. rewrite HP. apply elem_of_app. right. by apply list_elem_of_singleton.
        -- right. by exists x.
Qed.

Lemma spec_keys_spec_set (k : string) (v : SpecValue) (d : Spec) :
  is_Some (spec_get k d) → spec_keys (spec_set k v d) = spec_keys d.
Proof.
  unfold spec_keys. induction d as [|[k' v'] d IH]; simpl; intros Hs.
  - by destruct Hs.
  - destruct (String.eqb k k') eqn:E; [done|].
    rewrite !fmap_cons. f_equal. by apply IH.
Qed.

Lemma kernel_vars_step_keys (st : list string * Spec) (x : string) :
  spec_keys (kernel_vars_step st x).2 = spec_keys st.2.
Proof.
  unfold kernel_vars_step. simpl.
  destruct (spec_get _ st.2) as [[s|l]|] eqn:E; try done.
  apply spec_keys_spec_set. by rewrite E.
Qed.

Lemma set_valid_build_kernel_vars_keys (valid : list string) (addlargs : Spec) :
  spec_keys (set_valid_build_kernel_vars valid addlargs).2 = spec_keys addlargs.
Proof.
  unfold set_valid_build_kernel_vars.
  destruct (spec_get "boot/kernel" addlargs) as [v|]; [|done].
  generalize (match v with VStr s => [s] | VList l => l end). intros loopy.
  change addlargs with ((valid, addlargs).2) at 2.
  generalize (valid, addlargs). induction loopy as [|x loopy IH]; intros st; simpl.
  - done.
  - by rewrite IH, kernel_vars_step_keys.
Qed.


Lemma addl_messages_elem (valid : list string) (myspec : Spec) (m : string) :
  m ∈ addl_messages valid myspec ↔
  (∃ k, unknown_key valid myspec k ∧ m = msg_not_recognized k) ∨
  (∃ k, missing_key myspec k ∧ m = msg_not_specified k).
Proof.
  unfold addl_messages.
  rewrite (foldl_append_elem (λ x, bool_decide (x ∉ spec_keys myspec))).
  rewrite (foldl_append_elem
             (λ x, bool_decide (x ∉ valid) && bool_decide (x ∉ required_values))).
  unfold unknown_key, missing_key. split.
  - intros [[H|(k & Hk & HP & ->)]|(k & Hk & HP & ->)].
    + by apply elem_of_nil in H.
    + left. exists k. apply andb_true_iff in HP as [H1 H2].
      apply bool_decide_eq_true in H1, H2. done.
    + right. exists k. apply bool_decide_eq_true in HP. done.
  - intros [(k & (Hk & H1 & H2) & ->)|(k & (Hk & H1) & ->)].
    + left. right. exists k. split_and!; [done| |done].
      apply andb_true_iff. split; by apply bool_decide_eq_true.
    + right. exists k. split_and!; [done| |done]. by apply bool_decide_eq_true.
Qed.

Lemma substring_msg_not_recognized (k : string) :
  substring_of k (msg_not_recognized k).
Proof.
  unfold msg_not_recognized. exists ("Argument " +:+ dq), (dq +:+ " not recognized.").
  by rewrite !string_app_assoc.
Qed.

Lemma substring_msg_not_specified (k : string) :
  substring_of k (msg_not_specified k).
Proof.
  unfold msg_not_specified.
  exists ("Required argument " +:+ dq), (dq +:+ " not specified.").
  by rewrite !string_app_assoc.
Qed.

Lemma addl_arg_parse_raises (valid : list string) (myspec : Spec) (e : exn) :
  _addl_arg_parse valid myspec = Raise e ↔
  e = CatalystError (join also_sep (addl_messages valid myspec)) ∧
  ∃ m, m ∈ addl_messages valid myspec.
Proof.
  unfold _addl_arg_parse. case_bool_decide as Hlen.
  - split.
    + intros [= <-]. split; [done|].
      destruct (addl_messages valid myspec) as [|m l]; [simpl in Hlen; lia|].
      exists m. apply elem_of_cons. by left.
    + by intros [-> _].
  - split; [done|]. intros [_ [m Hm]].
    destruct (addl_messages valid myspec); [by apply elem_of_nil in Hm|].
    simpl in Hlen. lia.
Qed.

(** C9.  The validation done when a [Builder] is constructed raises exactly
    when the settings have a key that is neither a required nor a valid
    value (the valid values extended with the variables of the kernels
    named in [boot/kernel]), or lack a required key.  The error is a
    [CatalystError] whose message holds one line for each such key, with the
    name of the key.  When the validation returns, every required key is
    among the keys of the settings. *)
Theorem Builder_init_validate_spec (valid0 : list string) (settings : Spec) :
  let valid := (set_valid_build_kernel_vars valid0 settings).1 in
  ((∃ e, Builder_init_validate valid0 settings = Raise e) ↔
   ∃ k, unknown_key valid settings k ∨ missing_key settings k) ∧
  (∀ e, Builder_init_validate valid0 settings = Raise e →
        ∃ msg, e = CatalystError msg ∧
          (∀ k, unknown_key valid settings k →
                substring_of (msg_not_recognized k) msg ∧ substring_of k msg) ∧
          (∀ k, missing_key settings k →
                substring_of (msg_not_specified k) msg ∧ substring_of k msg)) ∧
  (∀ st, Builder_init_validate valid0 settings = Ok st →
         ∀ k, k ∈ required_values → k ∈ spec_keys settings).
Proof.
  intros valid. unfold Builder_init_validate.
  pose proof (set_valid_build_kernel_vars_keys valid0 settings) as Hkeys.
  fold valid. set (settings' := (set_valid_build_kernel_vars valid0 settings).2) in *.
  assert (Hunk : ∀ k, unknown_key valid settings' k ↔ unknown_key valid settings k)
    by (intros k; unfold unknown_key; by rewrite Hkeys).
  assert (Hmis : ∀ k, missing_key settings' k ↔ missing_key settings k)
    by (intros k; unfold missing_key; by rewrite Hkeys).
  assert (Hraise : ∀ e,
             match _addl_arg_parse valid settings' with
             | Ok _ => Ok (set_valid_build_kernel_vars valid0 settings)
             | Raise e' => Raise e'
             end = Raise e ↔ _addl_arg_parse valid settings' = Raise e).
  { intros e. destruct (_addl_arg_parse valid settings'); split; congruence. }
  split_and!.
  - split.
    + intros [e He]. apply Hraise, addl_arg_parse_raises in He as [_ [m Hm]].
      apply addl_messages_elem in Hm as [(k & Hk & _)|(k & Hk & _)];
        exists k; [left; by apply Hunk | right; by apply Hmis].
    + intros [k Hk].
      exists (CatalystError (join also_sep (addl_messages valid settings'))).
      apply Hraise, addl_arg_parse_raises. split; [done|].
      destruct Hk as [Hk|Hk].
      * exists (msg_not_recognized k). apply addl_messages_elem. left.
        exists k. split; [by apply Hunk | done].
      * exists (msg_not_specified k). apply addl_messages_elem. right.
        exists k. split; [by apply Hmis | done].
  - intros e He. apply Hraise, addl_arg_parse_raises in He as [-> _].
    eexists. split; [done|]. split; intros k Hk.
    + assert (substring_of (msg_not_recognized k)
                (join also_sep (addl_messages valid settings'))) as Hsub.
      { apply join_substring, addl_messages_elem. left. exists k.
        split; [by apply Hunk | done]. }
      split; [done|].
      eapply substring_of_trans; [apply substring_msg_not_recognized | done].
    + assert (substring_of (msg_not_specified k)
                (join also_sep (addl_messages valid settings'))) as Hsub.
      { apply join_substring, addl_messages_elem. right. exists k.
        split; [by apply Hmis | done]. }
      split; [done|].
      eapply substring_of_trans; [apply substring_msg_not_specified | done].
  - intros st Hok k Hk.
    destruct (decide (k ∈ spec_keys settings)) as [|Hnot]; [done|].
    assert (_addl_arg_parse valid settings' =
            Raise (CatalystError (join also_sep (addl_messages valid settings'))))
      as Hr.
    { apply addl_arg_parse_raises. split; [done|].
      exists (msg_not_specified k). apply addl_messages_elem. right. exists k.
      split; [apply Hmis; by split | done]. }
    rewrite Hr in Hok. done.
Qed.


(** ** Worlds and primitive steps *)

Ltac wsimpl :=
  cbn [fs mounted points store_dir trace oracle sysname
       with_event with_fs with_mounted with_points step_world] in *.

Lemma world_ext (w1 w2 : World) :
  fs w1 = fs w2 → mounted w1 = mounted w2 → points w1 = points w2 →
  store_dir w1 = store_dir w2 → trace w1 = trace w2 →
  oracle w1 = oracle w2 → sysname w1 = sysname w2 → w1 = w2.
Proof. destruct w1, w2. simpl. by intros -> -> -> -> -> -> ->. Qed.

(** Compares two worlds field by field. *)
Ltac wnorm :=
  lazymatch goal with
  | |- (?r, _) = (?r, _) => apply (f_equal (pair r))
  | _ => idtac
  end;
  apply world_ext;
  cbn [fs mounted points store_dir trace oracle sysname
       with_event with_fs with_mounted with_points step_world];
  rewrite <- ?app_assoc; cbn [app]; try reflexivity.

Lemma step_world_id (w : World) : step_world w (mounted w) [] = w.
Proof. destruct w. unfold step_world. simpl. by rewrite app_nil_r. Qed.

Lemma step_world_step (w : World) (m1 m2 : list string) (e1 e2 : list Event) :
  step_world (step_world w m1 e1) m2 e2 = step_world w m2 (e1 ++ e2).
Proof. unfold step_world. simpl. by rewrite app_assoc. Qed.

Lemma with_event_step (e : Event) (w : World) :
  with_event e w = step_world w (mounted w) [e].
Proof. done. Qed.

Lemma with_mounted_step (m : list string) (w : World) :
  with_mounted m w = step_world w m [].
Proof. unfold with_mounted, step_world. by rewrite app_nil_r. Qed.

Lemma bind_ret_l {A B} (a : A) (k : A → M B) (w : World) :
  bind_ (ret a) k w = k a w.
Proof. done. Qed.

Lemma bind_raise_l {A B} (e : exn) (k : A → M B) (w : World) :
  bind_ (raise e) k w = (Raise e, w).
Proof. done. Qed.

Lemma bind_gets {A B} (f : World → A) (k : A → M B) (w : World) :
  bind_ (gets f) k w = k (f w) w.
Proof. done. Qed.

Lemma bind_modify {B} (f : World → World) (k : unit → M B) (w : World) :
  bind_ (modify f) k w = k tt (f w).
Proof. done. Qed.

Lemma bind_log {B} (lvl : level) (fmt : string) (args : list string)
    (k : unit → M B) (w : World) :
  bind_ (log lvl fmt args) k w = k tt (with_event (EvLog lvl fmt args) w).
Proof. done. Qed.

Lemma bind_bind {A B C} (m : M A) (k : A → M B) (k' : B → M C) (w : World) :
  bind_ (bind_ m k) k' w = bind_ m (λ a, bind_ (k a) k') w.
Proof. unfold bind_. by destruct (m w) as [[a|e] w1]. Qed.

Lemma bind_eq {A B} (m : M A) (k : A → M B) (w : World) :
  bind_ m k w = match m w with
                | (Ok a, w') => k a w'
                | (Raise e, w') => (Raise e, w')
                end.
Proof. done. Qed.

Lemma try_except_eq {A} (m : M A) (handles : exn → bool) (h : exn → M A)
    (w : World) :
  try_except m handles h w =
  match m w with
  | (Ok a, w') => (Ok a, w')
  | (Raise e, w') => if handles e then h e w' else (Raise e, w')
  end.
Proof. done. Qed.

Lemma call_effect_single (prog : string) (w : World) :
  call_effect (Cmd [prog]) w = w.
Proof.
  unfold call_effect. destruct (String.eqb prog "umount"); [done|].
  by destruct (is_mount_prog prog).
Qed.

Lemma call_effect_umount (t : string) (w : World) :
  call_effect (Cmd ["umount"; t]) w
  = step_world w (remove_first t (mounted w)) [].
Proof. unfold call_effect. simpl. by rewrite with_mounted_step. Qed.

(** [cmd] without a [fail_func]. *)
Lemma cmd_None_eq (argv : list string) (w : World) :
  cmd argv None w =
  if oracle w (trace w) (Cmd argv)
  then (Ok tt, with_event (EvCall (Cmd argv) true) (call_effect (Cmd argv) w))
  else (Raise (cmd_error argv), with_event (EvCall (Cmd argv) false) w).
Proof.
  unfold cmd, bind_, call. by destruct (oracle w (trace w) (Cmd argv)).
Qed.

Section Unbind.

Variable normpath : string → string.
Variable b : Builder.

Local Abbreviation kill := (killcmd normpath b).

Lemma kill_chroot_pids_eq (w : World) :
  kill_chroot_pids normpath b w =
  if bool_decide (is_Some (fs w !! kill)) then
    if oracle w (trace w ++ [checking_info]) (Cmd [kill])
    then (Ok tt, step_world w (mounted w)
                   [checking_info; EvCall (Cmd [kill]) true])
    else (Raise (cmd_error [kill]),
          step_world w (mounted w) [checking_info; EvCall (Cmd [kill]) false])
  else (Ok tt, step_world w (mounted w) [checking_info]).
Proof.
  unfold kill_chroot_pids, setup_environment.
  cbv beta iota delta [bind_ log modify ret os_path_exists gets].
  wsimpl. fold checking_info. case_bool_decide; [|done].
  rewrite cmd_None_eq. wsimpl.
  destruct (oracle w (trace w ++ [checking_info]) (Cmd [kill])).
  - rewrite call_effect_single. by wnorm.
  - by wnorm.
Qed.

Lemma unbind_entry_unresolved (x : string) (ouch : bool) (w : World) :
  target_mounts b !! x = None →
  unbind_entry normpath b x ouch w = (Raise (KeyError x), w).
Proof.
  intros Hx. unfold unbind_entry, target_mounts_get. by rewrite Hx.
Qed.

Lemma unbind_entry_visit (x : string) (ouch : bool) (w : World) :
  is_Some (target_mounts b !! x) →
  unbind_visit kill (mount_target normpath b x) ouch w
    (unbind_entry normpath b x ouch w).1 (unbind_entry normpath b x ouch w).2.
Proof.
  intros [tm Htm]. unfold mount_target, unbind_entry, target_mounts_get.
  rewrite Htm, bind_ret_l. simpl default.
  generalize (normpath (chroot_path b +:+ tm)). intros t. cbv zeta.
  unfold os_path_exists, ismount. rewrite bind_gets.
  case_bool_decide as Hex; cbn [negb].
  2:{ rewrite bind_log. apply uv_absent. by apply eq_None_not_Some. }
  rewrite bind_gets.
  case_bool_decide as Hmt; cbn [negb].
  2:{ rewrite bind_log. by apply uv_not_mounted. }
  rewrite try_except_eq, bind_eq, cmd_None_eq.
  destruct (oracle w (trace w) (Cmd ["umount"; t])) eqn:Ho1.
  { rewrite call_effect_umount. unfold ret. simpl fst. simpl snd.
    rewrite with_event_step, step_world_step. cbn [mounted step_world app].
    replace (Ok ouch) with (Ok (A:=bool) (ouch || false))
      by (by rewrite orb_false_r).
    apply (uv_umount kill t ouch w false); [done | done | constructor]. }
  cbn [is_CatalystError cmd_error].
  rewrite !bind_log, bind_eq, kill_chroot_pids_eq.
  rewrite !with_event_step, !step_world_step. cbn [mounted step_world app].
  wsimpl.
  assert (Hor : ∀ o : bool, Ok (A:=bool) ouch = Ok (ouch || false) ∧
                            Ok (A:=bool) true = Ok (ouch || true)).
  { intros _. by rewrite orb_false_r, orb_true_r. }
  destruct (Hor true) as [Hf Ht].
  case_bool_decide as Hkill.
  - match goal with |- context [oracle w ?tr (Cmd [kill])] =>
      destruct (oracle w tr (Cmd [kill])) eqn:Hok end.
    + rewrite try_except_eq, bind_eq, cmd_None_eq. wsimpl.
      match goal with |- context [oracle w ?tr (Cmd ["umount"; t])] =>
        destruct (oracle w tr (Cmd ["umount"; t])) eqn:Ho2 end.
      * rewrite call_effect_umount. unfold ret. cbn [fst snd].
        rewrite !with_event_step, !step_world_step. cbn [mounted step_world app].
        rewrite Hf.
        exact (uv_umount kill t ouch w false _ Hex Hmt (ub_retry kill t true)).
      * cbn [is_CatalystError cmd_error]. rewrite bind_log. unfold ret.
        cbn [fst snd].
        rewrite !with_event_step, !step_world_step. cbn [mounted step_world app].
        rewrite Ht.
        exact (uv_umount kill t ouch w true _ Hex Hmt (ub_failed kill t true)).
    + cbn [fst snd]. eapply uv_abort; eauto.
  - rewrite try_except_eq, bind_eq, cmd_None_eq. wsimpl.
    match goal with |- context [oracle w ?tr (Cmd ["umount"; t])] =>
      destruct (oracle w tr (Cmd ["umount"; t])) eqn:Ho2 end.
    + rewrite call_effect_umount. unfold ret. cbn [fst snd].
      rewrite !with_event_step, !step_world_step. cbn [mounted step_world app].
      rewrite Hf.
      exact (uv_umount kill t ouch w false _ Hex Hmt (ub_retry kill t false)).
    + cbn [is_CatalystError cmd_error]. rewrite bind_log. unfold ret.
      cbn [fst snd].
      rewrite !with_event_step, !step_world_step. cbn [mounted step_world app].
      rewrite Ht.
      exact (uv_umount kill t ouch w true _ Hex Hmt (ub_failed kill t false)).
Qed.

Lemma any_failed_cons (f : bool) (outs : list bool) :
  any_failed (f :: outs) = f || any_failed outs.
Proof.
  unfold any_failed. destruct f; cbn [orb].
  - apply bool_decide_eq_true_2. apply elem_of_cons. by left.
  - apply bool_decide_ext. rewrite elem_of_cons.
    split; [by intros [?|?] | by right].
Qed.

Lemma remove_first_sublist (t : string) (l : list string) :
  sublist (remove_first t l) l.
Proof.
  induction l as [|x l IH]; simpl; [done|].
  destruct (String.eqb t x); [by apply sublist_cons | by apply sublist_skip].
Qed.

Lemma visit_block_mono (w0 w : World) (t : string) (failed : bool)
    (evs : list Event) :
  fs w = fs w0 → mounted w ⊆ mounted w0 →
  visit_block kill w t failed evs → visit_block kill w0 t failed evs.
Proof.
  intros Hfs Hm [H|H|f e H1 H2 H3]; rewrite Hfs in *.
  - by apply vb_absent.
  - by apply vb_not_mounted.
  - apply vb_umount; [done | by apply Hm | done].
Qed.

Lemma unbind_visit_block (t : string) (ouch : bool) (w : World)
    (r : Res bool) (w' : World) :
  unbind_visit kill t ouch w r w' →
  (∃ failed evs m,
      r = Ok (ouch || failed) ∧ w' = step_world w m evs ∧
      sublist m (mounted w) ∧ visit_block kill w t failed evs) ∨
  (∃ tr, r = Raise (cmd_error [kill]) ∧
         w' = step_world w (mounted w) (abort_block kill t) ∧
         is_Some (fs w !! t) ∧ t ∈ mounted w ∧
         is_Some (fs w !! kill) ∧ oracle w tr (Cmd [kill]) = false).
Proof.
  intros [H|H1 H2|failed evs H1 H2 H3|tr H1 H2 H3 H4].
  - left. exists false, [absent_notice t], (mounted w).
    rewrite orb_false_r. split_and!; [done | done | done | by apply vb_absent].
  - left. exists false, [not_mounted_notice t], (mounted w).
    rewrite orb_false_r.
    split_and!; [done | done | done | by apply vb_not_mounted].
  - left. exists failed, evs, (if failed then mounted w else remove_first t (mounted w)).
    split_and!; [done | done | | by apply vb_umount].
    destruct failed; [done | apply remove_first_sublist].
  - right. by exists tr.
Qed.

(** The loop of [unbind], from a world [w] that has the files of [w0] and
    no mount that [w0] does not have. *)
Lemma unbind_loop_trace (w0 : World) (l : list string) :
  ∀ (ouch : bool) (w : World),
    Forall (λ x, is_Some (target_mounts b !! x)) l →
    fs w = fs w0 → mounted w ⊆ mounted w0 → oracle w = oracle w0 →
    ∃ (r : Res bool) (evs : list Event) (m : list string),
      for_fold l (unbind_entry normpath b) ouch w
      = (match r with Ok o => Ok (ouch || o) | Raise e => Raise e end,
         step_world w m evs) ∧
      sublist m (mounted w) ∧
      unbind_trace kill w0 (map (mount_target normpath b) l) r evs.
Proof.
  induction l as [|x l IH]; intros ouch w Hres Hfs Hm Hor.
  - exists (Ok false), [], (mounted w). simpl. rewrite orb_false_r.
    unfold ret. rewrite step_world_id. split_and!; [done | done |].
    apply (ut_finished kill w0 [] [] []). constructor.
  - apply Forall_cons in Hres as [Hx Hres].
    pose proof (unbind_entry_visit x ouch w Hx) as Hv.
    apply unbind_visit_block in Hv
      as [(failed & evs & m & Hr & Hw & Hsub & Hvb)
         |(tr & Hr & Hw & H1 & H2 & H3 & H4)].
    + destruct (IH (ouch || failed) (step_world w m evs) Hres)
        as (r & evs' & m' & Heq & Hsub' & Htr).
      { done. }
      { simpl. intros t Ht. apply Hm. by eapply elem_of_sublist. }
      { done. }
      simpl for_fold. rewrite bind_eq.
      destruct (unbind_entry normpath b x ouch w) as [r1 w1].
      simpl in Hr, Hw. subst r1 w1. rewrite Heq, step_world_step.
      apply visit_block_mono with (w0 := w0) in Hvb; [|done|done].
      simpl in Hsub'.
      destruct Htr as [outs blocks HF|visited t rest outs blocks tr' Hts HF Ha Hb Hc Hd].
      * exists (Ok (any_failed (failed :: outs))), (concat (evs :: blocks)), m'.
        split_and!; [by rewrite any_failed_cons, orb_assoc | by etrans |].
        apply (ut_finished kill w0 _ (failed :: outs) (evs :: blocks)).
        by constructor.
      * exists (Raise (cmd_error [kill])),
               (concat (evs :: blocks) ++ abort_block kill t), m'.
        split_and!; [simpl concat; by rewrite <- app_assoc | by etrans |].
        eapply (ut_aborted kill w0 _ (mount_target normpath b x :: visited)
                  t rest (failed :: outs) (evs :: blocks) tr');
          [simpl; by rewrite Hts | by constructor | done | done | done | done].
    + exists (Raise (cmd_error [kill])), (abort_block kill (mount_target normpath b x)),
             (mounted w).
      simpl for_fold. rewrite bind_eq.
      destruct (unbind_entry normpath b x ouch w) as [r1 w1].
      simpl in Hr, Hw. subst r1 w1.
      split_and!; [done | done |].
      rewrite Hfs, Hor in *.
      eapply (ut_aborted kill w0 _ [] _ _ [] [] tr);
        [done | constructor | done | by apply Hm | done | done].
Qed.

(** [unbind] as a whole: only the mount table and the trace change; no
    mount is added; the new events are those of the visits of the targets in
    reverse insertion order. *)
Lemma unbind_spec (w : World) :
  mounts_resolved b →
  ∃ (r : Res bool) (evs : list Event) (m : list string),
    unbind normpath b w
    = (match r with
       | Ok o => if o then Raise umount_error else Ok tt
       | Raise e => Raise e
       end, step_world w m evs) ∧
    sublist m (mounted w) ∧
    unbind_trace kill w (rev (map (mount_target normpath b) (mounts b))) r evs.
Proof.
  intros Hres.
  destruct (unbind_loop_trace w (rev (mounts b)) false w)
    as (r & evs & m & Heq & Hsub & Htr); [by apply Forall_rev | done..|].
  exists r, evs, m. unfold unbind. rewrite bind_eq, Heq, map_rev in *.
  split_and!; [|done|done].
  destruct r as [o|e]; [|done]. simpl. by destruct o.
Qed.

End Unbind.


(** ** unbind: order of the visits, escalation *)

Ltac in_events :=
  repeat (apply elem_of_cons; first [left; reflexivity | right]).

Ltac not_in_events :=
  let Hin := fresh "Hin" in
  intros Hin;
  repeat (apply elem_of_cons in Hin as [Hin|Hin]; [discriminate Hin|]);
  by apply elem_of_nil in Hin.

Lemma remove_first_notin (t : string) (l : list string) :
  t ∉ l → remove_first t l = l.
Proof.
  induction l as [|x l IH]; [done|]. intros Hn. cbn [remove_first].
  apply not_elem_of_cons in Hn as [Hne Hn].
  destruct (String.eqb_spec t x) as [->|_]; [done|]. by rewrite IH.
Qed.

Lemma elem_of_remove_first_ne (t u : string) (l : list string) :
  u ≠ t → u ∈ remove_first t l ↔ u ∈ l.
Proof.
  intros Hne. induction l as [|x l IH]; [done|]. cbn [remove_first].
  destruct (String.eqb_spec t x) as [->|Hx].
  - rewrite elem_of_cons. split; [by right | by intros [?|?]].
  - rewrite !elem_of_cons, IH. done.
Qed.

Section UnbindOrder.

Variable normpath : string → string.
Variable b : Builder.

Local Abbreviation kill := (killcmd normpath b).

Lemma kill_script_ran_det (t : string) (w : World) (r1 r2 : bool) :
  kill_script_ran kill t w r1 → kill_script_ran kill t w r2 → r1 = r2.
Proof.
  unfold kill_script_ran. case_bool_decide.
  - by intros [-> _] [-> _].
  - by intros -> ->.
Qed.

(** A visit has one outcome. *)
Lemma target_visit_det (t : string) (w : World) (r1 r2 : Res bool)
    (m1 m2 : list string) (e1 e2 : list Event) :
  target_visit kill t w r1 m1 e1 → target_visit kill t w r2 m2 e2 →
  r1 = r2 ∧ m1 = m2 ∧ e1 = e2.
Proof.
  intros H1 H2.
  destruct H1 as [Ha|Ha Hb|Ha Hb Hc|ran ok Ha Hb Hc Hd He|Ha Hb Hc Hd He];
    destruct H2 as [Ha'|Ha' Hb'|Ha' Hb' Hc'|ran' ok' Ha' Hb' Hc' Hd' He'
                   |Ha' Hb' Hc' Hd' He'];
    try done;
    try (rewrite Ha in Ha'; by destruct Ha');
    try (rewrite Ha' in Ha; by destruct Ha);
    try congruence.
  - pose proof (kill_script_ran_det _ _ _ _ Hd Hd') as <-.
    rewrite He in He'. by subst ok'.
  - unfold kill_script_ran in Hd.
    rewrite bool_decide_eq_true_2 in Hd by done. destruct Hd as [_ Hd].
    congruence.
  - unfold kill_script_ran in Hd'.
    rewrite bool_decide_eq_true_2 in Hd' by done. destruct Hd' as [_ Hd'].
    congruence.
Qed.

(** So have the visits of a list of targets. *)
Lemma unbind_visits_det (ts : list string) (w : World) (r1 r2 : Res bool)
    (w1 w2 : World) :
  unbind_visits kill ts w r1 w1 → unbind_visits kill ts w r2 w2 →
  r1 = r2 ∧ w1 = w2.
Proof.
  intros H1. revert r2 w2.
  induction H1 as [w|t ts w failed m evs r w' Hv Hrest IH|t ts w e m evs Hv];
    intros r2 w2 H2; inversion H2; subst.
  - done.
  - match goal with H : target_visit _ _ _ _ _ _ |- _ =>
      destruct (target_visit_det _ _ _ _ _ _ _ _ Hv H) as ([= ->] & -> & ->)
    end.
    match goal with H : unbind_visits _ _ _ _ _ |- _ =>
      by destruct (IH _ _ H) as [-> ->]
    end.
  - match goal with H : target_visit _ _ _ _ _ _ |- _ =>
      by destruct (target_visit_det _ _ _ _ _ _ _ _ Hv H) as ([=] & _)
    end.
  - match goal with H : target_visit _ _ _ _ _ _ |- _ =>
      by destruct (target_visit_det _ _ _ _ _ _ _ _ Hv H) as ([=] & _)
    end.
  - match goal with H : target_visit _ _ _ _ _ _ |- _ =>
      by destruct (target_visit_det _ _ _ _ _ _ _ _ Hv H) as ([= ->] & -> & ->)
    end.
Qed.

(** The body of the loop of [unbind] is one visit. *)
Lemma unbind_entry_target_visit (x : string) (ouch : bool) (w : World) :
  is_Some (target_mounts b !! x) →
  ∃ (r : Res bool) (m : list string) (evs : list Event),
    target_visit kill (mount_target normpath b x) w r m evs ∧
    unbind_entry normpath b x ouch w
    = (match r with Ok f => Ok (ouch || f) | Raise e => Raise e end,
       step_world w m evs).
Proof.
  intros [tm Htm]. unfold mount_target, unbind_entry, target_mounts_get.
  rewrite Htm, bind_ret_l. simpl default.
  generalize (normpath (chroot_path b +:+ tm)). intros t. cbv zeta.
  unfold os_path_exists, ismount. rewrite bind_gets.
  case_bool_decide as Hex; cbn [negb].
  2:{ rewrite bind_log. exists (Ok false), (mounted w), [absent_notice t].
      rewrite orb_false_r. split; [|done].
      apply tv_absent. by apply eq_None_not_Some. }
  rewrite bind_gets.
  case_bool_decide as Hmt; cbn [negb].
  2:{ rewrite bind_log. exists (Ok false), (mounted w), [not_mounted_notice t].
      rewrite orb_false_r. split; [by apply tv_not_mounted | done]. }
  rewrite try_except_eq, bind_eq, cmd_None_eq.
  destruct (oracle w (trace w) (Cmd ["umount"; t])) eqn:Ho1.
  { rewrite call_effect_umount. unfold ret. cbn [fst snd].
    rewrite with_event_step, step_world_step. cbn [mounted step_world app].
    exists (Ok false), (remove_first t (mounted w)), [umount_call t true].
    rewrite orb_false_r. split; [by apply tv_unmounted | done]. }
  cbn [is_CatalystError cmd_error].
  rewrite !bind_log, bind_eq, kill_chroot_pids_eq.
  rewrite !with_event_step, !step_world_step. cbn [mounted step_world app].
  wsimpl.
  assert (Htr : (trace w
                 ++ [EvCall (Cmd ["umount"; t]) false;
                     EvLog Warning "First attempt to unmount failed: %s" [t];
                     EvLog Warning
                       "Killing any pids still running in the chroot" []])
                ++ [checking_info]
                = trace w ++ escalation_head t)
    by (by rewrite <- app_assoc).
  rewrite Htr. clear Htr.
  case_bool_decide as Hkill.
  - destruct (oracle w (trace w ++ escalation_head t) (Cmd [kill])) eqn:Hok.
    + rewrite try_except_eq, bind_eq, cmd_None_eq. wsimpl.
      assert (Hran : kill_script_ran kill t w true).
      { unfold kill_script_ran. by rewrite bool_decide_eq_true_2. }
      match goal with |- context [oracle w ?tr (Cmd ["umount"; t])] =>
        pose proof (tv_retried kill t w true _ Hex Hmt Ho1 Hran
                      (eq_refl (oracle w tr (Cmd ["umount"; t])))) as Hv;
        destruct (oracle w tr (Cmd ["umount"; t])) eqn:Ho2 end.
      * rewrite call_effect_umount. unfold ret. cbn [fst snd].
        rewrite !with_event_step, !step_world_step. cbn [mounted step_world app].
        eexists _, _, _. split; [exact Hv|].
        cbn [negb]. by rewrite orb_false_r.
      * cbn [is_CatalystError cmd_error]. rewrite bind_log. unfold ret.
        cbn [fst snd].
        rewrite !with_event_step, !step_world_step. cbn [mounted step_world app].
        eexists _, _, _. split; [exact Hv|].
        cbn [negb]. by rewrite orb_true_r.
    + cbn [fst snd].
      exists (Raise (cmd_error [kill])), (mounted w), (abort_block kill t).
      split; [by apply tv_aborted | done].
  - rewrite try_except_eq, bind_eq, cmd_None_eq. wsimpl.
    assert (Hran : kill_script_ran kill t w false).
    { unfold kill_script_ran. by rewrite bool_decide_eq_false_2. }
    match goal with |- context [oracle w ?tr (Cmd ["umount"; t])] =>
      pose proof (tv_retried kill t w false _ Hex Hmt Ho1 Hran
                    (eq_refl (oracle w tr (Cmd ["umount"; t])))) as Hv;
      destruct (oracle w tr (Cmd ["umount"; t])) eqn:Ho2 end.
    + rewrite call_effect_umount. unfold ret. cbn [fst snd].
      rewrite !with_event_step, !step_world_step. cbn [mounted step_world app].
      eexists _, _, _. split; [exact Hv|].
      cbn [negb]. by rewrite orb_false_r.
    + cbn [is_CatalystError cmd_error]. rewrite bind_log. unfold ret.
      cbn [fst snd].
      rewrite !with_event_step, !step_world_step. cbn [mounted step_world app].
      eexists _, _, _. split; [exact Hv|].
      cbn [negb]. by rewrite orb_true_r.
Qed.

(** The loop of [unbind] is the visits of its targets, in the order of the
    list. *)
Lemma unbind_loop_visits (l : list string) :
  ∀ (ouch : bool) (w : World),
    Forall (λ x, is_Some (target_mounts b !! x)) l →
    ∃ (r : Res bool) (w' : World),
      unbind_visits kill (map (mount_target normpath b) l) w r w' ∧
      for_fold l (unbind_entry normpath b) ouch w
      = (match r with Ok f => Ok (ouch || f) | Raise e => Raise e end, w').
Proof.
  induction l as [|x l IH]; intros ouch w Hres.
  - exists (Ok false), w. split; [constructor|].
    cbn [for_fold]. unfold ret. by rewrite orb_false_r.
  - apply Forall_cons in Hres as [Hx Hres].
    destruct (unbind_entry_target_visit x ouch w Hx) as (r & m & evs & Hv & Heq).
    cbn [for_fold map]. rewrite bind_eq, Heq.
    destruct r as [failed|e].
    + destruct (IH (ouch || failed) (step_world w m evs) Hres)
        as (r' & w' & Hrest & ->).
      exists (match r' with
              | Ok f => Ok (failed || f)
              | Raise e => Raise e
              end), w'.
      split; [by eapply uvs_visit|].
      destruct r' as [f|e]; [|done]. by rewrite orb_assoc.
    + exists (Raise e), (step_world w m evs). split; [|done].
      by apply uvs_stop.
Qed.

(** Visits that only skip. *)
Lemma unbind_visits_skips (ts : list string) (w : World) (r : Res bool)
    (w' : World) :
  unbind_visits kill ts w r w' →
  Forall (not_a_mount_point w) ts →
  r = Ok false ∧ w' = step_world w (mounted w) (map (skip_notice w) ts).
Proof.
  induction 1 as [w|t ts w failed m evs r w' Hv Hrest IH|t ts w e m evs Hv];
    intros Hts.
  - by rewrite step_world_id.
  - apply Forall_cons in Hts as [Ht Hts].
    assert (failed = false ∧ m = mounted w ∧ evs = [skip_notice w t])
      as (-> & -> & ->).
    { unfold skip_notice. inversion Hv; subst.
      - match goal with H : fs w !! t = None |- _ => by rewrite H end.
      - match goal with H : is_Some (fs w !! t) |- _ =>
          by destruct H as [n ->] end.
      - by destruct Ht as [Ht|Ht];
          [match goal with H : is_Some (fs w !! t) |- _ =>
             rewrite Ht in H; destruct H end|].
      - by destruct Ht as [Ht|Ht];
          [match goal with H : is_Some (fs w !! t) |- _ =>
             rewrite Ht in H; destruct H end|]. }
    destruct IH as [-> ->]; [done|].
    split; [done|]. by rewrite step_world_step.
  - apply Forall_cons in Hts as [Ht _]. inversion Hv; subst.
    by destruct Ht as [Ht|Ht];
      [match goal with H : is_Some (fs w !! t) |- _ =>
         rewrite Ht in H; destruct H end|].
Qed.

(** Visits in which every unmount succeeds at once. *)
Lemma unbind_visits_clean (ts : list string) (w : World) (r : Res bool)
    (w' : World) :
  unbind_visits kill ts w r w' →
  NoDup ts →
  (∀ tr t, oracle w tr (Cmd ["umount"; t]) = true) →
  r = Ok false ∧
  w' = step_world w (unmount_each w ts) (map (clean_visit_event w) ts).
Proof.
  induction 1 as [w|t ts w failed m evs r w' Hv Hrest IH|t ts w e m evs Hv];
    intros Hnd Hor.
  - unfold unmount_each. cbn. by rewrite step_world_id.
  - apply NoDup_cons in Hnd as [Hnotin Hnd].
    assert (Hstep : failed = false ∧ evs = [clean_visit_event w t] ∧
                    unmount_each w (t :: ts)
                    = unmount_each (step_world w m evs) ts ∧
                    ∀ u, u ∈ ts →
                         clean_visit_event (step_world w m evs) u
                         = clean_visit_event w u).
    { unfold clean_visit_event, unmount_each. cbn [fs mounted step_world].
      inversion Hv; subst.
      - match goal with H : fs w !! t = None |- _ => rename H into Hf end.
        rewrite Hf, filter_cons_False by (rewrite Hf; by intros []).
        done.
      - match goal with H : is_Some (fs w !! t) |- _ => rename H into Hf end.
        rewrite filter_cons_True by done. cbn [foldl].
        rewrite remove_first_notin by done.
        destruct Hf as [n ->]. by rewrite bool_decide_eq_false_2.
      - match goal with H : is_Some (fs w !! t) |- _ => rename H into Hf end.
        rewrite filter_cons_True by done. cbn [foldl].
        split_and!; [done | | done |].
        + destruct Hf as [n ->]. by rewrite bool_decide_eq_true_2.
        + intros u Hu. destruct (fs w !! u); [|done].
          assert (u ≠ t) by (by intros ->).
          rewrite (bool_decide_ext (u ∈ remove_first t (mounted w))
                     (u ∈ mounted w));
            [done | by apply elem_of_remove_first_ne].
      - by rewrite Hor in *. }
    destruct Hstep as (-> & -> & Hm & Hev).
    destruct IH as [-> ->]; [done | done |].
    split; [done|]. rewrite step_world_step, Hm. cbn [map app].
    f_equal. f_equal. apply map_ext_in. intros u Hu.
    apply Hev. by apply list_elem_of_In.
  - inversion Hv; subst. by rewrite Hor in *.
Qed.

(** C2 (as amended).  [unbind] visits the mount targets one after the other
    in the reverse of the order of [self.mounts], each in the state the
    visit before it left.  A target that does not exist, or is no mount
    point when its turn comes, is passed over with a notice and no error; a
    target that exists and is mounted gets the unmount command.  The visits
    fix the outcome of [unbind].  All targets are visited unless the kill
    script fails during an escalation: then its error leaves [unbind] and the
    targets after that one are not visited.  When no target is a mount point
    [unbind] returns with one notice per target; when the targets are
    distinct and every unmount succeeds it returns with one event per target
    -- a notice, or the unmount command for an existing mounted target -- in
    reverse order, and each existing target has lost one mount. *)
Theorem unbind_reverse_order (w : World) :
  mounts_resolved b →
  let targets := map (mount_target normpath b) (mounts b) in
  (∃ (r : Res bool) (w' : World),
     unbind_visits kill (rev targets) w r w' ∧
     unbind normpath b w = (unbind_verdict r, w') ∧
     ∀ r0 w0, unbind_visits kill (rev targets) w r0 w0 → r0 = r ∧ w0 = w') ∧
  (Forall (not_a_mount_point w) targets →
   unbind normpath b w
   = (Ok tt, step_world w (mounted w) (map (skip_notice w) (rev targets)))) ∧
  (NoDup targets →
   (∀ tr t, oracle w tr (Cmd ["umount"; t]) = true) →
   unbind normpath b w
   = (Ok tt,
      step_world w (unmount_each w (rev targets))
        (map (clean_visit_event w) (rev targets)))).
Proof.
  intros Hres targets.
  destruct (unbind_loop_visits (rev (mounts b)) false w) as (r & w' & Hv & Heq);
    [by apply Forall_rev|].
  rewrite map_rev in Hv. fold targets in Hv.
  assert (Hun : unbind normpath b w = (unbind_verdict r, w')).
  { unfold unbind. rewrite bind_eq, Heq. by destruct r as [[]|e]. }
  split_and!.
  - exists r, w'. split_and!; [done | done |].
    intros r0 w0 Hv0. by eapply unbind_visits_det.
  - intros Hno. apply Forall_rev in Hno.
    destruct (unbind_visits_skips _ _ _ _ Hv Hno) as [-> ->]. exact Hun.
  - intros Hnd Hor. rewrite (Permutation_rev targets) in Hnd.
    destruct (unbind_visits_clean _ _ _ _ Hv Hnd Hor) as [-> ->]. exact Hun.
Qed.

End UnbindOrder.

(** C4 (as amended).  When the kill script cannot fail, [unbind] visits
    every target.  A visit whose first unmount fails logs two warnings, runs
    [kill_chroot_pids] and retries the unmount exactly once; when the retry
    fails too it logs a warning that names the target, and the loop goes on
    with the remaining targets.  After the loop [unbind] raises one
    [CatalystError] with a fixed message if some retry failed, and returns
    normally otherwise. *)
Theorem unbind_escalation (normpath : string → string) (b : Builder)
    (w : World) :
  mounts_resolved b →
  (∀ tr, oracle w tr (Cmd [killcmd normpath b]) = true) →
  let targets := map (mount_target normpath b) (mounts b) in
  ∃ (outs : list bool) (blocks : list (list Event)) (m : list string),
    Forall3 (visit_block (killcmd normpath b) w) (rev targets) outs blocks ∧
    unbind normpath b w
    = (if any_failed outs then Raise umount_error else Ok tt,
       step_world w m (concat blocks)) ∧
    Forall3 (λ t failed evs,
               if failed : bool then couldnt_umount_warning t ∈ evs
               else couldnt_umount_warning t ∉ evs)
            (rev targets) outs blocks.
Proof.
  intros Hres Hkill targets.
  destruct (unbind_spec normpath b w Hres) as (r & evs & m & Heq & _ & Htr).
  fold targets in Htr.
  destruct Htr as [outs blocks HF|visited t rest outs blocks tr Hts HF Ha Hb Hc Hd].
  2:{ by rewrite Hkill in Hd. }
  exists outs, blocks, m. split_and!; [done | done |].
  clear Heq. induction HF as [|t failed evs ts outs blocks Hv HF IH];
    constructor; [|done].
  destruct Hv as [H|H|f e H1 H2 H3].
  - unfold couldnt_umount_warning, absent_notice. not_in_events.
  - unfold couldnt_umount_warning, not_mounted_notice. not_in_events.
  - destruct H3 as [|[]|[]];
      unfold couldnt_umount_warning, umount_call, escalation_events;
      cbn [app]; first [not_in_events | in_events].
Qed.


(** ** The mount safety check *)

Lemma for_each_app {A} (l1 l2 : list A) (body : A → M unit) (w : World) :
  for_each (l1 ++ l2) body w
  = bind_ (for_each l1 body) (λ _, for_each l2 body) w.
Proof.
  revert w. induction l1 as [|x l1 IH]; intros w; simpl; [done|].
  rewrite !bind_eq. destruct (body x w) as [[[]|e] w1]; [|done].
  by rewrite IH, bind_eq.
Qed.

Section Safety.

Variable normpath : string → string.
Variable b : Builder.

(** [unbind] raises nothing but [CatalystError] when the mounts resolve. *)
Lemma unbind_raises_CatalystError (w : World) (e : exn) :
  mounts_resolved b →
  (unbind normpath b w).1 = Raise e → is_CatalystError e = true.
Proof.
  intros Hres.
  destruct (unbind_spec normpath b w Hres) as (r & evs & m & Heq & _ & Htr).
  rewrite Heq. cbn [fst].
  destruct Htr as [outs blocks HF|visited t rest outs blocks tr Hts HF Ha Hb Hc Hd].
  - destruct (any_failed outs); [by intros [= <-] | done].
  - by intros [= <-].
Qed.

Lemma mount_safety_check_entry_skip (x : string) (w : World) :
  is_Some (target_mounts b !! x) →
  not_a_mount_point w (mount_target normpath b x) →
  mount_safety_check_entry normpath b x w = (Ok tt, w).
Proof.
  intros [tm Htm]. unfold mount_target, mount_safety_check_entry,
    target_mounts_get. rewrite Htm, bind_ret_l. simpl default.
  generalize (normpath (chroot_path b +:+ tm)). intros t Hno. cbv zeta.
  unfold os_path_exists, ismount. rewrite bind_gets.
  case_bool_decide as Hex; cbn [negb]; [|done].
  rewrite bind_gets. case_bool_decide as Hmt; [|done].
  destruct Hno as [Hno|Hno]; [|done]. rewrite Hno in Hex. by destruct Hex.
Qed.

Lemma mount_safety_check_entry_mounted (x : string) (w : World) :
  mounts_resolved b →
  is_Some (target_mounts b !! x) →
  let t := mount_target normpath b x in
  is_Some (fs w !! t) → t ∈ mounted w →
  let after := unbind normpath b (with_event (still_mounted_warning t) w) in
  mount_safety_check_entry normpath b x w =
  match after.1 with
  | Ok _ =>
      if bool_decide (t ∈ mounted after.2)
      then (Raise (unable_to_unbind t), after.2)
      else (Ok tt, with_event (EvLog Notice "Auto-unbind successful..." [])
                     after.2)
  | Raise _ => (Raise (unable_to_unbind t), after.2)
  end.
Proof.
  intros Hres [tm Htm]. unfold mount_target, mount_safety_check_entry,
    target_mounts_get. rewrite Htm, bind_ret_l. simpl default.
  generalize (normpath (chroot_path b +:+ tm)). intros t. cbv zeta.
  intros Hex Hmt.
  unfold os_path_exists, ismount. rewrite bind_gets.
  rewrite bool_decide_eq_true_2 by done. cbn [negb].
  rewrite bind_gets, bool_decide_eq_true_2 by done.
  rewrite try_except_eq, bind_log, bind_eq. fold (still_mounted_warning t).
  pose proof (unbind_raises_CatalystError
                (with_event (still_mounted_warning t) w)) as Hcat.
  destruct (unbind normpath b (with_event (still_mounted_warning t) w))
    as [[[]|e] w2]; cbn [fst snd] in *.
  - rewrite bind_gets. case_bool_decide; [|done].
    unfold raise. cbn [is_CatalystError]. done.
  - by rewrite (Hcat e Hres eq_refl).
Qed.

Lemma mount_safety_check_loop_skip (l : list string) (w : World) :
  Forall (λ x, is_Some (target_mounts b !! x)) l →
  Forall (not_a_mount_point w) (map (mount_target normpath b) l) →
  for_each l (mount_safety_check_entry normpath b) w = (Ok tt, w).
Proof.
  revert w. induction l as [|x l IH]; intros w Hl Hno; [done|].
  apply Forall_cons in Hl as [Hx Hl]. simpl in Hno.
  apply Forall_cons in Hno as [Hnx Hno].
  simpl. rewrite bind_eq, mount_safety_check_entry_skip by done.
  by apply IH.
Qed.

Lemma mount_safety_check_loop (w : World) :
  is_Some (fs w !! chroot_path b) →
  mount_safety_check normpath b w
  = for_each (mounts b) (mount_safety_check_entry normpath b) w.
Proof.
  intros Hroot. unfold mount_safety_check, os_path_exists.
  rewrite bind_gets. by rewrite bool_decide_eq_true_2 by done.
Qed.

(** C3.  For a working root that exists, [mount_safety_check] scans the
    targets in the order of [self.mounts].  When no target is a mount point
    it returns normally and leaves the world as it is.  At the first target
    that exists and is a mount point it logs a warning and runs [unbind]
    once; if [unbind] raises, or the target is still a mount point
    afterwards, it raises [CatalystError] from the world [unbind] left;
    otherwise it goes on with the targets that remain. *)
Theorem mount_safety_check_spec (w : World) :
  mounts_resolved b →
  is_Some (fs w !! chroot_path b) →
  (Forall (not_a_mount_point w) (map (mount_target normpath b) (mounts b)) →
   mount_safety_check normpath b w = (Ok tt, w)) ∧
  (∀ pre x post,
     mounts b = pre ++ x :: post →
     Forall (not_a_mount_point w) (map (mount_target normpath b) pre) →
     let t := mount_target normpath b x in
     is_Some (fs w !! t) → t ∈ mounted w →
     let after := unbind normpath b (with_event (still_mounted_warning t) w) in
     mount_safety_check normpath b w =
     match after.1 with
     | Ok _ =>
         if bool_decide (t ∈ mounted after.2)
         then (Raise (unable_to_unbind t), after.2)
         else for_each post (mount_safety_check_entry normpath b)
                (with_event (EvLog Notice "Auto-unbind successful..." [])
                   after.2)
     | Raise _ => (Raise (unable_to_unbind t), after.2)
     end).
Proof.
  intros Hres Hroot.
  pose proof mount_safety_check_loop_skip as Hskip.
  pose proof (mount_safety_check_loop w Hroot) as Hhead.
  split.
  - intros Hno. rewrite Hhead. by apply Hskip.
  - intros pre x post Hm Hno t Hex Hmt after.
    rewrite Hhead, Hm, for_each_app, bind_eq.
    unfold mounts_resolved in Hres. pose proof Hres as Hres'.
    rewrite Hm in Hres'.
    apply Forall_app in Hres' as [Hpre Hxpost].
    apply Forall_cons in Hxpost as [Hx Hpost].
    rewrite Hskip by done. simpl for_each. rewrite bind_eq.
    rewrite mount_safety_check_entry_mounted by done.
    fold t. fold after. destruct after.1 as [[]|e]; [|done].
    by case_bool_decide.
Qed.

End Safety.


(** ** bind and its rollback *)

Lemma mount_count_notin (t : string) (l : list string) :
  t ∉ l → mount_count t l = 0.
Proof.
  induction l as [|x l IH]; simpl; [done|]. intros Hn.
  apply not_elem_of_cons in Hn as [Hne Hn]. rewrite IH by done.
  destruct (String.eqb_spec t x); [done | lia].
Qed.

Lemma mount_count_remove_first_eq (t : string) (l : list string) :
  t ∈ l → S (mount_count t (remove_first t l)) = mount_count t l.
Proof.
  induction l as [|x l IH]; simpl; intros Hin; [by apply elem_of_nil in Hin|].
  destruct (String.eqb_spec t x) as [->|Hne]; [lia|].
  simpl. destruct (String.eqb_spec t x); [done|].
  apply elem_of_cons in Hin as [?|Hin]; [done|]. by rewrite <- IH.
Qed.

Lemma mount_count_remove_first_ne (v t : string) (l : list string) :
  v ≠ t → mount_count v (remove_first t l) = mount_count v l.
Proof.
  intros Hne. induction l as [|x l IH]; simpl; [done|].
  destruct (String.eqb_spec t x) as [->|Htx].
  - destruct (String.eqb_spec v x); [done | lia].
  - simpl. by rewrite IH.
Qed.

Lemma mount_count_app (t : string) (l1 l2 : list string) :
  mount_count t (l1 ++ l2) = mount_count t l1 + mount_count t l2.
Proof. induction l1 as [|x l1 IH]; simpl; [done | rewrite IH; lia]. Qed.

Lemma mount_count_rev (t : string) (l : list string) :
  mount_count t (rev l) = mount_count t l.
Proof.
  induction l as [|x l IH]; simpl; [done|].
  rewrite mount_count_app, IH. simpl. lia.
Qed.

Lemma cmd_Some_eq (argv : list string) (f : M unit) (w : World) :
  cmd argv (Some f) w =
  if oracle w (trace w) (Cmd argv)
  then (Ok tt, with_event (EvCall (Cmd argv) true) (call_effect (Cmd argv) w))
  else match f (with_event (EvCall (Cmd argv) false) w) with
       | (Ok _, w') => (Raise (cmd_error argv), w')
       | (Raise e, w') => (Raise e, w')
       end.
Proof.
  unfold cmd, bind_, call. destruct (oracle w (trace w) (Cmd argv)); [done|].
  by destruct (f _) as [[[]|e] w'].
Qed.

Section Bind.

Variable normpath : string → string.
Variable b : Builder.

Local Abbreviation target := (mount_target normpath b).
Local Abbreviation resolved := (λ x : string, is_Some (target_mounts b !! x)).

(** A loop of [unbind] that ends with the flag unset started with it
    unset. *)
Lemma unbind_loop_flag (l : list string) (ouch o : bool) (w w' : World) :
  Forall resolved l →
  for_fold l (unbind_entry normpath b) ouch w = (Ok o, w') →
  o = false → ouch = false.
Proof.
  intros Hl Heq ->.
  destruct (unbind_loop_trace normpath b w l ouch w Hl)
    as (r & evs & m & Heq' & _); [done..|].
  rewrite Heq in Heq'. destruct r as [o|e]; [|done].
  injection Heq' as Ho _. symmetry in Ho. by apply orb_false_iff in Ho as [-> _].
Qed.

(** What a loop of [unbind] without a failed unmount does to the mount
    table: every visit of an existing target takes one mount off it. *)
Lemma unbind_loop_count (l : list string) :
  ∀ (ouch : bool) (w w' : World),
    Forall resolved l →
    for_fold l (unbind_entry normpath b) ouch w = (Ok false, w') →
    ∀ v, mount_count v (mounted w')
         = if bool_decide (is_Some (fs w !! v))
           then mount_count v (mounted w) - mount_count v (map target l)
           else mount_count v (mounted w).
Proof.
  induction l as [|x l IH]; intros ouch w w' Hl Heq v.
  - injection Heq as _ <-. simpl. case_bool_decide; lia.
  - apply Forall_cons in Hl as [Hx Hl].
    simpl in Heq. rewrite bind_eq in Heq.
    pose proof (unbind_entry_visit normpath b x ouch w Hx) as Hv.
    destruct (unbind_entry normpath b x ouch w) as [r1 w1].
    cbn [fst snd] in Hv. simpl map. cbn [mount_count].
    destruct Hv as [Hab|Hex Hnm|failed evs Hex Hmt Hblk|tr Hex Hmt Hk Ho].
    + rewrite (IH _ _ _ Hl Heq v). cbn [fs mounted step_world].
      case_bool_decide as Hv; [|done].
      destruct (String.eqb_spec v (target x)) as [->|Hne]; [|done].
      rewrite Hab in Hv. by destruct Hv.
    + rewrite (IH _ _ _ Hl Heq v). cbn [fs mounted step_world].
      case_bool_decide as Hv; [|done].
      destruct (String.eqb_spec v (target x)) as [->|Hne]; [|done].
      rewrite (mount_count_notin _ _ Hnm). lia.
    + pose proof (unbind_loop_flag _ _ _ _ _ Hl Heq eq_refl) as Hflag.
      apply orb_false_iff in Hflag as [_ ->].
      rewrite (IH _ _ _ Hl Heq v). cbn [fs mounted step_world].
      case_bool_decide as Hv.
      * destruct (String.eqb_spec v (target x)) as [->|Hne].
        -- pose proof (mount_count_remove_first_eq _ _ Hmt). lia.
        -- by rewrite mount_count_remove_first_ne.
      * destruct (String.eqb_spec v (target x)) as [->|Hne]; [done|].
        by rewrite mount_count_remove_first_ne.
    + done.
Qed.

(** After an [unbind] that returned normally, no path has more mounts than
    before, and an existing path has lost one for each of its occurrences
    among the targets. *)
Lemma unbind_ok_count (w : World) :
  mounts_resolved b →
  (unbind normpath b w).1 = Ok tt →
  ∀ v, mount_count v (mounted (unbind normpath b w).2)
       = if bool_decide (is_Some (fs w !! v))
         then mount_count v (mounted w) - mount_count v (map target (mounts b))
         else mount_count v (mounted w).
Proof.
  intros Hres Hok v. unfold unbind in *. rewrite bind_eq in *.
  destruct (for_fold (rev (mounts b)) (unbind_entry normpath b) false w)
    as [[o|e] w'] eqn:Heq; [|done].
  destruct o; [done|]. cbn [snd ret].
  rewrite (unbind_loop_count _ _ _ _ (Forall_rev Hres) Heq v).
  by rewrite map_rev, mount_count_rev.
Qed.

Lemma ensure_dirs_eq (p : string) (w : World) :
  ∃ f, ensure_dirs p w = (Ok tt, with_fs f w) ∧ is_Some (f !! p) ∧
       ∀ q, is_Some (fs w !! q) → is_Some (f !! q).
Proof.
  unfold ensure_dirs, modify. destruct (fs w !! p) eqn:Hp.
  - exists (fs w). split_and!; [by destruct w | by rewrite Hp | done].
  - exists (<[p:=Dir]> (fs w)). split_and!; [done | |].
    + by rewrite lookup_insert_eq.
    + intros q Hq. apply lookup_insert_is_Some'. by right.
Qed.

Lemma bind_command_effect (sys src t : string) (argv : list string)
    (w : World) :
  bind_command b sys src t = Some argv →
  call_effect (Cmd argv) w = with_mounted (t :: mounted w) w.
Proof.
  unfold bind_command. intros H.
  repeat match type of H with
         | (if ?c then _ else _) = _ => destruct c
         | match ?o with Some _ => _ | None => _ end = _ => destruct o
         end; first [discriminate H | injection H as <-; reflexivity].
Qed.

(** [bind_prepare] makes directories and nothing else; the command it
    builds mounts on the target of the entry. *)
Lemma bind_prepare_spec (x : string) (w : World) (c : option (list string))
    (w2 : World) :
  bind_prepare normpath b x w = (Ok c, w2) →
  ∃ f, w2 = with_fs f w ∧
       (∀ q, is_Some (fs w !! q) → is_Some (f !! q)) ∧
       is_Some (f !! target x) ∧
       ∀ argv w', c = Some argv →
                  call_effect (Cmd argv) w'
                  = with_mounted (target x :: mounted w') w'.
Proof.
  unfold bind_prepare, mount_target, target_mounts_get, mountmap_get.
  destruct (target_mounts b !! x) as [tm|]; [|done]. rewrite bind_ret_l.
  simpl default. generalize (normpath (chroot_path b +:+ tm)). intros t.
  cbv zeta. rewrite bind_eq.
  destruct (ensure_dirs_eq t w) as (f1 & -> & Ht & Hmono1).
  destruct (mountmap b !! x) as [src|]; [|done]. rewrite bind_ret_l.
  unfold os_path_exists. rewrite bind_gets. rewrite bind_eq.
  set (cond := negb _ && negb _).
  assert (∃ f, (if cond then ensure_dirs src else ret tt) (with_fs f1 w)
               = (Ok tt, with_fs f w) ∧
               ∀ q, is_Some (f1 !! q) → is_Some (f !! q))
    as (f2 & -> & Hmono2).
  { destruct cond.
    - destruct (ensure_dirs_eq src (with_fs f1 w)) as (f & Hf & _ & Hm).
      exists f. split; [by rewrite Hf | done].
    - exists f1. done. }
  rewrite bind_gets. unfold ret. intros [= <- <-].
  exists f2. split_and!; [done | by auto | by auto |].
  intros argv w' Hargv. by eapply bind_command_effect.
Qed.

(** A successful [bind_entry] adds at most one mount, on an existing
    target, and removes no file. *)
Lemma bind_entry_ok (x : string) (w w1 : World) :
  bind_entry normpath b x w = (Ok tt, w1) →
  (∀ q, is_Some (fs w !! q) → is_Some (fs w1 !! q)) ∧
  (mounted w1 = mounted w ∨
   (mounted w1 = target x :: mounted w ∧ is_Some (fs w1 !! target x))).
Proof.
  unfold bind_entry. rewrite bind_eq.
  destruct (bind_prepare normpath b x w) as [[c|e] w2] eqn:Hp; [|done].
  apply bind_prepare_spec in Hp as (f & -> & Hmono & Ht & Heff).
  destruct c as [argv|].
  - rewrite cmd_Some_eq.
    destruct (oracle _ _ _).
    + rewrite (Heff argv _ eq_refl). intros [= <-]. cbn. split; [done|].
      by right.
    + by destruct (unbind _ _ _) as [[[]|e] w'].
  - intros [= <-]. cbn. split; [done | by left].
Qed.

Lemma bind_loop_ok (l : list string) :
  ∀ (w w1 : World),
    for_each l (bind_entry normpath b) w = (Ok tt, w1) →
    (∀ q, is_Some (fs w !! q) → is_Some (fs w1 !! q)) ∧
    ∀ v, (mount_count v (mounted w1)
          ≤ mount_count v (mounted w) + mount_count v (map target l))%nat ∧
         ((mount_count v (mounted w) < mount_count v (mounted w1))%nat →
          is_Some (fs w1 !! v)).
Proof.
  induction l as [|x l IH]; intros w w1 Heq.
  - injection Heq as <-. split; [done|]. intros v. simpl. lia.
  - simpl in Heq. rewrite bind_eq in Heq.
    destruct (bind_entry normpath b x w) as [[[]|e] w0] eqn:Hx; [|done].
    apply bind_entry_ok in Hx as [Hmono0 Hm0].
    destruct (IH _ _ Heq) as [Hmono Hcount].
    split; [by auto|]. intros v. destruct (Hcount v) as [Hle Hex].
    simpl map. cbn [mount_count].
    destruct Hm0 as [Hm0|[Hm0 Ht]]; rewrite Hm0 in *.
    + split; [lia | by auto].
    + cbn [mount_count] in *.
      destruct (String.eqb_spec v (target x)) as [Hv|Hne].
      * split; [lia|]. intros _. rewrite Hv. by apply Hmono.
      * split; [lia|]. intros Hlt. apply Hex. lia.
Qed.

(** C5 (as amended).  When the mount command of an entry exits non-zero
    after the entries before it were bound, [unbind] runs, once, before
    anything is raised.  If [unbind] returns normally the error of the mount
    command is raised and no path carries more mounts than before [bind]; if
    [unbind] raises, its error is the one that leaves [bind]. *)
Theorem bind_rollback (w : World) (pre : list string) (x : string)
    (post : list string) (w1 w2 : World) (argv : list string) :
  mounts_resolved b →
  mounts b = pre ++ x :: post →
  for_each pre (bind_entry normpath b) w = (Ok tt, w1) →
  bind_prepare normpath b x w1 = (Ok (Some argv), w2) →
  oracle w2 (trace w2) (Cmd argv) = false →
  let rollback := unbind normpath b (with_event (EvCall (Cmd argv) false) w2) in
  bind normpath b w
  = (match rollback.1 with
     | Ok _ => Raise (cmd_error argv)
     | Raise e => Raise e
     end, rollback.2) ∧
  (rollback.1 = Ok tt →
   ∀ t, (mount_count t (mounted rollback.2) ≤ mount_count t (mounted w))%nat).
Proof.
  intros Hres Hm Hpre Hprep Hfail rollback. split.
  - unfold bind. rewrite Hm, for_each_app, bind_eq, Hpre.
    simpl for_each. rewrite bind_eq. unfold bind_entry at 1.
    rewrite bind_eq, Hprep, cmd_Some_eq, Hfail. fold rollback.
    by destruct rollback as [[[]|e] w'].
  - intros Hok t. subst rollback.
    rewrite (unbind_ok_count _ Hres Hok t). clear Hok.
    apply bind_prepare_spec in Hprep as (f & -> & Hmono & _ & _).
    destruct (bind_loop_ok _ _ _ Hpre) as [_ Hcount].
    destruct (Hcount t) as [Hle Hex].
    cbn [fs mounted with_event with_fs].
    assert (mount_count t (map target pre)
            ≤ mount_count t (map target (mounts b)))%nat as Hsub.
    { rewrite Hm, map_app, mount_count_app. lia. }
    case_bool_decide as Hin; [lia|].
    destruct (decide (mount_count t (mounted w) < mount_count t (mounted w1))%nat)
      as [Hlt|Hge]; [|lia].
    exfalso. apply Hin, Hmono. by apply Hex.
Qed.

End Bind.


(** ** What the methods leave alone *)

Section Keeps.

Context (R : World → World → Prop) `{!PreOrder R}.

Lemma keeps_ret {A} (a : A) : keeps R (ret a).
Proof. intros w. simpl. reflexivity. Qed.

Lemma keeps_raise {A} (e : exn) : keeps R (raise (A:=A) e).
Proof. intros w. simpl. reflexivity. Qed.

Lemma keeps_gets {A} (f : World → A) : keeps R (gets f).
Proof. intros w. simpl. reflexivity. Qed.

Lemma keeps_bind {A B} (m : M A) (k : A → M B) :
  keeps R m → (∀ a, keeps R (k a)) → keeps R (bind_ m k).
Proof.
  intros Hm Hk w. rewrite bind_eq. specialize (Hm w).
  destruct (m w) as [[a|e] w1]; simpl in *; [|done].
  etrans; [done | apply Hk].
Qed.

Lemma keeps_try_except {A} (m : M A) (handles : exn → bool) (h : exn → M A) :
  keeps R m → (∀ e, keeps R (h e)) → keeps R (try_except m handles h).
Proof.
  intros Hm Hh w. rewrite try_except_eq. specialize (Hm w).
  destruct (m w) as [[a|e] w1]; simpl in *; [done|].
  destruct (handles e); [|done]. etrans; [done | apply Hh].
Qed.

Lemma keeps_for_each {A} (l : list A) (body : A → M unit) :
  (∀ x, keeps R (body x)) → keeps R (for_each l body).
Proof.
  intros Hb. induction l as [|x l IH]; simpl.
  - apply keeps_ret.
  - apply keeps_bind; [apply Hb | done].
Qed.

Lemma keeps_for_fold {A S} (l : list A) (body : A → S → M S) (s : S) :
  (∀ x s', keeps R (body x s')) → keeps R (for_fold l body s).
Proof.
  intros Hb. revert s. induction l as [|x l IH]; intros s; simpl.
  - apply keeps_ret.
  - apply keeps_bind; [apply Hb | done].
Qed.

Lemma keeps_modify (f : World → World) :
  (∀ w, R w (f w)) → keeps R (modify f).
Proof. intros Hf w. apply Hf. Qed.

End Keeps.

Global Instance same_store_preorder : PreOrder same_store.
Proof.
  split.
  - by intros w.
  - intros w1 w2 w3 [H1 H2] [H3 H4]. split; congruence.
Qed.

Global Instance same_transfers_preorder : PreOrder same_transfers.
Proof.
  split.
  - by intros w.
  - intros w1 w2 w3 [H1 H2] [H3 H4]. split; congruence.
Qed.

Lemma transfers_app (tr1 tr2 : list Event) :
  transfers (tr1 ++ tr2) = transfers tr1 ++ transfers tr2.
Proof.
  induction tr1 as [|[l f a|[argv|s d m|bd tf] ok|p r] tr1 IH]; simpl;
    by rewrite ?IH.
Qed.

Lemma cleared_app (tr1 tr2 : list Event) :
  cleared (tr1 ++ tr2) = cleared tr1 ++ cleared tr2.
Proof.
  induction tr1 as [|[l f a|c ok|p r] tr1 IH]; simpl; by rewrite ?IH.
Qed.

(** Steps of the structural proofs: split the method along its binds,
    handlers, loops and case distinctions. *)
Ltac keeps_step :=
  first
    [ solve [apply keeps_ret; apply _]
    | solve [apply keeps_raise; apply _]
    | solve [apply keeps_gets; apply _]
    | apply keeps_bind; [apply _| |intros ?]
    | apply keeps_try_except; [apply _| |intros ?]
    | apply keeps_for_each; [apply _|intros ?]
    | apply keeps_for_fold; [apply _|intros ? ?]
    | match goal with
      | |- keeps _ (if ?c then _ else _) => destruct c
      | |- keeps _ (match ?o with Some _ => _ | None => _ end) => destruct o
      | |- keeps _ (match ?o with VStr _ => _ | VList _ => _ end) => destruct o
      end ].

Create HintDb keeps discriminated.

Lemma call_effect_points (c : Call) (w : World) :
  same_store w (call_effect c w).
Proof.
  destruct c as [[|prog args]|s d m|bd tf]; simpl; try done.
  - destruct (String.eqb prog "umount").
    + by destruct args as [|t [|]].
    + destruct (is_mount_prog prog); [|done]. by destruct (last args).
  - by destruct (fs w !! d).
Qed.

Lemma keeps_store_log lvl fmt args : keeps same_store (log lvl fmt args).
Proof. by intros w. Qed.

Lemma keeps_store_call c : keeps same_store (call c).
Proof.
  intros w. unfold call. simpl. destruct (oracle w (trace w) c); [|done].
  destruct (call_effect_points c w) as [H1 H2]. by split.
Qed.

Lemma keeps_store_cmd argv f :
  (∀ m, f = Some m → keeps same_store m) → keeps same_store (cmd argv f).
Proof.
  intros Hf. unfold cmd. apply keeps_bind; [apply _ | apply keeps_store_call |].
  intros ok. destruct ok; [apply keeps_ret; apply _|].
  destruct f as [m|]; [|apply keeps_raise; apply _].
  apply keeps_bind; [apply _ | by apply Hf | intros ?; apply keeps_raise; apply _].
Qed.

Lemma keeps_store_cmd_None argv : keeps same_store (cmd argv None).
Proof. by apply keeps_store_cmd. Qed.

Lemma keeps_store_ensure_dirs p : keeps same_store (ensure_dirs p).
Proof. intros w. unfold ensure_dirs, modify. simpl. by destruct (fs w !! p). Qed.

Lemma keeps_store_clear_dir p r : keeps same_store (clear_dir p r).
Proof. by intros w. Qed.

Lemma keeps_store_writefile p t : keeps same_store (writefile p t).
Proof. by intros w. Qed.

Lemma keeps_store_os_path_exists p : keeps same_store (os_path_exists p).
Proof. by intros w. Qed.

Lemma keeps_store_os_path_isdir p : keeps same_store (os_path_isdir p).
Proof. by intros w. Qed.

Lemma keeps_store_os_path_isfile p : keeps same_store (os_path_isfile p).
Proof. by intros w. Qed.

Lemma keeps_store_ismount p : keeps same_store (ismount p).
Proof. by intros w. Qed.

Lemma keeps_store_open_read p : keeps same_store (open_read p).
Proof.
  intros w. unfold open_read. rewrite bind_gets.
  by destruct (fs w !! p) as [[|t]|].
Qed.

Lemma keeps_store_readfile p : keeps same_store (readfile p).
Proof.
  intros w. unfold readfile. rewrite bind_gets.
  destruct (bool_decide (is_Some (fs w !! p))); [|done].
  rewrite bind_eq. pose proof (keeps_store_open_read p w) as Hread.
  by destruct (open_read p w) as [[t|e] w1].
Qed.

Lemma keeps_store_resume_is_enabled p : keeps same_store (resume_is_enabled p).
Proof. by intros w. Qed.

Lemma keeps_store_resume_get p : keeps same_store (resume_get p).
Proof. by intros w. Qed.

Global Hint Resolve keeps_store_log keeps_store_call keeps_store_cmd_None
  keeps_store_ensure_dirs keeps_store_clear_dir keeps_store_writefile
  keeps_store_os_path_exists keeps_store_os_path_isdir
  keeps_store_os_path_isfile keeps_store_ismount keeps_store_readfile
  keeps_store_open_read
  keeps_store_resume_is_enabled keeps_store_resume_get : keeps.

Ltac keeps_store :=
  repeat first [ solve [auto with keeps] | keeps_step ].

Section KeepsStore.

Variable normpath : string → string.
Variable b : Builder.

Lemma keeps_store_kill_chroot_pids :
  keeps same_store (kill_chroot_pids normpath b).
Proof. unfold kill_chroot_pids, setup_environment. keeps_store. Qed.

Lemma keeps_store_unbind : keeps same_store (unbind normpath b).
Proof.
  pose proof keeps_store_kill_chroot_pids.
  unfold unbind, unbind_entry, target_mounts_get. keeps_store.
Qed.

End KeepsStore.

Global Hint Resolve keeps_store_kill_chroot_pids keeps_store_unbind : keeps.


(** ** The driver *)

Section Run.

Variable normpath : string → string.
Variable b : Builder.
Variable methods : string → option (M unit).

(** One iteration of the loop of [_run]. *)
Lemma run_loop_cons (x : string) (rest : list string) (w : World) :
  _run_loop methods (x :: rest) w =
  match getattr_call methods x (with_event (running_notice x) w) with
  | (Ok _, w1) =>
      match _run_loop methods rest w1 with
      | (Ok res, w2) => (Ok (res.1, x :: res.2), w2)
      | (Raise e, w2) => (Raise e, w2)
      end
  | (Raise _, w1) => (Ok (true, [x]), with_event (exception_error x) w1)
  end.
Proof.
  cbn [_run_loop]. rewrite bind_log, bind_eq, try_except_eq, bind_eq.
  fold (running_notice x).
  destruct (getattr_call methods x (with_event (running_notice x) w))
    as [[[]|e] w1]; [|done].
  cbn [ret]. rewrite bind_eq.
  by destruct (_run_loop methods rest w1) as [[res|e] w2].
Qed.

(** The loop catches every exception: it always yields its flag, and the
    names it dispatched are an initial segment of the sequence, all of it
    when the flag is unset. *)
Lemma run_loop_dispatched (seq : list string) :
  ∀ w, ∃ (failure : bool) (dispatched : list string) (w' : World),
    _run_loop methods seq w = (Ok (failure, dispatched), w') ∧
    if failure then dispatched `prefix_of` seq else dispatched = seq.
Proof.
  induction seq as [|x rest IH]; intros w.
  - exists false, [], w. done.
  - rewrite run_loop_cons.
    destruct (getattr_call methods x (with_event (running_notice x) w))
      as [[[]|e] w1].
    + destruct (IH w1) as (failure & dispatched & w' & -> & Hd).
      exists failure, (x :: dispatched), w'. split; [done|].
      destruct failure; [by apply prefix_cons | by rewrite Hd].
    + exists true, [x], (with_event (exception_error x) w1). split; [done|].
      apply prefix_cons, prefix_nil.
Qed.

Lemma run_loop_fail_stop (pre : list string) (s : string) (post : list string) :
  ∀ (w0 w1 w2 : World) (e : exn),
    dispatch_all methods pre w0 = (Ok tt, w1) →
    getattr_call methods s (with_event (running_notice s) w1) = (Raise e, w2) →
    _run_loop methods (pre ++ s :: post) w0
    = (Ok (true, pre ++ [s]), with_event (exception_error s) w2).
Proof.
  induction pre as [|x pre IH]; intros w0 w1 w2 e Hpre Hs.
  - injection Hpre as <-. cbn [app]. by rewrite run_loop_cons, Hs.
  - cbn [app dispatch_all] in *. rewrite run_loop_cons.
    rewrite bind_modify, bind_eq in Hpre.
    destruct (getattr_call methods x (with_event (running_notice x) w0))
      as [[[]|e'] w'] ; [|done].
    by rewrite (IH _ _ _ _ Hpre Hs).
Qed.

(** C1.  When the action [s] of the action sequence raises, after the
    actions before it returned normally, the loop of [_run] stops: it has
    dispatched those actions and [s], and nothing of what follows [s].  [_run]
    then logs, runs [unbind], and reports the failure: it returns [False]
    when [unbind] returns, and lets the error of [unbind] through
    otherwise.  The resume store is, at the end, as the failing action left
    it: every point enabled then is still enabled. *)
Theorem run_fail_stop (w w0 w1 w2 : World) (pre : list string) (s : string)
    (post : list string) (e : exn) :
  _run_prelude normpath b w = (Ok false, w0) →
  action_sequence b = pre ++ s :: post →
  dispatch_all methods pre w0 = (Ok tt, w1) →
  getattr_call methods s (with_event (running_notice s) w1) = (Raise e, w2) →
  let cleanup :=
    unbind normpath b
      (with_event cleaning_up_notice (with_event (exception_error s) w2)) in
  _run normpath b methods w
  = (match cleanup.1 with
     | Ok _ => Ok (Some false)
     | Raise e' => Raise e'
     end, cleanup.2) ∧
  (_run_loop methods (action_sequence b) w0).1 = Ok (true, pre ++ [s]) ∧
  same_store w2 cleanup.2 ∧
  (∀ point, is_Some (points w2 !! point) →
            (resume_is_enabled point cleanup.2).1 = Ok true).
Proof.
  intros Hprelude Hseq Hpre Hs cleanup.
  pose proof (run_loop_fail_stop pre s post w0 w1 w2 e Hpre Hs) as Hloop.
  assert (Hstore : same_store w2 cleanup.2).
  { pose proof (keeps_store_unbind normpath b
       (with_event cleaning_up_notice (with_event (exception_error s) w2)))
      as [H1 H2]. by split. }
  split_and!.
  - unfold _run, _run_actions. rewrite bind_eq, Hprelude.
    rewrite bind_eq, Hseq, Hloop. cbn [fst]. rewrite bind_log, bind_eq.
    fold cleaning_up_notice. fold cleanup.
    by destruct cleanup as [[[]|e'] w'].
  - by rewrite Hseq, Hloop.
  - done.
  - intros point Hp. unfold resume_is_enabled, gets. cbn [fst].
    destruct Hstore as [-> _]. by rewrite bool_decide_eq_true_2.
Qed.

End Run.

(** C8.  The action sequence is a function of the options alone: the single
    action [remove_chroot] under [purgeonly]; otherwise the twelve fixed
    actions, then [capture] unless [fetch] is set, then [clear_autoresume]
    under [keepwork], else [remove_autoresume], followed by
    [remove_chroot] unless [seedcache] is set.  The loop of [_run]
    dispatches the actions in the order of that list: what it has
    dispatched is an initial segment of the list, and the whole list when no
    action raised. *)
Theorem action_sequence_fixed (opts : list string)
    (methods : string → option (M unit)) (w : World) :
  set_default_action_sequence opts =
  (if has_option "purgeonly" opts then ["remove_chroot"]
   else
     [ "unpack"; "unpack_snapshot"; "setup_confdir"; "portage_overlay";
       "base_dirs"; "bind"; "chroot_setup"; "setup_environment";
       "run_local"; "preclean"; "unbind"; "clean" ]
     ++ (if has_option "fetch" opts then [] else ["capture"])
     ++ (if has_option "keepwork" opts then ["clear_autoresume"]
         else if has_option "seedcache" opts then ["remove_autoresume"]
         else ["remove_autoresume"; "remove_chroot"])) ∧
  ∃ (failure : bool) (dispatched : list string) (w' : World),
    _run_loop methods (set_default_action_sequence opts) w
    = (Ok (failure, dispatched), w') ∧
    if failure then dispatched `prefix_of` set_default_action_sequence opts
    else dispatched = set_default_action_sequence opts.
Proof.
  split; [|apply run_loop_dispatched].
  unfold set_default_action_sequence, set_action_sequence,
    set_completion_action_sequences.
  by destruct (has_option "purgeonly" opts), (has_option "fetch" opts),
    (has_option "keepwork" opts), (has_option "seedcache" opts).
Qed.


(** ** Kernel builds and their resume points *)

Section Kernel.

Variable normpath : string → string.
Variable b : Builder.

Lemma keeps_store_open_write dir path text :
  keeps same_store (open_write dir path text).
Proof.
  intros w. unfold open_write. rewrite bind_gets.
  destruct (fs w !! path) as [[|t]|]; [done| |];
    rewrite bind_gets; by destruct (fs w !! dir) as [[|t']|].
Qed.

Lemma keeps_store_shutil_copy src dst : keeps same_store (shutil_copy src dst).
Proof.
  pose proof keeps_store_open_write.
  unfold shutil_copy, copy_destination. keeps_store.
Qed.

Lemma keeps_store_copy_kernel_config kname :
  keeps same_store (_copy_kernel_config normpath b kname).
Proof.
  pose proof keeps_store_shutil_copy.
  unfold _copy_kernel_config, as_path. keeps_store.
Qed.

Lemma keeps_store_copy_initramfs_overlay kname :
  keeps same_store (_copy_initramfs_overlay b kname).
Proof. unfold _copy_initramfs_overlay, as_path. keeps_store. Qed.

Lemma keeps_store_build_kernel_work kname :
  keeps same_store (_build_kernel_work normpath b kname).
Proof.
  pose proof keeps_store_copy_kernel_config.
  pose proof keeps_store_copy_initramfs_overlay.
  unfold _build_kernel_work. keeps_store.
Qed.

Lemma keeps_store_build_kernel kname :
  keeps same_store (_build_kernel normpath b kname).
Proof.
  pose proof keeps_store_build_kernel_work.
  unfold _build_kernel, autoresume_enabled. keeps_store.
Qed.

Lemma build_kernel_not_skipped (kname : string) (w : World) :
  points w !! ("build_kernel_" +:+ kname) = None →
  _build_kernel normpath b kname w = _build_kernel_work normpath b kname w.
Proof.
  intros Hp. unfold _build_kernel, autoresume_enabled, resume_is_enabled.
  rewrite bind_bind, bind_gets, bind_ret_l.
  rewrite bool_decide_eq_false_2; [by rewrite andb_false_r|].
  rewrite Hp. by intros [? ?].
Qed.

(** C10.  [_build_kernel] only queries the resume point of its kernel: in
    every outcome the resume store is what it was, so the point is enabled
    afterwards exactly when it was enabled before.  When it was not, a
    second call, on the world the first one left, does not skip: it does
    the whole work of the kernel again.  Only the point [build_kernel] of all
    kernels together, to which [build_kernel] looks under [autoresume], makes
    a re-entered build pass over the kernels. *)
Theorem build_kernel_point_not_recorded (kname : string) (w : World) :
  let point := "build_kernel_" +:+ kname in
  let after := _build_kernel normpath b kname w in
  same_store w after.2 ∧
  (resume_is_enabled point after.2).1 = (resume_is_enabled point w).1 ∧
  (points w !! point = None →
   _build_kernel normpath b kname after.2
   = _build_kernel_work normpath b kname after.2) ∧
  (opt b "autoresume" = true → is_Some (points w !! "build_kernel") →
   build_kernel normpath b w
   = (Ok tt,
      with_event
        (EvLog Notice
           "Resume point detected, skipping build_kernel operation..." [])
        w)).
Proof.
  intros point after.
  pose proof (keeps_store_build_kernel kname w) as Hstore. fold after in Hstore.
  split_and!.
  - done.
  - unfold resume_is_enabled, gets. cbn [fst]. by destruct Hstore as [-> _].
  - intros Hp. apply build_kernel_not_skipped. by destruct Hstore as [-> _].
  - intros Har Hagg. unfold build_kernel, autoresume_enabled, resume_is_enabled.
    rewrite bind_bind, bind_gets, bind_ret_l, Har.
    by rewrite bool_decide_eq_true_2.
Qed.

End Kernel.


(** ** unpack and unpack_snapshot: the hash gate *)

Lemma file_check_file (p text : string) (w : World) :
  fs w !! p = Some (File text) → file_check p w = (Ok p, w).
Proof.
  intros Hp. unfold file_check, os_path_isfile. by rewrite bind_gets, Hp.
Qed.

(** Runs a method forward: reassociates the binds, runs the primitives at
    the head, and reduces projections and decided conditions. *)
Ltac msimpl :=
  repeat first
    [ progress cbn [fst snd negb andb orb fs mounted points store_dir trace
                    oracle sysname with_event with_fs with_mounted
                    with_points step_world]
    | rewrite bind_bind | rewrite bind_ret_l | rewrite bind_gets
    | rewrite bind_log | rewrite bind_modify | rewrite bind_raise_l ].

Section Unpack.

Variable normpath : string → string.
Variable b : Builder.

(** The first statements of [unpack] for a source that is a file. *)
Lemma unpack_info_file (text : string) (w : World) :
  fs w !! source_path b = Some (File text) →
  (if opt b "seedcache" then
     isd <- os_path_isdir (source_path b) ;;
     if isd then ret (source_path b, Some "rsync")
     else
       log Notice "Referenced SEEDCACHE does not appear to be a directory, trying to untar..." [] ;;
       source <- file_check (source_path b) ;;
       ret (source, None)
   else
     source <- file_check (source_path b) ;;
     ret (source, None)) w
  = (Ok (source_path b, None),
     step_world w (mounted w)
       (if opt b "seedcache" then
          [EvLog Notice "Referenced SEEDCACHE does not appear to be a directory, trying to untar..." []]
        else [])).
Proof.
  intros Hf. destruct (opt b "seedcache").
  - unfold os_path_isdir. rewrite bind_gets, Hf, bind_log, bind_eq.
    by rewrite (file_check_file _ text) by done.
  - rewrite bind_eq, (file_check_file _ text) by done.
    by rewrite step_world_id.
Qed.

Lemma unpack_skips (text h : string) (w : World) :
  opt b "autoresume" = true →
  fs w !! source_path b = Some (File text) →
  source_path_hash b = Some h →
  fs w !! chroot_path b = Some Dir →
  points w !! "unpack" = Some (Some (replace_nl h)) →
  unpack normpath b w
  = (Ok tt, step_world w (mounted w) (unpack_skip_events b)).
Proof.
  intros Har Hf Hh Hd Hp. unfold unpack, resume_get.
  rewrite bind_gets, Hp, bind_eq, (unpack_info_file text) by done.
  unfold unpack_validate, os_path_isdir, os_path_isfile, resume_is_enabled,
    source_path_hash_get.
  rewrite Har. msimpl. rewrite Hd. msimpl. rewrite Hp.
  rewrite bool_decide_eq_true_2 by done. msimpl. rewrite Hf. msimpl.
  rewrite Hh. msimpl. rewrite bool_decide_eq_true_2 by done. msimpl.
  unfold log, modify, unpack_skip_events, opt.
  rewrite !with_event_step, !step_world_step. cbn [mounted step_world].
  done.
Qed.

Lemma mount_safety_check_nothing_mounted (w : World) :
  mounts_resolved b →
  Forall (not_a_mount_point w) (map (mount_target normpath b) (mounts b)) →
  mount_safety_check normpath b w = (Ok tt, w).
Proof.
  intros Hres Hno. destruct (fs w !! chroot_path b) eqn:Hroot.
  - rewrite mount_safety_check_loop by done.
    by apply mount_safety_check_loop_skip.
  - unfold mount_safety_check, os_path_exists. rewrite bind_gets, Hroot.
    by rewrite bool_decide_eq_false_2 by (by intros [? ?]).
Qed.

Lemma call_extract_eq (s d : string) (m : option string) (w : World) :
  ∃ f, call (Extract s d m) w
       = (Ok (oracle w (trace w) (Extract s d m)),
          with_event (EvCall (Extract s d m) (oracle w (trace w) (Extract s d m)))
            (with_fs f w)).
Proof.
  unfold call. destruct (oracle w (trace w) (Extract s d m)).
  - simpl. destruct (fs w !! d); [exists (fs w); by destruct w|].
    by eexists.
  - exists (fs w). by destruct w.
Qed.

(** The autoresume validation of [unpack], for a source that is a file and
    a working root that is missing or was unpacked from another seed: the
    root is invalid, and only notices are logged. *)
Lemma unpack_validate_invalid (text h : string) (w : World) :
  opt b "autoresume" = true →
  fs w !! source_path b = Some (File text) →
  source_path_hash b = Some h →
  (fs w !! chroot_path b ≠ Some Dir ∨
   points w !! "unpack" ≠ Some (Some (replace_nl h))) →
  ∃ logs, Forall is_log logs ∧
    unpack_validate b
      (match points w !! "unpack" with Some d => d | None => None end)
      (source_path b) w
    = (Ok (true, true, source_path b), step_world w (mounted w) logs).
Proof.
  intros Har Hf Hh Hinv.
  unfold unpack_validate, os_path_isdir, os_path_isfile, resume_is_enabled,
    source_path_hash_get.
  rewrite Har. msimpl.
  destruct (fs w !! chroot_path b) as [[|?]|] eqn:Hd; msimpl.
  - destruct (points w !! "unpack") as [d|] eqn:Hp.
    + rewrite bool_decide_eq_true_2 by done. msimpl. rewrite Hf. msimpl.
      rewrite Hh. msimpl.
      rewrite bool_decide_eq_false_2.
      2:{ intros <-. by destruct Hinv. }
      msimpl. rewrite bind_eq.
      rewrite (file_check_file _ text) by done.
      eexists. split; [|unfold ret; rewrite !with_event_step, !step_world_step;
                        reflexivity].
      repeat constructor.
    + rewrite bool_decide_eq_false_2 by (by intros [? ?]). msimpl.
      rewrite Hf. msimpl. eexists.
      split; [|unfold ret; rewrite !with_event_step; reflexivity].
      repeat constructor.
  - rewrite Hf. msimpl. exists []. by rewrite step_world_id.
  - rewrite Hf. msimpl. exists []. by rewrite step_world_id.
Qed.

(** The transfer proper extracts once, logs the extractor's failure, and
    records the hash of the source. *)
Lemma unpack_extract_spec (source : string) (mode : option string)
    (w : World) :
  ∃ (f : gmap string Node) (tr : list Event),
    let ok := oracle w tr (Extract source (chroot_path b) mode) in
    unpack_extract b source mode w
    = (Ok tt,
       mkWorld f (mounted w)
         (<["unpack" := source_path_hash b]> (points w)) (store_dir w)
         (trace w ++
          [ EvLog Notice display_msg [mode_str mode; source; chroot_path b];
            EvCall (Extract source (chroot_path b) mode) ok ]
          ++ (if ok then []
              else [EvLog Error error_msg
                      [mode_str mode; source; chroot_path b]]))
         (oracle w) (sysname w)).
Proof.
  unfold unpack_extract. rewrite bind_eq.
  destruct (ensure_dirs_eq (chroot_path b) w) as (f1 & -> & _).
  rewrite bind_eq.
  destruct (ensure_dirs_eq (chroot_path b +:+ "/tmp") (with_fs f1 w))
    as (f2 & -> & _).
  cbn [with_fs fs mounted points store_dir trace oracle sysname].
  assert (∀ (c : bool) p w0, ∃ f,
             (if c then ensure_dirs p else ret tt) w0 = (Ok tt, with_fs f w0))
    as Hopt.
  { intros [] p w0.
    - destruct (ensure_dirs_eq p w0) as (f & -> & _). by exists f.
    - exists (fs w0). by destruct w0. }
  rewrite bind_eq.
  match goal with |- context [(if opt b "pkgcache" then _ else _) ?w0] =>
    destruct (Hopt (opt b "pkgcache") (pkgcache_path b) w0) as (f3 & ->) end.
  rewrite bind_eq.
  match goal with |- context [(if opt b "kerncache" then _ else _) ?w0] =>
    destruct (Hopt (opt b "kerncache") (kerncache_path b) w0) as (f4 & ->) end.
  cbn [with_fs fs mounted points store_dir trace oracle sysname].
  rewrite bind_log, bind_eq.
  match goal with |- context [call ?c ?w0] =>
    destruct (call_extract_eq source (chroot_path b) mode w0) as (f5 & ->) end.
  cbn [with_event with_fs fs mounted points store_dir trace oracle sysname].
  match goal with |- context [oracle w ?tr ?c] => exists f5, tr end.
  cbv zeta.
  match goal with |- context [oracle w ?tr ?c] =>
    destruct (oracle w tr c) end; cbn [negb].
  - msimpl. destruct (source_path_hash b); unfold resume_enable, modify;
      by wnorm.
  - msimpl. destruct (source_path_hash b); unfold resume_enable, modify;
      by wnorm.
Qed.

Lemma unpack_transfers (text h : string) (w : World) :
  mounts_resolved b →
  opt b "autoresume" = true →
  fs w !! source_path b = Some (File text) →
  source_path_hash b = Some h →
  (fs w !! chroot_path b ≠ Some Dir ∨
   points w !! "unpack" ≠ Some (Some (replace_nl h))) →
  Forall (not_a_mount_point w) (map (mount_target normpath b) (mounts b)) →
  ∃ (logs tr : list Event),
    let ok := oracle w tr (Extract (source_path b) (chroot_path b) None) in
    Forall is_log logs ∧
    (unpack normpath b w).1 = Ok tt ∧
    trace (unpack normpath b w).2
    = trace w ++ logs ++ unpack_transfer_events b ok ∧
    points (unpack normpath b w).2 = {["unpack" := Some h]}.
Proof.
  intros Hres Har Hf Hh Hinv Hno. unfold unpack, resume_get.
  rewrite bind_gets, bind_eq, (unpack_info_file text) by done.
  rewrite bind_eq.
  destruct (unpack_validate_invalid text h
              (step_world w (mounted w)
                 (if opt b "seedcache" then
                    [EvLog Notice "Referenced SEEDCACHE does not appear to be a directory, trying to untar..." []]
                  else [])))
    as (logs & Hlogs & Hval); [done..|].
  cbn [fst snd points step_world] in Hval |- *. rewrite Hval. clear Hval.
  rewrite step_world_step. cbn [fst snd]. msimpl.
  rewrite bind_eq, mount_safety_check_nothing_mounted by done.
  rewrite Har. msimpl. unfold clear_autoresume, clear_chroot. rewrite Har.
  unfold resume_clear_all, clear_dir. msimpl.
  match goal with |- context [unpack_extract b ?s ?m ?w0] =>
    destruct (unpack_extract_spec s m w0) as (f & tr & Hex) end.
  cbv zeta in Hex. rewrite Hex. clear Hex.
  cbn [fst snd with_event with_fs with_points step_world fs mounted points
       store_dir trace oracle sysname].
  exists ((if opt b "seedcache" then
             [EvLog Notice "Referenced SEEDCACHE does not appear to be a directory, trying to untar..." []]
           else []) ++ logs), tr. cbv zeta.
  split_and!.
  - apply Forall_app. split; [|done]. destruct (opt b "seedcache"); repeat constructor.
  - done.
  - unfold unpack_transfer_events. rewrite <- !app_assoc. done.
  - by rewrite Hh, insert_empty.
Qed.

Variable determine_mode : string → string.

Lemma unpack_snapshot_skips (w : World) :
  opt b "autoresume" = true →
  opt b "snapcache" = false →
  is_Some (fs w !! target_portdir normpath b) →
  points w !! "unpack_repo" = Some (Some (snapshot_path_hash b)) →
  unpack_snapshot normpath b determine_mode w
  = (Ok tt, step_world w (mounted w) (snapshot_skip_events normpath b)).
Proof.
  intros Har Hsc Hex Hp.
  unfold unpack_snapshot, resume_get, os_path_exists, resume_is_enabled.
  rewrite Hsc, Har. msimpl. rewrite Hp.
  rewrite !bool_decide_eq_true_2 by done. msimpl.
  unfold ret, snapshot_skip_events. by wnorm.
Qed.

Lemma unpack_snapshot_transfers (w : World) :
  opt b "snapcache" = false →
  (opt b "autoresume" = false ∨
   fs w !! target_portdir normpath b = None ∨
   points w !! "unpack_repo" ≠ Some (Some (snapshot_path_hash b))) →
  ∃ (f : gmap string Node) (ok : bool),
    unpack_snapshot normpath b determine_mode w
    = (Ok tt,
       mkWorld f (mounted w)
         (<["unpack_repo" := Some (snapshot_path_hash b)]> (points w))
         (store_dir w)
         (trace w ++
          snapshot_transfer_events normpath determine_mode b
            (bool_decide (is_Some (fs w !! target_portdir normpath b))) ok)
         (oracle w) (sysname w)).
Proof.
  intros Hsc Hinv.
  unfold unpack_snapshot, resume_get, os_path_exists, resume_is_enabled.
  rewrite Hsc. msimpl.
  assert (opt b "autoresume" &&
          bool_decide (is_Some (fs w !! target_portdir normpath b)) &&
          bool_decide (is_Some (points w !! "unpack_repo")) &&
          bool_decide (Some (snapshot_path_hash b)
                       = match points w !! "unpack_repo" with
                         | Some d => d
                         | None => None
                         end) = false) as ->.
  { destruct Hinv as [->|[Hn|Hn]]; [done | |].
    - rewrite (bool_decide_eq_false_2 (is_Some _)); [by rewrite andb_false_r|].
      rewrite Hn. by intros [? ?].
    - rewrite (bool_decide_eq_false_2 (Some _ = _)); [by rewrite andb_false_r|].
      intros Heq. apply Hn. destruct (points w !! "unpack_repo") as [d|];
        [by rewrite Heq | done]. }
  msimpl. unfold clear_dir.
  generalize (bool_decide (is_Some (fs w !! target_portdir normpath b))).
  intros existed. rewrite bind_eq.
  assert (∀ w0, (if existed then
                   log Info "%s"
                     ["Cleaning up existing portage tree (this can take a long time)..."]
                 else ret tt) w0
                = (Ok tt, step_world w0 (mounted w0)
                            (if existed then
                               [EvLog Info "%s"
                                  ["Cleaning up existing portage tree (this can take a long time)..."]]
                             else []))) as ->.
  { intros w0. destruct existed; [done|]. by rewrite step_world_id. }
  msimpl. rewrite bind_eq.
  match goal with |- context [call (Extract ?s ?d ?m) ?w0] =>
    destruct (call_extract_eq s d m w0) as (f & ->) end.
  cbn [with_event with_fs fs mounted points store_dir trace oracle sysname
       step_world].
  match goal with |- context [oracle w ?tr ?c] =>
    generalize (oracle w tr c) end.
  intros ok. exists f, ok. unfold snapshot_transfer_events, resume_enable, modify.
  destruct ok, existed; cbn [negb mode_str]; msimpl; by wnorm.
Qed.

(** C6 (as amended).  Under [autoresume]:
    - [unpack] of a source that is a file skips when the working root is a
      directory and the hash of the source, newlines replaced, is the data
      of the point [unpack]: it only logs, so the extractor is not called
      and nothing is cleared.  When the working root is missing, or the data
      differ or are missing, and nothing is mounted in the working root,
      [unpack] clears the resume points and the working root, extracts
      once, and leaves the hash of the source as the one resume point.
    - Outside the snapshot cache mode, [unpack_snapshot] skips when the tree
      of the repository exists and the hash of the snapshot is the data of
      the point [unpack_repo]; when the tree is missing or the data differ it
      clears the tree, extracts once and records the hash at
      [unpack_repo]. *)
Theorem hash_gated_unpack (w : World) (text h : string) :
  opt b "autoresume" = true →
  (fs w !! source_path b = Some (File text) →
   source_path_hash b = Some h →
   (fs w !! chroot_path b = Some Dir →
    points w !! "unpack" = Some (Some (replace_nl h)) →
    unpack normpath b w
    = (Ok tt, step_world w (mounted w) (unpack_skip_events b))) ∧
   (fs w !! chroot_path b ≠ Some Dir ∨
    points w !! "unpack" ≠ Some (Some (replace_nl h)) →
    mounts_resolved b →
    Forall (not_a_mount_point w) (map (mount_target normpath b) (mounts b)) →
    ∃ (logs tr : list Event),
      let ok := oracle w tr (Extract (source_path b) (chroot_path b) None) in
      Forall is_log logs ∧
      (unpack normpath b w).1 = Ok tt ∧
      trace (unpack normpath b w).2
      = trace w ++ logs ++ unpack_transfer_events b ok ∧
      points (unpack normpath b w).2 = {["unpack" := Some h]})) ∧
  (opt b "snapcache" = false →
   (is_Some (fs w !! target_portdir normpath b) →
    points w !! "unpack_repo" = Some (Some (snapshot_path_hash b)) →
    unpack_snapshot normpath b determine_mode w
    = (Ok tt, step_world w (mounted w) (snapshot_skip_events normpath b))) ∧
   (fs w !! target_portdir normpath b = None ∨
    points w !! "unpack_repo" ≠ Some (Some (snapshot_path_hash b)) →
    ∃ (f : gmap string Node) (ok : bool),
      unpack_snapshot normpath b determine_mode w
      = (Ok tt,
         mkWorld f (mounted w)
           (<["unpack_repo" := Some (snapshot_path_hash b)]> (points w))
           (store_dir w)
           (trace w ++
            snapshot_transfer_events normpath determine_mode b
              (bool_decide (is_Some (fs w !! target_portdir normpath b))) ok)
           (oracle w) (sysname w)))).
Proof.
  intros Har. split.
  - intros Hf Hh. split.
    + intros Hd Hp. by apply (unpack_skips text h).
    + intros Hinv Hres Hno. by apply (unpack_transfers text h).
  - intros Hsc. split.
    + intros Hex Hp. by apply unpack_snapshot_skips.
    + intros Hinv. apply unpack_snapshot_transfers; [done|]. by right.
Qed.

End Unpack.


(** ** Resume points are recorded by stages that return *)

Lemma keeps_records {A} (m : M A) :
  keeps same_store m → records_only_on_return m.
Proof. intros Hk w e _. apply Hk. Qed.

Lemma never_raises_records {A} (m : M A) :
  never_raises m → records_only_on_return m.
Proof. intros Hn w e He. destruct (Hn w) as [a Ha]. congruence. Qed.

Lemma records_bind {A B} (m : M A) (k : A → M B) :
  keeps same_store m → (∀ a, records_only_on_return (k a)) →
  records_only_on_return (bind_ m k).
Proof.
  intros Hm Hk w e. rewrite bind_eq. specialize (Hm w).
  destruct (m w) as [[a|e'] w1]; cbn [snd] in *; [|done].
  intros He. etrans; [done | by eapply Hk].
Qed.

Lemma records_try_except {A} (m : M A) (handles : exn → bool)
    (h : exn → M A) :
  records_only_on_return m → (∀ e, keeps same_store (h e)) →
  records_only_on_return (try_except m handles h).
Proof.
  intros Hm Hh w e. rewrite try_except_eq. specialize (Hm w).
  destruct (m w) as [[a|e'] w1]; cbn [fst snd] in *; [done|].
  specialize (Hm e' eq_refl). destruct (handles e'); [|done].
  intros _. etrans; [done | apply Hh].
Qed.

Lemma never_raises_ret {A} (a : A) : never_raises (ret a).
Proof. intros w. by exists a. Qed.

Lemma never_raises_modify (f : World → World) : never_raises (modify f).
Proof. intros w. by exists tt. Qed.

Lemma never_raises_gets {A} (f : World → A) : never_raises (gets f).
Proof. intros w. by eexists. Qed.

Lemma never_raises_call (c : Call) : never_raises (call c).
Proof. intros w. by eexists. Qed.

Lemma never_raises_bind {A B} (m : M A) (k : A → M B) :
  never_raises m → (∀ a, never_raises (k a)) → never_raises (bind_ m k).
Proof.
  intros Hm Hk w. rewrite bind_eq. destruct (Hm w) as [a Ha].
  destruct (m w) as [r w1]. cbn [fst] in Ha. subst r. apply Hk.
Qed.

Ltac never_raises :=
  repeat first
    [ apply never_raises_ret | apply never_raises_modify
    | apply never_raises_gets | apply never_raises_call
    | apply never_raises_bind; [|intros ?]
    | match goal with
      | |- never_raises (if ?c then _ else _) => destruct c
      | |- never_raises (match ?o with Some _ => _ | None => _ end) =>
          destruct o
      end ].

Global Instance only_files_preorder : PreOrder only_files.
Proof.
  split.
  - by intros w.
  - intros w1 w2 w3 (?&?&?&?&?&?) (?&?&?&?&?&?). repeat split; congruence.
Qed.

Lemma keeps_files_ensure_dirs p : keeps only_files (ensure_dirs p).
Proof. intros w. unfold ensure_dirs, modify. simpl. by destruct (fs w !! p). Qed.

Lemma keeps_files_os_path_exists p : keeps only_files (os_path_exists p).
Proof. by intros w. Qed.

Lemma keeps_files_os_path_isdir p : keeps only_files (os_path_isdir p).
Proof. by intros w. Qed.

Lemma keeps_files_modify_fs (g : World → gmap string Node) :
  keeps only_files (modify (λ w, with_fs (g w) w)).
Proof. by intros w. Qed.

Global Hint Resolve keeps_files_ensure_dirs keeps_files_os_path_exists
  keeps_files_os_path_isdir keeps_files_modify_fs : keeps.

Lemma keeps_store_resume_are_files {A} (m : M A) :
  keeps only_files m → keeps same_store m.
Proof. intros Hk w. destruct (Hk w) as (_ & ? & ? & _). by split. Qed.

Section Capture.

Variable normpath : string → string.
Variable determine_mode : string → string.
Variable b : Builder.

Lemma keeps_files_gen_contents_file path :
  keeps only_files (gen_contents_file b path).
Proof. unfold gen_contents_file, os_remove. keeps_store. Qed.

Lemma keeps_files_gen_digest_file path :
  keeps only_files (gen_digest_file b path).
Proof. unfold gen_digest_file, os_remove. keeps_store. Qed.

Lemma keeps_store_mount_safety_check :
  keeps same_store (mount_safety_check normpath b).
Proof.
  unfold mount_safety_check, mount_safety_check_entry, target_mounts_get.
  keeps_store.
Qed.

Lemma keeps_store_file_check p : keeps same_store (file_check p).
Proof. unfold file_check. keeps_store. Qed.

Lemma keeps_store_unpack_validate clst source :
  keeps same_store (unpack_validate b clst source).
Proof.
  pose proof keeps_store_file_check.
  unfold unpack_validate, source_path_hash_get. keeps_store.
Qed.

Lemma records_unpack : records_only_on_return (unpack normpath b).
Proof.
  pose proof keeps_store_file_check. pose proof keeps_store_unpack_validate.
  pose proof keeps_store_mount_safety_check.
  unfold unpack.
  apply records_bind; [keeps_store|]. intros clst.
  apply records_bind; [keeps_store|]. intros info.
  apply records_bind; [keeps_store|]. intros v. cbv zeta.
  destruct v.1.1; [|apply keeps_records; keeps_store].
  apply records_bind; [keeps_store|]. intros _.
  apply never_raises_records.
  unfold clear_autoresume, clear_chroot, unpack_extract, log, ensure_dirs,
    clear_dir, resume_clear_all, resume_enable.
  never_raises.
Qed.

Lemma records_unpack_snapshot :
  records_only_on_return (unpack_snapshot normpath b determine_mode).
Proof.
  unfold unpack_snapshot.
  apply records_bind; [keeps_store|]. intros snapshot_hash.
  apply records_bind; [keeps_store|]. intros _.
  apply records_bind; [keeps_store|]. intros _. cbv zeta.
  apply records_bind; [keeps_store|]. intros st.
  destruct st.1.1; [|apply keeps_records; keeps_store].
  apply records_bind; [keeps_store|]. intros e.
  apply records_bind; [keeps_store|]. intros _.
  apply records_bind; [keeps_store|]. intros _.
  apply records_bind; [keeps_store|]. intros _.
  apply records_bind; [keeps_store|]. intros ok.
  apply records_bind; [keeps_store|]. intros _.
  destruct (opt b "snapcache").
  - apply keeps_records. apply keeps_store_open_write.
  - apply never_raises_records. unfold log, resume_enable. never_raises.
Qed.

Lemma records_setup_confdir : records_only_on_return (setup_confdir normpath b).
Proof.
  unfold setup_confdir, autoresume_enabled.
  apply records_bind; [keeps_store|]. intros skip.
  destruct skip; [apply keeps_records; keeps_store|].
  destruct (portage_confdir b); [|apply keeps_records; keeps_store].
  apply records_bind; [keeps_store|]. intros _. cbv zeta.
  apply records_bind; [keeps_store|]. intros _.
  apply records_bind; [keeps_store|]. intros _.
  apply never_raises_records. unfold resume_enable. never_raises.
Qed.

Lemma records_run_local : records_only_on_return (run_local normpath b).
Proof.
  unfold run_local, autoresume_enabled.
  apply records_bind; [keeps_store|]. intros skip.
  destruct skip; [apply keeps_records; keeps_store|].
  apply records_try_except; [|intros ?; keeps_store].
  apply records_bind; [keeps_store|]. intros e.
  destruct e; [|apply keeps_records; keeps_store].
  apply records_bind; [keeps_store|]. intros _.
  apply records_bind; [keeps_store|]. intros _.
  apply never_raises_records. unfold resume_enable. never_raises.
Qed.

Lemma records_preclean : records_only_on_return (preclean normpath b).
Proof.
  unfold preclean, autoresume_enabled.
  apply records_bind; [keeps_store|]. intros skip.
  destruct skip; [apply keeps_records; keeps_store|].
  apply records_try_except; [|intros ?; keeps_store].
  apply records_bind; [keeps_store|]. intros e.
  destruct e; [|apply keeps_records; keeps_store].
  apply records_bind; [keeps_store|]. intros _.
  apply never_raises_records. unfold resume_enable. never_raises.
Qed.

Lemma records_capture : records_only_on_return (capture b).
Proof.
  pose proof (λ p, keeps_store_resume_are_files _ (keeps_files_gen_contents_file p)).
  pose proof (λ p, keeps_store_resume_are_files _ (keeps_files_gen_digest_file p)).
  unfold capture, autoresume_enabled.
  apply records_bind; [keeps_store|]. intros skip.
  destruct skip; [apply keeps_records; keeps_store|].
  apply records_bind; [keeps_store|]. intros _.
  apply records_bind; [keeps_store|]. intros _.
  apply records_bind; [keeps_store|]. intros _.
  apply records_bind; [keeps_store|]. intros ok.
  destruct ok; [|apply keeps_records; keeps_store].
  apply records_bind; [keeps_store|]. intros _.
  apply records_bind; [keeps_store|]. intros _.
  apply never_raises_records. unfold resume_enable. never_raises.
Qed.

Lemma records_build_kernel : records_only_on_return (build_kernel normpath b).
Proof.
  pose proof (keeps_store_build_kernel normpath b).
  unfold build_kernel, autoresume_enabled.
  apply records_bind; [keeps_store|]. intros skip.
  destruct skip; [apply keeps_records; keeps_store|].
  destruct (spec_get "boot/kernel" (kernel_settings b));
    [|apply keeps_records; keeps_store].
  apply records_try_except; [|intros ?; keeps_store]. cbv zeta.
  apply records_bind; [keeps_store|]. intros _.
  apply records_bind; [keeps_store|]. intros _.
  apply never_raises_records. unfold resume_enable. never_raises.
Qed.

Lemma capture_not_skipped (w : World) :
  opt b "autoresume" = false ∨ points w !! "capture" = None →
  autoresume_enabled b "capture" w = (Ok false, w).
Proof.
  intros Hns. unfold autoresume_enabled, resume_is_enabled.
  rewrite bind_gets. unfold ret. destruct Hns as [->|Hp]; [done|].
  rewrite Hp, bool_decide_eq_false_2 by (by intros [? ?]).
  by rewrite andb_false_r.
Qed.

(** [capture] when the compressor reports failure. *)
Lemma capture_compress_fails (w : World) :
  opt b "autoresume" = false ∨ points w !! "capture" = None →
  (∀ tr, oracle w tr (compress_call b) = false) →
  ∃ f, capture b w
       = (Ok tt,
          mkWorld f (mounted w) (points w) (store_dir w)
            (trace w ++
             [ EvLog Notice "Capture target in a tarball" [];
               EvLog Notice "Creating stage tarball... mode: %s"
                 [compression_mode b];
               EvCall (compress_call b) false;
               tarball_warning b ])
            (oracle w) (sysname w)).
Proof.
  intros Hns Hfail. unfold capture.
  rewrite bind_eq, capture_not_skipped by done. msimpl.
  match goal with |- context [bind_ (ensure_dirs ?p) _ ?w0] =>
    destruct (ensure_dirs_eq p w0) as (f & Hed & _) end.
  exists f. rewrite bind_eq, Hed.
  msimpl. rewrite bind_eq. unfold call. fold (compress_call b).
  cbn [with_event with_fs fs mounted points store_dir trace oracle sysname].
  rewrite Hfail. unfold log, modify, tarball_warning. by wnorm.
Qed.

(** [capture] records its point only after the compressor succeeded. *)
Lemma capture_records_after_compress (w : World) :
  points w !! "capture" = None →
  is_Some (points (capture b w).2 !! "capture") →
  (capture b w).1 = Ok tt ∧
  EvCall (compress_call b) true ∈ trace (capture b w).2.
Proof.
  intros Hp. unfold capture.
  rewrite bind_eq, capture_not_skipped by (by right). msimpl. rewrite bind_eq.
  match goal with |- context [ensure_dirs ?p ?w0] =>
    destruct (ensure_dirs_eq p w0) as (f & Hed & _) end.
  rewrite Hed. clear Hed.
  msimpl. rewrite bind_eq. unfold call. fold (compress_call b).
  cbn [with_event with_fs fs mounted points store_dir trace oracle sysname].
  match goal with |- context [oracle w ?tr ?c] =>
    destruct (oracle w tr c) end.
  2:{ unfold log, modify. cbn. rewrite Hp. by intros [? ?]. }
  cbn [call_effect compress_call].
  match goal with |- context [bind_ (gen_contents_file b _) _ ?w0] =>
    set (w1 := w0) end.
  assert (points w1 = points w ∧
          EvCall (compress_call b) true ∈ trace w1) as [Hp1 Htr1].
  { subst w1. cbn. split; [done|]. apply elem_of_app. right.
    apply elem_of_cons. by left. }
  clearbody w1. rewrite bind_eq.
  pose proof (keeps_files_gen_contents_file (target_filename b) w1)
    as (_ & Hp2 & _ & Htr2 & _).
  destruct (gen_contents_file b (target_filename b) w1) as [[[]|e] w2];
    cbn [fst snd] in *.
  2:{ rewrite Hp2, Hp1, Hp. by intros [? ?]. }
  rewrite bind_eq.
  pose proof (keeps_files_gen_digest_file (target_filename b) w2)
    as (_ & Hp3 & _ & Htr3 & _).
  destruct (gen_digest_file b (target_filename b) w2) as [[[]|e] w3];
    cbn [fst snd] in *.
  2:{ rewrite Hp3, Hp2, Hp1, Hp. by intros [? ?]. }
  intros _. unfold resume_enable, modify. cbn. split; [done|].
  by rewrite Htr3, Htr2.
Qed.

(** [unpack] when the extractor reports failure. *)
Lemma unpack_extract_fails (text h : string) (w : World) :
  mounts_resolved b →
  opt b "autoresume" = true →
  fs w !! source_path b = Some (File text) →
  source_path_hash b = Some h →
  (fs w !! chroot_path b ≠ Some Dir ∨
   points w !! "unpack" ≠ Some (Some (replace_nl h))) →
  Forall (not_a_mount_point w) (map (mount_target normpath b) (mounts b)) →
  (∀ tr, oracle w tr (Extract (source_path b) (chroot_path b) None) = false) →
  (unpack normpath b w).1 = Ok tt ∧
  EvLog Error error_msg ["None"; source_path b; chroot_path b]
    ∈ trace (unpack normpath b w).2.
Proof.
  intros Hres Har Hf Hh Hinv Hno Hfail.
  destruct (unpack_transfers normpath b text h w)
    as (logs & tr & Hok); [done..|].
  cbv zeta in Hok. rewrite Hfail in Hok.
  destruct Hok as (_ & Hr & Htr & _). split; [done|]. rewrite Htr.
  apply elem_of_app. right. apply elem_of_app. right.
  unfold unpack_transfer_events. apply elem_of_app. right.
  apply elem_of_cons. by left.
Qed.

(** C7 (as amended).  A stage records its resume point only in a run that
    returns: when [unpack], [unpack_snapshot], [setup_confdir], [run_local],
    [preclean], [capture] or [build_kernel] raises, the resume store is as
    it was.  A report of failure from the compressor or from the extractor
    is logged and not turned into an exception: [capture] then logs a
    warning, records nothing and returns, and [unpack] logs an error and
    returns.  [capture] records its point only after the compressor reported
    success. *)
Theorem checkpoint_recorded_on_return :
  Forall records_only_on_return (recording_stages normpath determine_mode b) ∧
  (∀ w, opt b "autoresume" = false ∨ points w !! "capture" = None →
        (∀ tr, oracle w tr (compress_call b) = false) →
        (capture b w).1 = Ok tt ∧ same_store w (capture b w).2 ∧
        tarball_warning b ∈ trace (capture b w).2) ∧
  (∀ w, points w !! "capture" = None →
        is_Some (points (capture b w).2 !! "capture") →
        (capture b w).1 = Ok tt ∧
        EvCall (compress_call b) true ∈ trace (capture b w).2) ∧
  (∀ w text h,
     mounts_resolved b →
     opt b "autoresume" = true →
     fs w !! source_path b = Some (File text) →
     source_path_hash b = Some h →
     (fs w !! chroot_path b ≠ Some Dir ∨
      points w !! "unpack" ≠ Some (Some (replace_nl h))) →
     Forall (not_a_mount_point w) (map (mount_target normpath b) (mounts b)) →
     (∀ tr, oracle w tr (Extract (source_path b) (chroot_path b) None) = false) →
     (unpack normpath b w).1 = Ok tt ∧
     EvLog Error error_msg ["None"; source_path b; chroot_path b]
       ∈ trace (unpack normpath b w).2).
Proof.
  split_and!.
  - unfold recording_stages.
    apply List.Forall_cons; [apply records_unpack|].
    apply List.Forall_cons; [apply records_unpack_snapshot|].
    apply List.Forall_cons; [apply records_setup_confdir|].
    apply List.Forall_cons; [apply records_run_local|].
    apply List.Forall_cons; [apply records_preclean|].
    apply List.Forall_cons; [apply records_capture|].
    apply List.Forall_cons; [apply records_build_kernel|].
    apply List.Forall_nil.
  - intros w Hns Hfail.
    destruct (capture_compress_fails w Hns Hfail) as (f & ->). cbn.
    split_and!; [done | done |].
    apply elem_of_app. right. unfold tarball_warning.
    repeat (apply elem_of_cons; first [by left | right]).
  - apply capture_records_after_compress.
  - intros w text h. apply unpack_extract_fails.
Qed.

End Capture.


(** * The theorems on the example builder *)

Ltac decide_it := apply (bool_decide_unpack _); vm_compute; exact I.

Lemma pair_fst {A B} (a : A) (b : B) : (a, b).1 = a.
Proof. reflexivity. Qed.

Lemma pair_snd {A B} (a : A) (b : B) : (a, b).2 = b.
Proof. reflexivity. Qed.

Lemma prefix_app (s t : string) : String.prefix s (s +:+ t) = true.
Proof.
  induction s as [|c s IH]; [by destruct t|].
  change (String.prefix (String c s) (String c (s +:+ t)) = true).
  cbn. by destruct (ascii_dec c c).
Qed.

Lemma substringb_complete (s t : string) :
  substring_of s t → substringb s t = true.
Proof.
  intros (pre & post & ->). induction pre as [|c pre IH].
  - change (substringb s (s +:+ post) = true).
    pose proof (prefix_app s post) as Hp.
    destruct (s +:+ post); cbn [substringb]; rewrite Hp; done.
  - change (substringb s (String c (pre +:+ s +:+ post)) = true).
    cbn [substringb]. rewrite IH. apply orb_true_r.
Qed.

Lemma plain_builder_resolved : mounts_resolved plain_builder.
Proof. decide_it. Defined.

Lemma resuming_builder_resolved : mounts_resolved resuming_builder.
Proof. decide_it. Defined.

(** C1, on a run of five actions whose third, [run_local], fails: [_run]
    returns [False], the loop has dispatched the first three actions only,
    and the point [unpack] is still enabled. *)
Lemma run_fail_stop_example :
  (_run demo_normpath failing_run_builder (demo_methods failing_run_builder)
     failing_run_world).1 = Ok (Some false) ∧
  (_run_loop (demo_methods failing_run_builder)
     (action_sequence failing_run_builder)
     (_run_prelude demo_normpath failing_run_builder failing_run_world).2).1
  = Ok (true, ["unpack"; "bind"; "run_local"]) ∧
  (resume_is_enabled "unpack"
     (_run demo_normpath failing_run_builder
        (demo_methods failing_run_builder) failing_run_world).2).1 = Ok true.
Proof.
  set (b := failing_run_builder). set (w := failing_run_world).
  set (w0 := (_run_prelude demo_normpath b w).2).
  set (w1 := (dispatch_all (demo_methods b) ["unpack"; "bind"] w0).2).
  set (w2 := (getattr_call (demo_methods b) "run_local"
                (with_event (running_notice "run_local") w1)).2).
  pose proof (run_fail_stop demo_normpath b (demo_methods b) w w0 w1 w2
                ["unpack"; "bind"] "run_local" ["preclean"; "capture"]
                (CatalystError "Stage build aborting due to error.")) as H.
  destruct H as (Hrun & Hloop & _ & Hpts); [vm_compute; reflexivity..|].
  split_and!.
  - rewrite Hrun, pair_fst. vm_compute. reflexivity.
  - exact Hloop.
  - rewrite Hrun, pair_snd. apply Hpts. vm_compute. eexists. reflexivity.
Defined.

(** C2 as amended, where one target is missing, one is not mounted and
    one is mounted: two notices and one unmount, in reverse order. *)
Lemma unbind_reverse_order_example :
  unbind demo_normpath plain_builder mixed_world
  = (Ok tt,
     step_world mixed_world []
       [ absent_notice "/work/dev/pts";
         not_mounted_notice "/work/dev";
         umount_call "/work/proc" true ]).
Proof.
  destruct (unbind_reverse_order demo_normpath plain_builder mixed_world
              plain_builder_resolved) as (_ & _ & H).
  rewrite H.
  - vm_compute. reflexivity.
  - decide_it.
  - intros tr t. reflexivity.
Defined.

(** C2 as stated fails: every target is mounted, [umount] fails and so
    does the kill script.  [unbind] stops in the visit of [/work/dev/pts],
    the first target in reverse order, with the error of the kill script;
    [/work/dev] and [/work/proc] are not considered: no event names them
    and they stay mounted. *)
Lemma unbind_stops_at_failing_kill_script :
  let targets :=
    map (mount_target demo_normpath plain_builder) (mounts plain_builder) in
  let kill := killcmd demo_normpath plain_builder in
  let out := unbind demo_normpath plain_builder kill_script_fails_world in
  rev targets = ["/work/dev/pts"; "/work/dev"; "/work/proc"] ∧
  Forall (λ t, is_Some (fs kill_script_fails_world !! t) ∧
               t ∈ mounted kill_script_fails_world) targets ∧
  out.1 = Raise (cmd_error [kill]) ∧
  trace out.2 = abort_block kill "/work/dev/pts" ∧
  mounted out.2 = mounted kill_script_fails_world ∧
  (∀ ok, umount_call "/work/dev" ok ∉ trace out.2) ∧
  (∀ ok, umount_call "/work/proc" ok ∉ trace out.2).
Proof.
  cbv zeta. split_and!.
  - vm_compute. reflexivity.
  - decide_it.
  - vm_compute. reflexivity.
  - vm_compute. reflexivity.
  - vm_compute. reflexivity.
  - intros ok. destruct ok; decide_it.
  - intros ok. destruct ok; decide_it.
Qed.

(** C3, in a world where nothing is mounted and in one where [/work/proc]
    stays mounted. *)
Lemma mount_safety_check_example :
  mount_safety_check demo_normpath plain_builder clean_world
  = (Ok tt, clean_world) ∧
  (mount_safety_check demo_normpath plain_builder busy_world).1
  = Raise (unable_to_unbind "/work/proc").
Proof.
  split.
  - apply (mount_safety_check_spec demo_normpath plain_builder clean_world).
    + exact plain_builder_resolved.
    + vm_compute. eexists. reflexivity.
    + decide_it.
  - pose proof (mount_safety_check_spec demo_normpath plain_builder busy_world
                  plain_builder_resolved) as H.
    destruct H as [_ H]; [vm_compute; eexists; reflexivity|].
    rewrite (H [] "proc" ["dev"; "devpts"]).
    + vm_compute. reflexivity.
    + reflexivity.
    + constructor.
    + vm_compute. eexists. reflexivity.
    + decide_it.
Defined.

(** C4 as amended, where the kill script is installed and [umount]
    fails. *)
Lemma unbind_escalation_example :
  ∃ (outs : list bool) (blocks : list (list Event)) (m : list string),
    Forall3 (visit_block (killcmd demo_normpath plain_builder)
               busy_world_with_kill_script)
      (rev (map (mount_target demo_normpath plain_builder)
              (mounts plain_builder))) outs blocks ∧
    unbind demo_normpath plain_builder busy_world_with_kill_script
    = (if any_failed outs then Raise umount_error else Ok tt,
       step_world busy_world_with_kill_script m (concat blocks)).
Proof.
  pose proof (unbind_escalation demo_normpath plain_builder
                busy_world_with_kill_script plain_builder_resolved) as H.
  destruct H as (outs & blocks & m & H1 & H2 & _).
  - intros tr. reflexivity.
  - exists outs, blocks, m. split; assumption.
Defined.

(** C4 as stated fails: [umount] of [/work/proc] fails twice and the error
    of [unbind] does not name the target, which only the warning does. *)
Lemma unbind_error_names_no_target :
  (unbind demo_normpath plain_builder busy_world).1 = Raise umount_error ∧
  "/work/proc" ∈ mounted (unbind demo_normpath plain_builder busy_world).2 ∧
  couldnt_umount_warning "/work/proc"
    ∈ trace (unbind demo_normpath plain_builder busy_world).2 ∧
  ∀ msg, (unbind demo_normpath plain_builder busy_world).1
         = Raise (CatalystError msg) →
         ¬ substring_of "/work/proc" msg.
Proof.
  split_and!.
  - vm_compute. reflexivity.
  - decide_it.
  - decide_it.
  - intros msg Hmsg Hsub. apply substringb_complete in Hsub.
    vm_compute in Hmsg. injection Hmsg as <-.
    vm_compute in Hsub. discriminate.
Qed.

(** C5 as amended, where the mount on [/work/dev] fails and [umount]
    works: the error of the mount comes out and nothing is mounted. *)
Lemma bind_rollback_example :
  (bind demo_normpath plain_builder mount_fails_world).1
  = Raise (cmd_error ["mount"; "--bind"; "/dev"; "/work/dev"]) ∧
  ∀ t, (mount_count t
          (mounted (bind demo_normpath plain_builder mount_fails_world).2)
        ≤ mount_count t (mounted mount_fails_world))%nat.
Proof.
  set (b := plain_builder). set (w := mount_fails_world).
  set (w1 := (for_each ["proc"] (bind_entry demo_normpath b) w).2).
  set (w2 := (bind_prepare demo_normpath b "dev" w1).2).
  pose proof (bind_rollback demo_normpath b w ["proc"] "dev" ["devpts"] w1 w2
                ["mount"; "--bind"; "/dev"; "/work/dev"]
                plain_builder_resolved) as H.
  destruct H as [Hbind Hcount]; [vm_compute; reflexivity..|].
  rewrite Hbind, pair_fst, pair_snd. split.
  - vm_compute. reflexivity.
  - apply Hcount. vm_compute. reflexivity.
Defined.

(** C5 as stated fails: when [umount] fails too, the error of [unbind] comes
    out and [/work/proc], mounted by this [bind], stays mounted. *)
Lemma bind_rollback_leaves_mount :
  mounted mount_fails_busy_world = [] ∧
  (bind demo_normpath plain_builder mount_fails_busy_world).1
  = Raise umount_error ∧
  EvCall (Cmd ["mount"; "--bind"; "/proc"; "/work/proc"]) true
    ∈ trace (bind demo_normpath plain_builder mount_fails_busy_world).2 ∧
  EvCall (Cmd ["umount"; "/work/proc"]) false
    ∈ trace (bind demo_normpath plain_builder mount_fails_busy_world).2 ∧
  mounted (bind demo_normpath plain_builder mount_fails_busy_world).2
  = ["/work/proc"].
Proof.
  split_and!; try (vm_compute; reflexivity); decide_it.
Qed.

(** C6 as amended: with the hash recorded and the working root in place
    [unpack] only logs; with nothing recorded it extracts and records the
    hash; [unpack_snapshot] skips on the recorded hash of the snapshot. *)
Lemma hash_gated_unpack_example :
  unpack demo_normpath resuming_builder resumed_world
  = (Ok tt,
     step_world resumed_world (mounted resumed_world)
       (unpack_skip_events resuming_builder)) ∧
  points (unpack demo_normpath resuming_builder clean_world).2
  = {["unpack" := Some "sha512 aaaa"]} ∧
  unpack_snapshot demo_normpath resuming_builder demo_normpath snapshot_world
  = (Ok tt,
     step_world snapshot_world (mounted snapshot_world)
       (snapshot_skip_events demo_normpath resuming_builder)).
Proof.
  split_and!.
  - pose proof (hash_gated_unpack demo_normpath resuming_builder
                  demo_normpath resumed_world "seed" "sha512 aaaa" eq_refl)
      as [H _].
    destruct H as [H _]; [reflexivity..|].
    apply H; reflexivity.
  - pose proof (hash_gated_unpack demo_normpath resuming_builder
                  demo_normpath clean_world "seed" "sha512 aaaa" eq_refl)
      as [H _].
    destruct H as [_ H]; [reflexivity..|].
    destruct H as (logs & tr & _ & _ & _ & H).
    + right. vm_compute. discriminate.
    + exact resuming_builder_resolved.
    + decide_it.
    + exact H.
  - pose proof (hash_gated_unpack demo_normpath resuming_builder
                  demo_normpath snapshot_world "seed" "sha512 aaaa" eq_refl)
      as [_ H].
    destruct H as [H _]; [reflexivity|].
    apply H; [vm_compute; eexists|]; reflexivity.
Defined.

(** C6 as stated fails: the hash of the source is the recorded one, the
    working root is missing, and [unpack] clears and extracts. *)
Lemma unpack_equal_hash_extracts :
  opt resuming_builder "autoresume" = true ∧
  fs resumed_world_without_root !! source_path resuming_builder
  = Some (File "seed") ∧
  source_path_hash resuming_builder = Some "sha512 aaaa" ∧
  (resume_get "unpack" resumed_world_without_root).1
  = Ok (Some "sha512 aaaa") ∧
  (unpack demo_normpath resuming_builder resumed_world_without_root).1
  = Ok tt ∧
  cleared
    (trace (unpack demo_normpath resuming_builder
              resumed_world_without_root).2) = ["/work"] ∧
  transfers
    (trace (unpack demo_normpath resuming_builder
              resumed_world_without_root).2)
  = [(Extract "/store/builds/seed.tar" "/work" None, true)].
Proof.
  split_and!; vm_compute; reflexivity.
Qed.

(** C7 as amended, where the compressor fails: [capture] returns, warns
    and records nothing. *)
Lemma checkpoint_recorded_on_return_example :
  (capture capture_run_builder compress_fails_world).1 = Ok tt ∧
  same_store compress_fails_world
    (capture capture_run_builder compress_fails_world).2 ∧
  tarball_warning capture_run_builder
    ∈ trace (capture capture_run_builder compress_fails_world).2.
Proof.
  pose proof (checkpoint_recorded_on_return demo_normpath demo_normpath
                capture_run_builder) as (_ & H & _).
  apply H.
  - left. reflexivity.
  - intros tr. reflexivity.
Defined.

(** C7 as stated fails: after the compressor reported a failure [capture]
    logs a warning and returns, so to [_run] the stage has not failed: the
    run goes on with [remove_chroot], removes the working root and reports
    success. *)
Lemma failed_transfer_is_no_stage_failure :
  (capture capture_run_builder compress_fails_world).1 = Ok tt ∧
  transfers (trace (capture capture_run_builder compress_fails_world).2)
  = [(compress_call capture_run_builder, false)] ∧
  (_run_loop (demo_methods capture_run_builder)
     (action_sequence capture_run_builder)
     (_run_prelude demo_normpath capture_run_builder
        compress_fails_world).2).1
  = Ok (false, ["capture"; "remove_chroot"]) ∧
  (_run demo_normpath capture_run_builder (demo_methods capture_run_builder)
     compress_fails_world).1 = Ok (Some true) ∧
  cleared
    (trace (_run demo_normpath capture_run_builder
              (demo_methods capture_run_builder) compress_fails_world).2)
  = ["/work"].
Proof.
  split_and!; vm_compute; reflexivity.
Qed.

(** C9, on settings with the unknown key [bogus] and without the required
    key [sharedir]: the validation raises and the message names both. *)
Lemma Builder_init_validate_example :
  ∃ msg, Builder_init_validate valid_values bogus_settings
         = Raise (CatalystError msg) ∧
         substring_of "bogus" msg ∧ substring_of "sharedir" msg.
Proof.
  pose proof (Builder_init_validate_spec valid_values bogus_settings) as H.
  cbv zeta in H. destruct H as (Hiff & Hmsg & _).
  assert (Hbogus : unknown_key
                     (set_valid_build_kernel_vars valid_values
                        bogus_settings).1 bogus_settings "bogus")
    by (unfold unknown_key; split_and!; decide_it).
  assert (Hshare : missing_key bogus_settings "sharedir")
    by (unfold missing_key; split_and!; decide_it).
  destruct (proj2 Hiff) as [e He]; [exists "bogus"; by left|].
  destruct (Hmsg e He) as (msg & -> & Hu & Hm).
  exists msg. split_and!; [exact He | apply (Hu _ Hbogus) | apply (Hm _ Hshare)].
Defined.

(** C10, for the kernel [gentoo]: a second [_build_kernel] does the whole
    work again. *)
Lemma build_kernel_point_not_recorded_example :
  _build_kernel demo_normpath resuming_builder "gentoo"
    (_build_kernel demo_normpath resuming_builder "gentoo" clean_world).2
  = _build_kernel_work demo_normpath resuming_builder "gentoo"
      (_build_kernel demo_normpath resuming_builder "gentoo" clean_world).2.
Proof.
  pose proof (build_kernel_point_not_recorded demo_normpath resuming_builder
                "gentoo" clean_world) as H.
  cbv zeta in H. destruct H as (_ & _ & H & _).
  apply H. reflexivity.
Defined.


(** * The stages one by one *)

Set Default Proof Using "Type".

Lemma unbind_then_raise_eq {A} (normpath : string → string) (b : Builder)
    (e : exn) (w : World) :
  (unbind normpath b ;; raise (A:=A) e) w = unbind_then_raise normpath b e w.
Proof.
  unfold unbind_then_raise. rewrite bind_eq.
  by destruct (unbind normpath b w) as [[[]|e'] w'].
Qed.

Lemma string_app_length (s t : string) :
  String.length (s +:+ t) = String.length s + String.length t.
Proof.
  induction s as [|c s IH]; [done|].
  change (S (String.length (s +:+ t)) = S (String.length s + String.length t)).
  by rewrite IH.
Qed.

Lemma string_app_ne (s t : string) : t ≠ EmptyString → s +:+ t ≠ s.
Proof.
  intros Ht Heq. apply (f_equal String.length) in Heq.
  rewrite string_app_length in Heq. destruct t; [done|]. simpl in Heq. lia.
Qed.

Section Stages.

Variable normpath : string → string.
Variable b : Builder.

Lemma gate_open_eq (point : string) (w : World) :
  gate_open b point w → autoresume_enabled b point w = (Ok false, w).
Proof.
  intros Hns. unfold autoresume_enabled, resume_is_enabled.
  rewrite bind_gets. unfold ret. destruct Hns as [->|Hp]; [done|].
  rewrite Hp, bool_decide_eq_false_2 by (by intros [? ?]).
  by rewrite andb_false_r.
Qed.

Lemma gate_shut_eq (point : string) (w : World) :
  opt b "autoresume" = true → is_Some (points w !! point) →
  autoresume_enabled b point w = (Ok true, w).
Proof.
  intros Har Hp. unfold autoresume_enabled, resume_is_enabled.
  rewrite bind_gets. unfold ret. by rewrite Har, bool_decide_eq_true_2.
Qed.

Lemma exists_true (p : string) (w : World) :
  is_Some (fs w !! p) → os_path_exists p w = (Ok true, w).
Proof.
  intros Hp. unfold os_path_exists, gets. by rewrite bool_decide_eq_true_2.
Qed.

Lemma exists_false (p : string) (w : World) :
  fs w !! p = None → os_path_exists p w = (Ok false, w).
Proof.
  intros Hp. unfold os_path_exists, gets.
  rewrite bool_decide_eq_false_2; [done|]. rewrite Hp. by intros [? ?].
Qed.

(** [run_local] outside a resumed run.  Without a controller script it
    logs and records nothing.  When the script exits zero the point
    [run_local] is recorded; when it exits non-zero [unbind] runs and the
    error of the script is replaced by a fixed [CatalystError], unless
    [unbind] raises itself. *)
Theorem run_local_spec (w : World) :
  gate_open b "run_local" w →
  let argv := [controller_file b; "run"] in
  let started :=
    with_event (EvLog Info "run_local() starting controller script..." [])
      w in
  (fs w !! controller_file b = None →
   run_local normpath b w
   = (Ok tt,
      with_event
        (EvLog Info "run_local() no controller_file found... %s"
           [controller_file b]) w)) ∧
  (is_Some (fs w !! controller_file b) →
   run_local normpath b w
   = if oracle w (trace started) (Cmd argv)
     then (Ok tt, recorded "run_local" None (ran argv started))
     else unbind_then_raise normpath b
            (CatalystError "Stage build aborting due to error.")
            (failed argv started)).
Proof.
  intros Hgate argv started. unfold run_local.
  rewrite bind_eq, gate_open_eq by done. cbn [fst snd].
  rewrite try_except_eq. split.
  - intros Hno. rewrite bind_eq, exists_false by done. done.
  - intros Hex. rewrite bind_eq, exists_true by done.
    rewrite bind_log, bind_eq, cmd_None_eq. fold started. fold argv.
    change (oracle started) with (oracle w).
    destruct (oracle w (trace started) (Cmd argv)); [done|].
    cbn [is_CatalystError cmd_error]. by rewrite unbind_then_raise_eq.
Qed.

(** [preclean] outside a resumed run: the same protocol, with its own
    message; without a controller script it does nothing at all. *)
Theorem preclean_spec (w : World) :
  gate_open b "preclean" w →
  let argv := [controller_file b; "preclean"] in
  (fs w !! controller_file b = None →
   preclean normpath b w = (Ok tt, w)) ∧
  (is_Some (fs w !! controller_file b) →
   preclean normpath b w
   = if oracle w (trace w) (Cmd argv)
     then (Ok tt, recorded "preclean" None (ran argv w))
     else unbind_then_raise normpath b
            (CatalystError "Build failed, could not execute preclean")
            (failed argv w)).
Proof.
  intros Hgate argv. unfold preclean.
  rewrite bind_eq, gate_open_eq by done. cbn [fst snd].
  rewrite try_except_eq. split.
  - intros Hno. by rewrite bind_eq, exists_false by done.
  - intros Hex. rewrite bind_eq, exists_true by done.
    rewrite bind_eq, cmd_None_eq. fold argv.
    destruct (oracle w (trace w) (Cmd argv)); [done|].
    by rewrite unbind_then_raise_eq.
Qed.

(** [setup_confdir] outside a resumed run.  Without [portage_confdir] it
    does nothing and records nothing.  With it, the configuration directory
    of the working root is made and [rsync] copies into it, both paths with
    a trailing slash; the point is recorded when [rsync] exits zero, and a
    failure raises the error of the command with the mounts left as they
    are. *)
Theorem setup_confdir_spec (w : World) :
  gate_open b "setup_confdir" w →
  match portage_confdir b with
  | None => setup_confdir normpath b w = (Ok tt, w)
  | Some confdir =>
      let dest := normpath (chroot_path b +:+ "/" +:+ port_conf b) in
      let argv := ["rsync"; "-a"; confdir +:+ "/"; dest +:+ "/"] in
      ∃ w1, (log Info "Configuring %s..." [port_conf b] ;; ensure_dirs dest) w
            = (Ok tt, w1) ∧
            is_Some (fs w1 !! dest) ∧
            setup_confdir normpath b w
            = if oracle w (trace w1) (Cmd argv)
              then (Ok tt,
                    recorded "setup_confdir" None
                      (with_event (EvCall (Cmd argv) true) w1))
              else (Raise (cmd_error argv), failed argv w1)
  end.
Proof.
  intros Hgate.
  assert (Hhead : setup_confdir normpath b w
                  = match portage_confdir b with
                    | Some confdir =>
                        (log Info "Configuring %s..." [port_conf b] ;;
                         let dest :=
                           normpath (chroot_path b +:+ "/" +:+ port_conf b) in
                         ensure_dirs dest ;;
                         cmd ["rsync"; "-a"; confdir +:+ "/"; dest +:+ "/"]
                           None ;;
                         resume_enable "setup_confdir" None) w
                    | None => (Ok tt, w)
                    end).
  { unfold setup_confdir. rewrite bind_eq, gate_open_eq by done.
    by destruct (portage_confdir b). }
  rewrite Hhead. clear Hhead.
  destruct (portage_confdir b) as [confdir|]; [|done].
  cbv zeta. set (dest := normpath _).
  destruct (ensure_dirs_eq dest
              (with_event (EvLog Info "Configuring %s..." [port_conf b]) w))
    as (f & Hed & Hdest & _).
  exists (with_fs f
            (with_event (EvLog Info "Configuring %s..." [port_conf b]) w)).
  split; [by rewrite bind_log, Hed|]. split; [exact Hdest|].
  rewrite bind_log, bind_eq, Hed.
  rewrite bind_eq, cmd_None_eq. cbn [oracle with_fs with_event trace].
  by destruct (oracle w _ _).
Qed.

(** [_copy_kernel_config].  Without a configured file it does nothing; a
    list in place of the path raises [TypeError].  A configured file that
    does not exist makes it unbind and raise.  The file is copied to
    [/var/tmp/<kname>.config] under the working root, or into it when that
    is a directory.  When the copy fails with [IOError] (the configured path
    is a directory, it is the destination itself, the destination is a
    directory, or the directory to copy into is missing) the stage unbinds
    and returns as if the copy had been made: the error is dropped. *)
Theorem copy_kernel_config_spec (kname path : string) (w : World) :
  let key := kernel_key kname "/config" in
  let dst := chroot_path b +:+ "/var/tmp/" +:+ kname +:+ ".config" in
  let file :=
    match fs w !! dst with
    | Some Dir => os_path_join dst (basename path)
    | _ => dst
    end in
  (spec_get key (kernel_settings b) = None →
   _copy_kernel_config normpath b kname w = (Ok tt, w)) ∧
  (∀ l, spec_get key (kernel_settings b) = Some (VList l) →
        ∃ msg, _copy_kernel_config normpath b kname w
               = (Raise (TypeError msg), w)) ∧
  (spec_get key (kernel_settings b) = Some (VStr path) →
   (fs w !! path = None →
    _copy_kernel_config normpath b kname w
    = unbind_then_raise normpath b
        (CatalystError ("Can't find kernel config: " +:+ path)) w) ∧
   (is_Some (fs w !! path) →
    fs w !! path = Some Dir ∨ path = file ∨ fs w !! file = Some Dir ∨
    fs w !! dirname file ≠ Some Dir →
    _copy_kernel_config normpath b kname w = unbind normpath b w) ∧
   (∀ text, fs w !! path = Some (File text) →
            path ≠ file →
            fs w !! file ≠ Some Dir →
            fs w !! dirname file = Some Dir →
            _copy_kernel_config normpath b kname w
            = (Ok tt, with_fs (<[file := File text]> (fs w)) w))).
Proof.
  intros key dst file. unfold _copy_kernel_config. fold key. split_and!.
  - by intros ->.
  - intros l ->. cbn [as_path]. by eexists.
  - intros ->. cbn [as_path]. rewrite bind_ret_l. fold dst.
    assert (Hcopy : shutil_copy path dst w
                    = (if String.eqb path file then
                         raise (IOError ("'" +:+ path +:+ "' and '" +:+ file
                                         +:+ "' are the same file"))
                       else
                         text <- open_read path ;;
                         open_write (dirname file) file text) w).
    { unfold shutil_copy, copy_destination, os_path_isdir.
      rewrite bind_bind, bind_gets, bind_ret_l. subst file.
      by destruct (fs w !! dst) as [[|?]|]. }
    split_and!.
    + intros Hno. rewrite bind_eq, exists_false by done. cbn [negb].
      by rewrite unbind_then_raise_eq.
    + intros Hex Hbad.
      rewrite bind_eq, exists_true by done. cbn [negb].
      rewrite try_except_eq, Hcopy.
      destruct (String.eqb_spec path file) as [Heq|Hne]; [done|].
      unfold open_read. rewrite bind_bind, bind_gets.
      destruct Hex as [n Hn]. rewrite Hn.
      destruct n as [|text]; [done|]. rewrite bind_ret_l.
      unfold open_write. rewrite bind_gets.
      destruct Hbad as [Hbad|[Hbad|[Hbad|Hbad]]]; [congruence | done | |].
      * by rewrite Hbad.
      * destruct (fs w !! file) as [[|?]|]; [done| |];
          rewrite bind_gets;
          by destruct (fs w !! dirname file) as [[|?]|].
    + intros text Hf Hne Hnd Hdir.
      rewrite bind_eq, exists_true by (by rewrite Hf). cbn [negb].
      rewrite try_except_eq, Hcopy.
      destruct (String.eqb_spec path file) as [Heq|_]; [done|].
      unfold open_read. rewrite bind_bind, bind_gets, Hf, bind_ret_l.
      unfold open_write. rewrite bind_gets.
      destruct (fs w !! file) as [[|?]|]; [done| |];
        by rewrite bind_gets, Hdir.
Qed.

(** [build_kernel] outside a resumed run.  Without [boot/kernel] it does
    nothing and records nothing.  With it, the script is asked for
    [pre-kmerge] first; when that fails no kernel is built, [unbind] runs
    and a fixed [CatalystError] comes out.  A [CatalystError] of a kernel is
    handled the same way, with [build_kernel] not recorded. *)
Theorem build_kernel_spec (w : World) :
  gate_open b "build_kernel" w →
  let argv := [controller_file b; "pre-kmerge"] in
  let aborted := CatalystError "build aborting due to kernel build error." in
  (spec_get "boot/kernel" (kernel_settings b) = None →
   build_kernel normpath b w = (Ok tt, w)) ∧
  (is_Some (spec_get "boot/kernel" (kernel_settings b)) →
   oracle w (trace w) (Cmd argv) = false →
   build_kernel normpath b w
   = unbind_then_raise normpath b aborted (failed argv w)) ∧
  (∀ v w1 msg,
     spec_get "boot/kernel" (kernel_settings b) = Some v →
     oracle w (trace w) (Cmd argv) = true →
     for_each (match v with VStr s => [s] | VList l => l end)
       (_build_kernel normpath b) (ran argv w)
     = (Raise (CatalystError msg), w1) →
     build_kernel normpath b w = unbind_then_raise normpath b aborted w1 ∧
     points (build_kernel normpath b w).2 = points w).
Proof.
  intros Hgate argv aborted. unfold build_kernel.
  rewrite bind_eq, gate_open_eq by done. cbn [fst snd]. split_and!.
  - by intros ->.
  - intros [v ->] Hfail. rewrite try_except_eq.
    rewrite bind_eq, cmd_None_eq. fold argv. rewrite Hfail.
    cbn [is_CatalystError cmd_error]. by rewrite unbind_then_raise_eq.
  - intros v w1 msg -> Hok Hloop. rewrite try_except_eq.
    rewrite bind_eq, cmd_None_eq. fold argv. rewrite Hok.
    fold (ran argv w). rewrite bind_eq, Hloop. cbn [is_CatalystError].
    rewrite unbind_then_raise_eq. split; [done|].
    unfold unbind_then_raise. cbn [snd].
    destruct (keeps_store_unbind normpath b w1) as [-> _].
    assert (Hk : keeps same_store
                   (for_each (match v with VStr s => [s] | VList l => l end)
                      (_build_kernel normpath b))).
    { pose proof (keeps_store_build_kernel normpath b). keeps_store. }
    specialize (Hk (ran argv w)). rewrite Hloop in Hk. cbn [snd] in Hk.
    destruct Hk as [-> _]. unfold ran. cbn [points with_event].
    apply call_effect_points.
Qed.

(** What [gen_contents_file] and [gen_digest_file] do when the archive
    exists: the stale companion file is removed, and with [contents]
    (respectively [digests]) configured the missing import is hit. *)
Lemma gen_contents_file_cases (path : string) (w : World) :
  is_Some (fs w !! path) →
  (∃ msg, gen_contents_file b path w = (Raise (IOError msg), w)) ∨
  (∃ f, is_Some (f !! path) ∧
        gen_contents_file b path w
        = (match contents b with
           | Some _ => Raise (NameError "gzip")
           | None => Ok tt
           end, with_fs f w)).
Proof.
  intros Hpath.
  set (companion := path +:+ ".CONTENTS.gz").
  assert (Hne : companion ≠ path) by (by apply string_app_ne).
  destruct (fs w !! companion) as [[|text]|] eqn:Hn.
  - left. eexists. unfold gen_contents_file, os_remove, os_path_isdir. cbv zeta.
    fold companion. rewrite bind_eq, exists_true by (by rewrite Hn).
    by rewrite !bind_bind, bind_gets, Hn.
  - right. exists (delete companion (fs w)).
    assert (Hp : is_Some (delete companion (fs w) !! path))
      by (by rewrite lookup_delete_ne).
    split; [done|]. unfold gen_contents_file, os_remove, os_path_isdir. cbv zeta.
    fold companion. rewrite bind_eq, exists_true by (by rewrite Hn).
    rewrite !bind_bind, bind_gets, Hn, bind_modify.
    destruct (contents b); [|done]. by rewrite bind_eq, exists_true.
  - right. exists (fs w). split; [done|].
    unfold gen_contents_file. cbv zeta.
    fold companion. rewrite bind_eq, exists_false by done.
    rewrite bind_ret_l.
    replace (with_fs (fs w) w) with w by (by destruct w).
    destruct (contents b); [|done]. by rewrite bind_eq, exists_true.
Qed.

Lemma gen_digest_file_cases (path : string) (w : World) :
  is_Some (fs w !! path) →
  (∃ msg, gen_digest_file b path w = (Raise (IOError msg), w)) ∨
  (∃ f, is_Some (f !! path) ∧
        gen_digest_file b path w
        = (match digests b with
           | Some _ => Raise (NameError "io")
           | None => Ok tt
           end, with_fs f w)).
Proof.
  intros Hpath.
  set (companion := path +:+ ".DIGESTS").
  assert (Hne : companion ≠ path) by (by apply string_app_ne).
  destruct (fs w !! companion) as [[|text]|] eqn:Hn.
  - left. eexists. unfold gen_digest_file, os_remove, os_path_isdir. cbv zeta.
    fold companion. rewrite bind_eq, exists_true by (by rewrite Hn).
    by rewrite !bind_bind, bind_gets, Hn.
  - right. exists (delete companion (fs w)).
    assert (Hp : is_Some (delete companion (fs w) !! path))
      by (by rewrite lookup_delete_ne).
    split; [done|]. unfold gen_digest_file, os_remove, os_path_isdir. cbv zeta.
    fold companion. rewrite bind_eq, exists_true by (by rewrite Hn).
    rewrite !bind_bind, bind_gets, Hn, bind_modify.
    destruct (digests b); [|done]. by rewrite bind_eq, exists_true.
  - right. exists (fs w). split; [done|].
    unfold gen_digest_file. cbv zeta.
    fold companion. rewrite bind_eq, exists_false by done.
    rewrite bind_ret_l.
    replace (with_fs (fs w) w) with w by (by destruct w).
    destruct (digests b); [|done]. by rewrite bind_eq, exists_true.
Qed.

(** With [contents] or [digests] configured, [capture] never completes:
    once the compressor has made the archive, writing the contents or the
    digests file stops on a module that builder.py does not import (or on
    the stale companion file being a directory).  The stage raises an
    exception that is no [CatalystError] and its resume point is not
    recorded, although the archive is there. *)
Theorem capture_contents_never_records (w : World) :
  is_Some (contents b) ∨ is_Some (digests b) →
  gate_open b "capture" w →
  (∀ tr, oracle w tr (compress_call b) = true) →
  (∃ e, (capture b w).1 = Raise e ∧
        ((∃ name, e = NameError name) ∨ (∃ msg, e = IOError msg))) ∧
  points (capture b w).2 = points w ∧
  is_Some (fs (capture b w).2 !! target_filename b) ∧
  EvCall (compress_call b) true ∈ trace (capture b w).2.
Proof.
  intros Hcfg Hgate Hok. unfold capture.
  rewrite bind_eq, gate_open_eq by done. msimpl. rewrite bind_eq.
  match goal with |- context [ensure_dirs ?p ?w0] =>
    destruct (ensure_dirs_eq p w0) as (f & Hed & _) end.
  rewrite Hed. clear Hed.
  msimpl. rewrite bind_eq. unfold call. fold (compress_call b).
  cbn [with_event with_fs fs mounted points store_dir trace oracle sysname].
  rewrite Hok. cbn [call_effect compress_call].
  match goal with |- context [bind_ (gen_contents_file b _) _ ?w0] =>
    set (w1 := w0) end.
  assert (points w1 = points w ∧
          is_Some (fs w1 !! target_filename b) ∧
          EvCall (compress_call b) true ∈ trace w1) as (Hp1 & Hf1 & Htr1).
  { subst w1. cbn. split_and!; [done | by rewrite lookup_insert_eq|].
    apply elem_of_app. right. apply elem_of_cons. by left. }
  clearbody w1. rewrite bind_eq.
  destruct (gen_contents_file_cases (target_filename b) w1 Hf1)
    as [[msg ->]|(f1 & Hf2 & ->)].
  { cbn [fst snd]. split_and!; [|done..]. eexists. split; [done|].
    right. by eexists. }
  destruct (contents b) as [c|] eqn:Hc.
  { cbn [fst snd with_fs points fs trace].
    split_and!; [|done..]. eexists. split; [done|]. left. by eexists. }
  rewrite bind_eq.
  destruct (gen_digest_file_cases (target_filename b) (with_fs f1 w1) Hf2)
    as [[msg ->]|(f2 & Hf3 & ->)].
  { cbn [fst snd with_fs points fs trace].
    split_and!; [|done..]. eexists. split; [done|]. right. by eexists. }
  destruct (digests b) as [d|] eqn:Hd.
  { cbn [fst snd with_fs points fs trace].
    split_and!; [|done..]. eexists. split; [done|]. left. by eexists. }
  destruct Hcfg as [[? ?]|[? ?]]; done.
Qed.

(** The purge options never purge.  [purge] starts with a call of
    [countdown], a name that builder.py neither defines nor imports: with
    [purgetmponly], [purgeonly] or [purge] among the options, a run whose
    first two steps return stops there with [NameError].  No action of the
    sequence is dispatched and no directory is cleared: after the safety
    check the run has only logged, and emptied the resume store when
    [clear-autoresume] asked for it. *)
Theorem run_purge_never_purges (methods : string → option (M unit))
    (w w1 : World) :
  opt b "purgetmponly" = true ∨ opt b "purgeonly" = true ∨
  opt b "purge" = true →
  (kill_chroot_pids normpath b ;; mount_safety_check normpath b) w
  = (Ok tt, w1) →
  let clearing := opt b "clear-autoresume" && opt b "autoresume" in
  let logs :=
    (if clearing then [EvLog Notice "Removing AutoResume Points ..." []]
     else [])
    ++ (if opt b "purgetmponly" then []
        else if opt b "purgeonly"
             then [EvLog Info "StageBase: run() purgeonly" []]
             else [EvLog Info "StageBase: run() purge" []]) in
  (∀ remove w', purge b remove w' = (Raise (NameError "countdown"), w')) ∧
  _run normpath b methods w
  = (Raise (NameError "countdown"),
     mkWorld (fs w1) (mounted w1) (if clearing then ∅ else points w1)
       (store_dir w1) (trace w1 ++ logs) (oracle w1) (sysname w1)).
Proof.
  intros Hopt Hhead clearing logs. split; [done|].
  rewrite bind_eq in Hhead.
  destruct (kill_chroot_pids normpath b w) as [[[]|e] w0] eqn:Hkill; [|done].
  unfold _run, _run_prelude.
  rewrite !bind_bind. rewrite bind_eq, Hkill. cbv beta iota.
  rewrite !bind_bind, bind_eq, Hhead. cbv beta iota.
  subst clearing logs.
  unfold clear_autoresume, resume_clear_all, purge.
  destruct (opt b "clear-autoresume"), (opt b "autoresume"),
    (opt b "purgetmponly") eqn:H1, (opt b "purgeonly") eqn:H2,
    (opt b "purge") eqn:H3;
    try (destruct Hopt as [?|[?|?]]; discriminate);
    cbn [andb app]; msimpl; wnorm; by rewrite ?app_nil_r.
Qed.

(** *** bind followed by unbind *)

Lemma mount_count_pos (t : string) (l : list string) :
  t ∈ l ↔ (0 < mount_count t l)%nat.
Proof.
  induction l as [|x l IH]; simpl.
  - split; [by intros ?%elem_of_nil | lia].
  - rewrite elem_of_cons, IH.
    destruct (String.eqb_spec t x); split; try lia; auto.
    intros [?|?]; [done | lia].
Qed.

Lemma mount_count_sublist (t : string) (l1 l2 : list string) :
  l1 `sublist_of` l2 → (mount_count t l1 ≤ mount_count t l2)%nat.
Proof. induction 1; simpl; lia. Qed.

Lemma sublist_same_count (l1 l2 : list string) :
  l1 `sublist_of` l2 →
  (∀ t, mount_count t l1 = mount_count t l2) → l1 = l2.
Proof.
  induction 1 as [|x l1 l2 Hsub IH|x l1 l2 Hsub IH]; intros Hc; [done| |].
  - f_equal. apply IH. intros t. specialize (Hc t). simpl in Hc. lia.
  - specialize (Hc x). simpl in Hc. rewrite String.eqb_refl in Hc.
    pose proof (mount_count_sublist x _ _ Hsub). lia.
Qed.

(** A [bind] that returns has stacked mounts of its targets on the mount
    table and nothing else. *)
Lemma bind_loop_stack (l : list string) :
  ∀ (w w1 : World),
    for_each l (bind_entry normpath b) w = (Ok tt, w1) →
    ∃ new, mounted w1 = new ++ mounted w ∧
           Forall (λ t, t ∈ map (mount_target normpath b) l) new.
Proof.
  induction l as [|x l IH]; intros w w1 Heq.
  - injection Heq as <-. by exists [].
  - simpl in Heq. rewrite bind_eq in Heq.
    destruct (bind_entry normpath b x w) as [[[]|e] w0] eqn:Hx; [|done].
    apply bind_entry_ok in Hx as [_ Hm0].
    destruct (IH _ _ Heq) as (new & Hnew & Hin).
    assert (Hin' : Forall (λ t, t ∈ map (mount_target normpath b) (x :: l))
                     new).
    { eapply Forall_impl; [done|]. intros t Ht. simpl.
      apply elem_of_cons. by right. }
    destruct Hm0 as [Hm0|[Hm0 _]]; rewrite Hm0 in Hnew.
    + by exists new.
    + exists (new ++ [mount_target normpath b x]).
      split; [by rewrite <- app_assoc|].
      apply Forall_app. split; [done|]. apply Forall_singleton.
      simpl. apply elem_of_cons. by left.
Qed.

(** Round trip: when no target is a mount point to begin with, a [bind]
    that returns followed by an [unbind] that returns leaves the mount
    table exactly as it was, and removes no file. *)
Theorem bind_unbind_restores (w w1 w2 : World) :
  mounts_resolved b →
  Forall (λ t, t ∉ mounted w) (map (mount_target normpath b) (mounts b)) →
  bind normpath b w = (Ok tt, w1) →
  unbind normpath b w1 = (Ok tt, w2) →
  mounted w2 = mounted w ∧
  (∀ q, is_Some (fs w !! q) → is_Some (fs w2 !! q)).
Proof.
  intros Hres Hfree Hbind Hunbind.
  set (targets := map (mount_target normpath b) (mounts b)) in *.
  destruct (bind_loop_stack _ _ _ Hbind) as (new & Hnew & Hin).
  destruct (bind_loop_ok normpath b _ _ _ Hbind) as [Hmono Hcount].
  pose proof (unbind_ok_count normpath b w1 Hres) as Hdown.
  rewrite Hunbind in Hdown. specialize (Hdown eq_refl). cbn [snd] in Hdown.
  destruct (unbind_spec normpath b w1 Hres) as (r & evs & m & Heq & Hsub & _).
  rewrite Hunbind in Heq. injection Heq as _ ->.
  cbn [mounted fs step_world] in *. split; [|done].
  assert (Hsame : ∀ t, mount_count t m = mount_count t (mounted w)).
  { intros t. rewrite (Hdown t). destruct (Hcount t) as [Hle Hex].
    fold targets in Hle |- *.
    destruct (decide (t ∈ targets)) as [Ht|Ht].
    - assert (Hz : mount_count t (mounted w) = 0).
      { apply mount_count_notin.
        by eapply (proj1 (Forall_forall _ _) Hfree). }
      rewrite Hz in *. case_bool_decide as Hfs; [lia|].
      destruct (mount_count t (mounted w1)) eqn:Hn; [done|].
      destruct Hfs. apply Hex. lia.
    - assert (Hz : mount_count t new = 0).
      { apply mount_count_notin. intros Hn.
        by apply (proj1 (Forall_forall _ _) Hin) in Hn. }
      assert (Hz' : mount_count t targets = 0)
        by (by apply mount_count_notin).
      rewrite Hnew, mount_count_app, Hz, Hz'. case_bool_decide; lia. }
  apply sublist_same_count; [|done].
  rewrite Hnew in Hsub. clear -Hsub Hsame Hin Hfree.
  induction new as [|x new IH]; [done|].
  apply Forall_cons in Hin as [Hx Hin]. cbn [app] in Hsub.
  apply sublist_cons_r in Hsub as [Hsub|(m' & -> & _)]; [by apply IH|].
  specialize (Hsame x). cbn [mount_count] in Hsame.
  rewrite String.eqb_refl in Hsame.
  rewrite (mount_count_notin x (mounted w)) in Hsame; [lia|].
  by eapply (proj1 (Forall_forall _ _) Hfree).
Qed.

(** After an [unbind] that returned normally every existing target has
    lost one mount for each time it occurs among the targets, and nothing
    else changed in the mount table: a target that carried more mounts than
    that is still a mount point. *)
Theorem unbind_takes_one_mount (w : World) (t : string) :
  mounts_resolved b →
  (unbind normpath b w).1 = Ok tt →
  let targets := map (mount_target normpath b) (mounts b) in
  let after := mounted (unbind normpath b w).2 in
  mount_count t after
  = (if bool_decide (is_Some (fs w !! t))
     then mount_count t (mounted w) - mount_count t targets
     else mount_count t (mounted w)) ∧
  (is_Some (fs w !! t) →
   (mount_count t targets < mount_count t (mounted w))%nat → t ∈ after).
Proof.
  intros Hres Hok targets after.
  pose proof (unbind_ok_count normpath b w Hres Hok t) as Hc.
  split; [done|]. intros Hex Hlt. apply mount_count_pos. subst after.
  rewrite Hc, bool_decide_eq_true_2 by done. fold targets. lia.
Qed.

(** *** portage_overlay *)

Lemma existing_agree (w w' : World) (l : list string) :
  (∀ x, x ∈ l → is_Some (fs w' !! x) ↔ is_Some (fs w !! x)) →
  existing w' l = existing w l.
Proof.
  unfold existing. induction l as [|x l IH]; intros Hag; [done|].
  rewrite !filter_cons.
  rewrite IH by (intros y Hy; apply Hag; apply elem_of_cons; by right).
  pose proof (Hag x ltac:(apply elem_of_cons; by left)) as Hx.
  destruct (decide (is_Some (fs w' !! x))) as [H1|H1],
    (decide (is_Some (fs w !! x))) as [H2|H2]; [done | | | done].
  - destruct H2. by apply Hx.
  - destruct H1. by apply Hx.
Qed.

Lemma ensure_dirs_frame (p : string) (w : World) :
  ∃ f, ensure_dirs p w = (Ok tt, with_fs f w) ∧ is_Some (f !! p) ∧
       ∀ q, q ≠ p → f !! q = fs w !! q.
Proof.
  unfold ensure_dirs, modify. destruct (fs w !! p) eqn:Hp.
  - exists (fs w). split_and!; [by destruct w | by rewrite Hp | done].
  - exists (<[p:=Dir]> (fs w)). split_and!; [done | |].
    + by rewrite lookup_insert_eq.
    + intros q Hq. by rewrite lookup_insert_ne.
Qed.

Lemma commands_app (tr1 tr2 : list Event) :
  commands (tr1 ++ tr2) = commands tr1 ++ commands tr2.
Proof.
  induction tr1 as [|[| [] |] tr1 IH]; simpl; by rewrite ?IH.
Qed.

(** The loop of [portage_overlay] over the overlays [l]: the overlays that
    exist are copied in order, one [cp] each, until a copy fails. *)
Lemma portage_overlay_loop (l : list string) :
  ∀ w,
    chroot_path b +:+ local_overlay b ∉ l →
    let body := λ x,
      e <- os_path_exists x ;;
      if e then
        log Info "Copying overlay dir %s" [x] ;;
        ensure_dirs (chroot_path b +:+ local_overlay b) ;;
        cmd (overlay_copy_command b x) None
      else ret tt in
    let out := for_each l body w in
    mounted out.2 = mounted w ∧ points out.2 = points w ∧
    ((out.1 = Ok tt ∧
      commands (trace out.2)
      = commands (trace w)
        ++ map (λ x, (overlay_copy_command b x, true)) (existing w l)) ∨
     (∃ copied x rest,
        existing w l = copied ++ x :: rest ∧
        out.1 = Raise (cmd_error (overlay_copy_command b x)) ∧
        commands (trace out.2)
        = commands (trace w)
          ++ map (λ x, (overlay_copy_command b x, true)) copied
          ++ [(overlay_copy_command b x, false)])).
Proof.
  induction l as [|x l IH]; intros w Hd body out.
  - subst out. cbn. split_and!; [done..|]. left. by rewrite app_nil_r.
  - apply not_elem_of_cons in Hd as [Hdx Hd].
    assert (Hstep : out = match body x w with
                          | (Ok _, w') => for_each l body w'
                          | (Raise e, w') => (Raise e, w')
                          end) by done.
    clearbody out. subst out.
    destruct (fs w !! x) as [n|] eqn:Hx.
    + destruct (ensure_dirs_frame (chroot_path b +:+ local_overlay b)
                  (with_event (EvLog Info "Copying overlay dir %s" [x]) w))
        as (f & Hed & _ & Hfs).
      cbn [fs with_fs with_event] in Hfs.
      set (w0 := with_fs f
                   (with_event (EvLog Info "Copying overlay dir %s" [x]) w))
        in *.
      assert (Hb : body x w
                   = if oracle w (trace w0) (Cmd (overlay_copy_command b x))
                     then (Ok tt,
                           with_event
                             (EvCall (Cmd (overlay_copy_command b x)) true)
                             w0)
                     else (Raise (cmd_error (overlay_copy_command b x)),
                           failed (overlay_copy_command b x) w0)).
      { unfold body. rewrite bind_eq, exists_true by (by rewrite Hx).
        rewrite bind_log, bind_eq, Hed, cmd_None_eq.
        unfold overlay_copy_command at 3. by rewrite call_effect_single. }
      rewrite Hb. clear Hb.
      assert (Hag : ∀ y, y ∈ l → is_Some (f !! y) ↔ is_Some (fs w !! y)).
      { intros y Hy. rewrite Hfs; [done|]. by intros ->. }
      assert (Hex : existing w (x :: l) = x :: existing w l).
      { unfold existing. rewrite filter_cons.
        by rewrite decide_True by (by rewrite Hx). }
      rewrite Hex.
      destruct (oracle w _ _).
      * set (w1 := with_event (EvCall (Cmd (overlay_copy_command b x)) true)
                      w0).
        specialize (IH w1 Hd). cbv zeta in IH. fold body in IH.
        destruct IH as (Hm & Hp & Hout).
        rewrite (existing_agree w w1) in Hout by done.
        assert (Htr : commands (trace w1)
                      = commands (trace w)
                        ++ [(overlay_copy_command b x, true)]).
        { unfold w1, w0. cbn [trace with_event with_fs].
          rewrite !commands_app. simpl. by rewrite app_nil_r. }
        rewrite Hm, Hp. split_and!; [done..|].
        destruct Hout as [[Hok Hc]|(copied & y & rest & Hl & Hr & Hc)].
        -- left. split; [done|]. rewrite Hc, Htr, <- app_assoc. done.
        -- right. exists (x :: copied), y, rest. rewrite Hl.
           split_and!; [done..|]. rewrite Hc, Htr, <- app_assoc. done.
      * cbn [fst snd]. unfold failed, w0.
        cbn [mounted points with_event with_fs trace].
        split_and!; [done..|]. right. exists [], x, (existing w l).
        split_and!; [done..|].
        rewrite !commands_app. simpl. by rewrite app_nil_r.
    + assert (Hb : body x w = (Ok tt, w)).
      { unfold body. by rewrite bind_eq, exists_false by done. }
      rewrite Hb. clear Hb.
      specialize (IH w Hd). cbv zeta in IH. fold body in IH.
      assert (Hex : existing w (x :: l) = existing w l).
      { unfold existing. rewrite filter_cons.
        rewrite decide_False; [done|]. rewrite Hx. by intros [? ?]. }
      by rewrite Hex.
Qed.

(** [portage_overlay].  Without [portage_overlay] in the settings nothing
    happens.  Otherwise the overlays that exist are copied into the local
    overlay of the working root, in the order given and with one [cp]
    each; overlays that do not exist are passed over without a word.  The
    first copy that fails ends the stage with the error of that command,
    and the overlays after it are not copied.  The mount table and the
    resume store stay as they are: the stage has no resume point. *)
Theorem portage_overlay_copies (overlays : list string) (w : World) :
  portage_overlay b = Some overlays →
  chroot_path b +:+ local_overlay b ∉ overlays →
  let out := portage_overlay_stage b w in
  let copy := λ x, (overlay_copy_command b x, true) in
  mounted out.2 = mounted w ∧ points out.2 = points w ∧
  ((out.1 = Ok tt ∧
    commands (trace out.2)
    = commands (trace w) ++ map copy (existing w overlays)) ∨
   (∃ copied x rest,
      existing w overlays = copied ++ x :: rest ∧
      out.1 = Raise (cmd_error (overlay_copy_command b x)) ∧
      commands (trace out.2)
      = commands (trace w) ++ map copy copied
        ++ [(overlay_copy_command b x, false)])).
Proof.
  intros Hcfg Hd out copy. subst out. unfold portage_overlay_stage.
  rewrite Hcfg. by apply portage_overlay_loop.
Qed.

End Stages.


(** * Stages outside the default action sequence *)

Section MoreStages.

Variable normpath : string → string.
Variable b : Builder.

(** Under [autoresume], a stage whose resume point is enabled is skipped:
    it logs one notice and does nothing else, whatever the state of the
    working root, of the mounts and of the controller script. *)
Theorem resume_gate_skips (point : string) (m : M unit) (w : World) :
  (point, m) ∈ gated_stages normpath b →
  opt b "autoresume" = true →
  is_Some (points w !! point) →
  ∃ msg, m w = (Ok tt, with_event (EvLog Notice msg []) w).
Proof.
  intros Hin Har Hp. unfold gated_stages in Hin.
  repeat (apply elem_of_cons in Hin as [[= -> ->]|Hin];
          [eexists;
           unfold setup_confdir, run_local, preclean, capture, build_kernel,
             rcupdate, target_setup, bootloader, livecd_update;
           rewrite bind_eq, gate_shut_eq by done; reflexivity|]).
  by apply elem_of_nil in Hin.
Qed.

(** [bootloader] and [livecd_update] outside a resumed run: the script is
    called whether or not it exists; the point is recorded when it exits
    zero; when it exits non-zero [unbind] runs and a [CatalystError] with
    the message of the stage is raised, unless [unbind] raises itself. *)
Theorem bootloader_spec (w : World) :
  let boot := [controller_file b; "bootloader"; rstrip_slash (target_path b)] in
  let live := [controller_file b; "livecd-update"] in
  (gate_open b "bootloader" w →
   bootloader normpath b w
   = if oracle w (trace w) (Cmd boot)
     then (Ok tt, recorded "bootloader" None (ran boot w))
     else unbind_then_raise normpath b
            (CatalystError "Script aborting due to error.") (failed boot w)) ∧
  (gate_open b "livecd_update" w →
   livecd_update normpath b w
   = if oracle w (trace w) (Cmd live)
     then (Ok tt, recorded "livecd_update" None (ran live w))
     else unbind_then_raise normpath b
            (CatalystError "build aborting due to livecd_update error.")
            (failed live w)).
Proof.
  intros boot live. split; intros Hgate.
  - unfold bootloader. rewrite bind_eq, gate_open_eq by done. cbv beta iota.
    rewrite try_except_eq, bind_eq, cmd_None_eq. fold boot.
    destruct (oracle w (trace w) (Cmd boot)); [done|].
    by rewrite unbind_then_raise_eq.
  - unfold livecd_update. rewrite bind_eq, gate_open_eq by done.
    cbv beta iota.
    rewrite try_except_eq, bind_eq, cmd_None_eq. fold live.
    destruct (oracle w (trace w) (Cmd live)); [done|].
    by rewrite unbind_then_raise_eq.
Qed.

(** [target_setup] and [rcupdate] have no handler: when the script exits
    non-zero the error of the command comes out as it is, no unmount is
    attempted and the mount table is left as it was.  [rcupdate] without a
    controller script does nothing and records nothing. *)
Theorem target_setup_spec (w : World) :
  let setup := [controller_file b; "target_image_setup"; target_path b] in
  let rc := [controller_file b; "rc-update"] in
  let noticed :=
    with_event (EvLog Notice "Setting up filesystems per filesystem type" [])
      w in
  (gate_open b "target_setup" w →
   target_setup b w
   = if oracle w (trace noticed) (Cmd setup)
     then (Ok tt, recorded "target_setup" None (ran setup noticed))
     else (Raise (cmd_error setup), failed setup noticed)) ∧
  (gate_open b "rcupdate" w →
   rcupdate b w
   = if bool_decide (is_Some (fs w !! controller_file b))
     then if oracle w (trace w) (Cmd rc)
          then (Ok tt, recorded "rcupdate" None (ran rc w))
          else (Raise (cmd_error rc), failed rc w)
     else (Ok tt, w)) ∧
  (∀ e, (target_setup b w).1 = Raise e →
        mounted (target_setup b w).2 = mounted w) ∧
  (∀ e, (rcupdate b w).1 = Raise e → mounted (rcupdate b w).2 = mounted w).
Proof.
  intros setup rc noticed.
  assert (Ht : gate_open b "target_setup" w →
               target_setup b w
               = if oracle w (trace noticed) (Cmd setup)
                 then (Ok tt, recorded "target_setup" None (ran setup noticed))
                 else (Raise (cmd_error setup), failed setup noticed)).
  { intros Hgate. unfold target_setup.
    rewrite bind_eq, gate_open_eq by done. cbv beta iota.
    rewrite bind_log, bind_eq, cmd_None_eq. fold setup noticed.
    change (oracle noticed) with (oracle w).
    by destruct (oracle w (trace noticed) (Cmd setup)). }
  assert (Hr : gate_open b "rcupdate" w →
               rcupdate b w
               = if bool_decide (is_Some (fs w !! controller_file b))
                 then if oracle w (trace w) (Cmd rc)
                      then (Ok tt, recorded "rcupdate" None (ran rc w))
                      else (Raise (cmd_error rc), failed rc w)
                 else (Ok tt, w)).
  { intros Hgate. unfold rcupdate.
    rewrite bind_eq, gate_open_eq by done. cbv beta iota.
    unfold os_path_exists. rewrite bind_gets. case_bool_decide; [|done].
    rewrite bind_eq, cmd_None_eq. fold rc.
    by destruct (oracle w (trace w) (Cmd rc)). }
  assert (Hgate : ∀ point,
             gate_open b point w ∨
             autoresume_enabled b point w = (Ok true, w)).
  { intros point. unfold gate_open.
    destruct (opt b "autoresume") eqn:Har; [|by left; left].
    destruct (points w !! point) eqn:Hp; [|by left; right].
    right. apply gate_shut_eq; [done|]. by rewrite Hp. }
  split_and!; [done | done | |].
  - intros e. destruct (Hgate "target_setup") as [Hg|Hg].
    + rewrite Ht by done.
      destruct (oracle w (trace noticed) (Cmd setup)); cbn [fst snd];
        [done | intros _; reflexivity].
    + unfold target_setup. by rewrite bind_eq, Hg.
  - intros e. destruct (Hgate "rcupdate") as [Hg|Hg].
    + rewrite Hr by done. case_bool_decide; [|done].
      destruct (oracle w (trace w) (Cmd rc)); cbn [fst snd];
        [done | intros _; reflexivity].
    + unfold rcupdate. by rewrite bind_eq, Hg.
Qed.

End MoreStages.


(** * The settings during construction *)

Lemma spec_get_set_eq (k : string) (v : SpecValue) (d : Spec) :
  spec_get k (spec_set k v d) = Some v.
Proof.
  induction d as [|[k' v'] d IH]; simpl.
  - by rewrite String.eqb_refl.
  - destruct (String.eqb k k') eqn:E; simpl; by rewrite E.
Qed.

Lemma spec_get_set_ne (k k' : string) (v : SpecValue) (d : Spec) :
  k ≠ k' → spec_get k (spec_set k' v d) = spec_get k d.
Proof.
  intros Hne. induction d as [|[k'' v''] d IH]; simpl.
  - by rewrite (proj2 (String.eqb_neq k k')).
  - destruct (String.eqb k' k'') eqn:E; simpl.
    + apply String.eqb_eq in E as <-.
      by rewrite (proj2 (String.eqb_neq k k')).
    + by rewrite IH.
Qed.

Lemma spec_get_del_eq (k : string) (d : Spec) : spec_get k (spec_del k d) = None.
Proof.
  induction d as [|[k' v'] d IH]; [done|]. simpl.
  destruct (String.eqb k k') eqn:E; [done|]. simpl. by rewrite E.
Qed.

Lemma spec_get_del_ne (k k' : string) (d : Spec) :
  k ≠ k' → spec_get k (spec_del k' d) = spec_get k d.
Proof.
  intros Hne. induction d as [|[k'' v''] d IH]; [done|]. simpl.
  destruct (String.eqb_spec k' k'') as [<-|Hne'].
  - by rewrite (proj2 (String.eqb_neq k k')).
  - simpl. by rewrite IH.
Qed.

Lemma spec_del_absent (k : string) (d : Spec) :
  spec_get k d = None → spec_del k d = d.
Proof.
  induction d as [|[k' v'] d IH]; [done|]. simpl.
  destruct (String.eqb k k'); [done|]. intros Hd. by rewrite IH.
Qed.

Lemma spec_set_same (k : string) (v : SpecValue) (d : Spec) :
  spec_get k d = Some v → spec_set k v d = d.
Proof.
  induction d as [|[k' v'] d IH]; [done|]. simpl.
  destruct (String.eqb_spec k k') as [->|Hne].
  - by intros [= ->].
  - intros Hd. by rewrite IH.
Qed.

Lemma has_char_app (c : ascii) (s t : string) :
  has_char c (s +:+ t) = has_char c s || has_char c t.
Proof.
  induction s as [|c' s IH]; [done|].
  change (has_char c (String c' (s +:+ t))
          = has_char c (String c' s) || has_char c t).
  simpl. rewrite IH. by rewrite orb_assoc.
Qed.

(** A prefixed key has a slash, and so is none of the plain keys. *)
Lemma prefixed_ne (prefix suffix k : string) :
  has_char "/" suffix = true → has_char "/" k = false →
  k ≠ prefix +:+ suffix.
Proof.
  intros Hs Hk ->. rewrite has_char_app, Hs, orb_true_r in Hk. done.
Qed.

Section Settings.

Variable normpath : string → string.
Variable normpath_list : list string → Res SpecValue.
Variable split : string → list string.

Lemma getitem_str (k s : string) (d : Spec) :
  spec_str k d = Some s → getitem k d = Ok (VStr s).
Proof.
  unfold spec_str, getitem.
  destruct (spec_get k d) as [[?|?]|]; [by intros [= ->] | done | done].
Qed.

Lemma getitem_some (k : string) (v : SpecValue) (d : Spec) :
  spec_get k d = Some v → getitem k d = Ok v.
Proof. intros Hk. unfold getitem. by rewrite Hk. Qed.

Lemma spec_str_set_eq (k s : string) (d : Spec) :
  spec_str k (spec_set k (VStr s) d) = Some s.
Proof. unfold spec_str. by rewrite spec_get_set_eq. Qed.

Lemma spec_str_set_ne (k k' : string) (v : SpecValue) (d : Spec) :
  k ≠ k' → spec_str k (spec_set k' v d) = spec_str k d.
Proof. intros Hne. unfold spec_str. by rewrite spec_get_set_ne. Qed.

Lemma prefixed_eq (suffix prefix : string) (d : Spec) :
  spec_get "spec_prefix" d = Some (VStr prefix) →
  prefixed suffix d = Ok (prefix +:+ suffix).
Proof. intros Hp. unfold prefixed, getitem. by rewrite Hp. Qed.

(** The path settings, set in the order of the constructor.  With
    [storedir] and [target_subpath] holding strings the four setters
    succeed: the working root is [storedir/tmp/] and the target subpath
    without its trailing slashes; [set_dest_path] always finds the
    [root_path] that [set_root_path] has just set, so [destpath] is the
    working root with a slash appended, and [stage_path] is the working root
    normalized once more.  The other entries are not touched. *)
Theorem set_paths_spec (settings : Spec) (store sub : string) :
  spec_str "storedir" settings = Some store →
  spec_str "target_subpath" settings = Some sub →
  let chroot := normpath (store +:+ "/tmp/" +:+ rstrip_slash sub) in
  ∃ settings',
    set_paths normpath normpath_list settings = Ok settings' ∧
    spec_str "root_path" settings' = Some "/" ∧
    spec_str "chroot_path" settings' = Some chroot ∧
    spec_str "destpath" settings' = Some (normpath (chroot +:+ "/")) ∧
    spec_str "stage_path" settings' = Some (normpath chroot) ∧
    (∀ k, k ∉ ["root_path"; "chroot_path"; "destpath"; "stage_path"] →
          spec_get k settings' = spec_get k settings).
Proof.
  intros Hstore Hsub chroot.
  unfold set_paths, set_root_path. cbn [mbind Res_bind].
  set (s1 := spec_set "root_path" (VStr "/") settings).
  assert (Hs1 : set_chroot_path normpath normpath_list s1
                = Ok (spec_set "chroot_path" (VStr chroot) s1)).
  { unfold set_chroot_path.
    rewrite (getitem_str "storedir" store),
      (getitem_str "target_subpath" sub)
      by (unfold s1; by rewrite spec_str_set_ne).
    cbn. unfold chroot. by rewrite string_app_assoc. }
  rewrite Hs1. cbn [mbind Res_bind].
  set (s2 := spec_set "chroot_path" (VStr chroot) s1).
  assert (Hs2 : set_dest_path normpath normpath_list s2
                = Ok (spec_set "destpath" (VStr (normpath (chroot +:+ "/")))
                        s2)).
  { unfold set_dest_path.
    assert (spec_get "root_path" s2 = Some (VStr "/")) as ->.
    { unfold s2, s1. rewrite spec_get_set_ne by done.
      by rewrite spec_get_set_eq. }
    rewrite (getitem_str "chroot_path" chroot)
      by (unfold s2; by rewrite spec_str_set_eq). done. }
  rewrite Hs2. cbn [mbind Res_bind].
  set (s3 := spec_set "destpath" (VStr (normpath (chroot +:+ "/"))) s2).
  unfold set_stage_path.
  rewrite (getitem_str "chroot_path" chroot)
    by (unfold s3, s2; rewrite spec_str_set_ne by done;
        by rewrite spec_str_set_eq).
  cbn [mbind Res_bind py_normpath]. eexists. split; [reflexivity|].
  unfold s3, s2, s1. split_and!.
  - by rewrite !spec_str_set_ne, spec_str_set_eq by done.
  - by rewrite !spec_str_set_ne, spec_str_set_eq by done.
  - by rewrite !spec_str_set_ne, spec_str_set_eq by done.
  - by rewrite spec_str_set_eq.
  - intros k Hk. rewrite !spec_get_set_ne; [done|..];
      intros ->; apply Hk; repeat first [by left | right].
Qed.

(** [set_target_subpath] succeeds exactly when [rel_type], [target],
    [subarch] and [version_stamp] all hold strings.  It then sets the
    versioned and the unversioned subpath, both ending in a slash, the
    versioned one being the unversioned one with the version stamp put
    before the slash; no other entry changes. *)
Theorem set_target_subpath_spec (settings : Spec) :
  (∀ rel tgt arch ver,
     spec_str "rel_type" settings = Some rel →
     spec_str "target" settings = Some tgt →
     spec_str "subarch" settings = Some arch →
     spec_str "version_stamp" settings = Some ver →
     let common := rel +:+ "/" +:+ tgt +:+ "-" +:+ arch in
     ∃ settings',
       set_target_subpath settings = Ok settings' ∧
       spec_str "target_subpath" settings'
       = Some (common +:+ "-" +:+ ver +:+ "/") ∧
       spec_str "target_subpath_unversioned" settings'
       = Some (common +:+ "/") ∧
       (∀ k, k ≠ "target_subpath" → k ≠ "target_subpath_unversioned" →
             spec_get k settings' = spec_get k settings)) ∧
  (∀ settings',
     set_target_subpath settings = Ok settings' →
     is_Some (spec_str "rel_type" settings) ∧
     is_Some (spec_str "target" settings) ∧
     is_Some (spec_str "subarch" settings) ∧
     is_Some (spec_str "version_stamp" settings)).
Proof.
  split.
  - intros rel tgt arch ver Hrel Htgt Harch Hver common.
    unfold set_target_subpath.
    rewrite (getitem_str _ _ _ Hrel), (getitem_str _ _ _ Htgt),
      (getitem_str _ _ _ Harch), (getitem_str _ _ _ Hver).
    cbn [mbind Res_bind py_add]. eexists. split; [reflexivity|]. split_and!.
    + rewrite spec_str_set_ne, spec_str_set_eq by done. f_equal.
      unfold common. by rewrite !string_app_assoc.
    + rewrite spec_str_set_eq. f_equal.
      unfold common. by rewrite !string_app_assoc.
    + intros k H1 H2. by rewrite !spec_get_set_ne.
  - intros settings'. unfold set_target_subpath, getitem, spec_str.
    destruct (spec_get "rel_type" settings) as [[?|?]|]; [|done..].
    destruct (spec_get "target" settings) as [[?|?]|]; [|done..].
    destruct (spec_get "subarch" settings) as [[?|?]|]; [|done..].
    destruct (spec_get "version_stamp" settings) as [[?|?]|]; [|done..].
    intros _. split_and!; by eexists.
Qed.

Lemma move_prefixed_moves (suffix dest : string) :
  has_char "/" suffix = true → has_char "/" dest = false →
  dest ≠ "spec_prefix" →
  moves_key (move_prefixed suffix dest) suffix dest.
Proof.
  intros Hs Hd Hsp prefix settings Hp key.
  assert (Hkd : dest ≠ key) by (by apply prefixed_ne).
  assert (Hkp : "spec_prefix" ≠ key) by (by apply prefixed_ne).
  assert (Hf : move_prefixed suffix dest settings
               = match spec_get key settings with
                 | Some v => Ok (spec_del key (spec_set dest v settings))
                 | None => Ok settings
                 end).
  { unfold move_prefixed. by rewrite (prefixed_eq _ prefix). }
  rewrite Hf. clear Hf.
  destruct (spec_get key settings) as [v|] eqn:Hk; [|done].
  eexists. split; [reflexivity|]. split_and!.
  - rewrite spec_get_del_ne by done. by rewrite spec_get_set_eq.
  - by rewrite spec_get_del_eq.
  - intros k H1 H2. rewrite spec_get_del_ne by done.
    by rewrite spec_get_set_ne.
  - unfold move_prefixed. rewrite (prefixed_eq _ prefix).
    + cbn [mbind Res_bind]. fold key. by rewrite spec_get_del_eq.
    + rewrite spec_get_del_ne by done. by rewrite spec_get_set_ne.
Qed.

(** [set_rcadd], [set_rcdel] and [set_build_kernel_vars] move the entry of
    their prefixed key to the plain key. *)
Theorem set_rcadd_moves :
  moves_key set_rcadd "/rcadd" "rcadd" ∧
  moves_key set_rcdel "/rcdel" "rcdel" ∧
  moves_key set_build_kernel_vars "/gk_mainargs" "gk_mainargs".
Proof. split_and!; by apply move_prefixed_moves. Qed.

(** [set_linuxrc] moves its entry only when it holds a string: a list
    stays under the prefixed key and [linuxrc] is not set. *)
Theorem set_linuxrc_spec (prefix : string) (settings : Spec) :
  spec_get "spec_prefix" settings = Some (VStr prefix) →
  let key := prefix +:+ "/linuxrc" in
  match spec_get key settings with
  | Some (VStr s) =>
      ∃ settings',
        set_linuxrc settings = Ok settings' ∧
        spec_get "linuxrc" settings' = Some (VStr s) ∧
        spec_get key settings' = None
  | _ => set_linuxrc settings = Ok settings
  end.
Proof.
  intros Hp key.
  assert (Hf : set_linuxrc settings
               = match spec_get key settings with
                 | Some (VStr s) =>
                     Ok (spec_del key (spec_set "linuxrc" (VStr s) settings))
                 | _ => Ok settings
                 end).
  { unfold set_linuxrc. by rewrite (prefixed_eq _ prefix). }
  rewrite Hf. clear Hf.
  destruct (spec_get key settings) as [[s|l]|] eqn:Hk; [|done..].
  eexists. split; [reflexivity|]. split.
  - rewrite spec_get_del_ne by (by apply prefixed_ne).
    by rewrite spec_get_set_eq.
  - by rewrite spec_get_del_eq.
Qed.

Lemma move_use_spec (suffix dest prefix : string) (settings : Spec) :
  has_char "/" suffix = true → has_char "/" dest = false →
  spec_get "spec_prefix" settings = Some (VStr prefix) →
  let key := prefix +:+ suffix in
  let flags := match spec_get key settings with
               | Some (VStr s) => split s
               | Some (VList l) => l
               | None => []
               end in
  ∃ settings',
    move_use split suffix dest settings = Ok settings' ∧
    spec_get dest settings' = Some (VList flags) ∧
    spec_get key settings' = None ∧
    (∀ k, k ≠ key → k ≠ dest → spec_get k settings' = spec_get k settings).
Proof.
  intros Hs Hd Hp key flags.
  assert (Hkd : dest ≠ key) by (by apply prefixed_ne).
  unfold move_use. rewrite (prefixed_eq _ prefix) by done.
  cbn [mbind Res_bind]. fold key. subst flags.
  destruct (spec_get key settings) as [[s|l]|] eqn:Hk;
    (eexists; split; [reflexivity|]; split_and!).
  - rewrite spec_get_del_ne by done. by rewrite spec_get_set_eq.
  - by rewrite spec_get_del_eq.
  - intros k H1 H2. rewrite spec_get_del_ne by done.
    by rewrite spec_get_set_ne.
  - rewrite spec_get_del_ne by done. by rewrite spec_get_set_eq.
  - by rewrite spec_get_del_eq.
  - intros k H1 H2. rewrite spec_get_del_ne by done.
    by rewrite spec_get_set_ne.
  - by rewrite spec_get_set_eq.
  - by rewrite spec_get_set_ne.
  - intros k H1 H2. by rewrite spec_get_set_ne.
Qed.

(** [set_use] and [set_catalyst_use].  Afterwards [use] and
    [catalyst_use] hold lists: the value of the prefixed key, split when it
    was a string, or the empty list without that key; the prefixed key is
    gone.  What [catalyst_use] held before plays no part, although
    [catalyst_use] is among the valid keys of the settings.  With [bindist]
    among the options, [bindist] is appended to [catalyst_use]. *)
Theorem set_catalyst_use_spec (prefix : string) (settings : Spec)
    (options : SpecValue) :
  spec_get "spec_prefix" settings = Some (VStr prefix) →
  spec_get "options" settings = Some options →
  let flags_of := λ key,
    match spec_get key settings with
    | Some (VStr s) => split s
    | Some (VList l) => l
    | None => []
    end in
  (∃ settings',
     set_use split settings = Ok settings' ∧
     spec_get "use" settings' = Some (VList (flags_of (prefix +:+ "/use"))) ∧
     spec_get (prefix +:+ "/use") settings' = None) ∧
  (∃ settings',
     set_catalyst_use split settings = Ok settings' ∧
     spec_get "catalyst_use" settings'
     = Some (VList (flags_of (prefix +:+ "/catalyst_use")
                    ++ if py_contains "bindist" options then ["bindist"]
                       else [])) ∧
     spec_get (prefix +:+ "/catalyst_use") settings' = None).
Proof.
  intros Hp Ho flags_of. split.
  - destruct (move_use_spec "/use" "use" prefix settings eq_refl eq_refl Hp)
      as (s' & Heq & Hu & Hk & _).
    exists s'. by split_and!.
  - destruct (move_use_spec "/catalyst_use" "catalyst_use" prefix settings
                eq_refl eq_refl Hp) as (s' & Heq & Hu & Hk & Hfr).
    assert (Hval : set_catalyst_use split settings
                   = Ok (if py_contains "bindist" options
                         then spec_set "catalyst_use"
                                (VList (flags_of (prefix +:+ "/catalyst_use")
                                        ++ ["bindist"])) s'
                         else s')).
    { unfold set_catalyst_use. rewrite Heq. cbn [mbind Res_bind].
      unfold getitem.
      rewrite (Hfr "options"), Ho; [|by apply prefixed_ne|done].
      cbn [mbind Res_bind]. destruct (py_contains "bindist" options); [|done].
      by rewrite Hu. }
    rewrite Hval. eexists. split; [reflexivity|].
    destruct (py_contains "bindist" options).
    + split; [by rewrite spec_get_set_eq|].
      rewrite spec_get_set_ne; [done|].
      apply not_eq_sym. by apply prefixed_ne.
    + split; [|done]. rewrite Hu. by rewrite app_nil_r.
Qed.

(** [set_pkgcache_path] and [set_kerncache_path].  A path given as a
    string is kept as it is, without being normalized.  Without the key the
    path is derived from [storedir] and the target subpath ([versioned] with
    [versioned_cache] among the options) and normalized; the package cache
    gets a slash appended before that, the kernel cache does not.  Either
    way a second call changes nothing. *)
Theorem set_cache_path_spec (settings : Spec) :
  (∀ p, spec_str "pkgcache_path" settings = Some p →
        set_pkgcache_path normpath normpath_list settings = Ok settings) ∧
  (∀ p, spec_str "kerncache_path" settings = Some p →
        set_kerncache_path normpath normpath_list settings = Ok settings) ∧
  (∀ options store sub,
     spec_get "options" settings = Some options →
     spec_str "storedir" settings = Some store →
     spec_str (if py_contains "versioned_cache" options
               then "target_subpath" else "target_subpath_unversioned")
       settings = Some sub →
     (spec_get "pkgcache_path" settings = None →
      let path := normpath (store +:+ "/packages/" +:+ sub +:+ "/") in
      let settings' := spec_set "pkgcache_path" (VStr path) settings in
      set_pkgcache_path normpath normpath_list settings = Ok settings' ∧
      set_pkgcache_path normpath normpath_list settings' = Ok settings') ∧
     (spec_get "kerncache_path" settings = None →
      let path := normpath (store +:+ "/kerncache/" +:+ sub) in
      let settings' := spec_set "kerncache_path" (VStr path) settings in
      set_kerncache_path normpath normpath_list settings = Ok settings' ∧
      set_kerncache_path normpath normpath_list settings' = Ok settings')).
Proof.
  split_and!.
  - intros p. unfold spec_str, set_pkgcache_path.
    by destruct (spec_get "pkgcache_path" settings) as [[?|?]|].
  - intros p. unfold spec_str, set_kerncache_path.
    by destruct (spec_get "kerncache_path" settings) as [[?|?]|].
  - intros options store sub Ho Hstore Hsub. split.
    + intros Hno path settings'. split.
      * unfold set_pkgcache_path.
        rewrite Hno, (getitem_some _ _ _ Ho). cbn [mbind Res_bind].
        rewrite (getitem_str _ _ _ Hstore), (getitem_str _ _ _ Hsub).
        cbn. unfold settings', path. by rewrite !string_app_assoc.
      * unfold set_pkgcache_path, settings'. by rewrite spec_get_set_eq.
    + intros Hno path settings'. split.
      * unfold set_kerncache_path.
        rewrite Hno, (getitem_some _ _ _ Ho). cbn [mbind Res_bind].
        rewrite (getitem_str _ _ _ Hstore), (getitem_str _ _ _ Hsub).
        cbn. unfold settings', path. by rewrite !string_app_assoc.
      * unfold set_kerncache_path, settings'. by rewrite spec_get_set_eq.
Qed.

End Settings.

(** *** The kernel variables *)

Lemma kernel_vars_fold (loopy : list string) :
  ∀ st : list string * Spec,
    let r := foldl kernel_vars_step st loopy in
    r.1 = st.1 ++ concat (map (λ x, map (kernel_key x) kernel_suffixes) loopy) ∧
    (∀ x p, x ∈ loopy →
            spec_get (kernel_key x "/packages") st.2 = Some (VStr p) →
            spec_get (kernel_key x "/packages") r.2 = Some (VList [p])) ∧
    (∀ k, (∀ x, x ∈ loopy → k ≠ kernel_key x "/packages") →
          spec_get k r.2 = spec_get k st.2) ∧
    (∀ k l, spec_get k st.2 = Some (VList l) →
            spec_get k r.2 = Some (VList l)).
Proof.
  induction loopy as [|x loopy IH]; intros st r.
  - subst r. simpl. rewrite app_nil_r. split_and!; try done.
    intros ? ? Hx. by apply elem_of_nil in Hx.
  - subst r. cbn [foldl]. specialize (IH (kernel_vars_step st x)).
    cbv zeta in IH. destruct IH as (Hv & Hp & Hfr & Hl).
    set (key := kernel_key x "/packages") in *.
    assert (Hstep : ∀ k, k ≠ key →
              spec_get k (kernel_vars_step st x).2 = spec_get k st.2).
    { intros k Hk. unfold kernel_vars_step. cbn [snd]. fold key.
      destruct (spec_get key st.2) as [[s|l]|]; [|done..].
      by rewrite spec_get_set_ne. }
    assert (Hstr : ∀ p, spec_get key st.2 = Some (VStr p) →
              spec_get key (kernel_vars_step st x).2 = Some (VList [p])).
    { intros p Hk. unfold kernel_vars_step. cbn [snd]. fold key.
      rewrite Hk. by rewrite spec_get_set_eq. }
    split_and!.
    + rewrite Hv. unfold kernel_vars_step at 1. cbn [fst map concat].
      by rewrite <- app_assoc.
    + intros x0 p Hx0 Hk.
      destruct (decide (kernel_key x0 "/packages" = key)) as [Heq|Hne].
      * rewrite Heq in *. apply Hl. by apply Hstr.
      * apply elem_of_cons in Hx0 as [->|Hx0]; [done|].
        apply Hp; [done|]. by rewrite Hstep.
    + intros k Hk. rewrite Hfr.
      * apply Hstep. apply Hk. apply elem_of_cons. by left.
      * intros x0 Hx0. apply Hk. apply elem_of_cons. by right.
    + intros k l Hk. apply Hl.
      destruct (decide (k = key)) as [->|Hne]; [|by rewrite Hstep].
      unfold kernel_vars_step. cbn [snd]. fold key. by rewrite Hk.
Qed.

(** [set_valid_build_kernel_vars].  The valid keys grow by the thirteen
    keys of each kernel named under [boot/kernel], in that order and once
    for every time a name is listed.  A package list of a kernel that was
    given as one string becomes a list of that string; nothing else changes
    in the settings, and no key is added or removed. *)
Theorem set_valid_build_kernel_vars_spec (valid : list string)
    (settings : Spec) :
  let r := set_valid_build_kernel_vars valid settings in
  let names := kernel_names settings in
  r.1 = valid ++ concat (map (λ x, map (kernel_key x) kernel_suffixes) names) ∧
  length r.1 = length valid + 13 * length names ∧
  spec_keys r.2 = spec_keys settings ∧
  (∀ x p, x ∈ names →
          spec_get (kernel_key x "/packages") settings = Some (VStr p) →
          spec_get (kernel_key x "/packages") r.2 = Some (VList [p])) ∧
  (∀ k, (∀ x, x ∈ names → k ≠ kernel_key x "/packages") →
        spec_get k r.2 = spec_get k settings).
Proof.
  intros r names.
  assert (Hr : r = foldl kernel_vars_step (valid, settings) names).
  { subst r names. unfold set_valid_build_kernel_vars, kernel_names.
    by destruct (spec_get "boot/kernel" settings) as [[?|?]|]. }
  destruct (kernel_vars_fold names (valid, settings)) as (Hv & Hp & Hfr & _).
  rewrite <- Hr in Hv, Hp, Hfr. cbn [fst snd] in *.
  split_and!; [done | | | done | done].
  - rewrite Hv, length_app. f_equal. clear.
    induction names as [|x names IH]; [done|].
    cbn [map concat]. rewrite length_app, IH, length_map.
    cbn [kernel_suffixes length]. lia.
  - apply set_valid_build_kernel_vars_keys.
Qed.

(** *** The action sequence *)

(** Whatever the options, no action occurs twice in the default action
    sequence.  [capture] is in it unless [purgeonly] or [fetch] is set, and
    the working root is removed at the end under [purgeonly], or when
    neither [keepwork] nor [seedcache] is set. *)
Theorem action_sequence_nodup (opts : list string) :
  let seq := set_default_action_sequence opts in
  NoDup seq ∧
  bool_decide ("capture" ∈ seq)
  = negb (has_option "purgeonly" opts) && negb (has_option "fetch" opts) ∧
  bool_decide ("remove_chroot" ∈ seq)
  = has_option "purgeonly" opts
    || (negb (has_option "keepwork" opts)
        && negb (has_option "seedcache" opts)) ∧
  (has_option "purgeonly" opts = false →
   ∃ l1 l2 l3, seq = l1 ++ "bind" :: l2 ++ "unbind" :: l3).
Proof.
  intros seq. subst seq.
  unfold set_default_action_sequence, set_action_sequence,
    set_completion_action_sequences.
  destruct (has_option "purgeonly" opts), (has_option "fetch" opts),
    (has_option "keepwork" opts), (has_option "seedcache" opts);
    cbn [negb andb orb app];
    (split_and!;
     [ apply (bool_decide_unpack _); vm_compute; exact I
     | vm_compute; reflexivity
     | vm_compute; reflexivity
     | first [ discriminate
             | intros _;
               exists ["unpack"; "unpack_snapshot"; "setup_confdir";
                       "portage_overlay"; "base_dirs"],
                 ["chroot_setup"; "setup_environment"; "run_local";
                  "preclean"];
               eexists; reflexivity ] ]).
Qed.

(** *** class generic *)

(** After [generic.__init__] the settings have [CHROOT], the given one or
    [chroot], so that [setarch] never raises.  On Linux [setarch] wraps the
    command into [setarch arch]; a second call wraps the result once more.
    On any other system it changes nothing. *)
Theorem setarch_spec (repr_list : list string → string) (sys a1 a2 : string)
    (myspec : Spec) :
  let settings := generic_init myspec in
  is_Some (spec_get "CHROOT" settings) ∧
  (is_Some (spec_get "CHROOT" myspec) → settings = myspec) ∧
  (∃ settings', setarch repr_list sys a1 settings = Ok settings') ∧
  (sys ≠ "Linux" → setarch repr_list sys a1 settings = Ok settings) ∧
  (spec_get "CHROOT" myspec = None →
   ∃ s1 s2,
     setarch repr_list "Linux" a1 settings = Ok s1 ∧
     setarch repr_list "Linux" a2 s1 = Ok s2 ∧
     spec_get "CHROOT" s1 = Some (VStr ("setarch " +:+ a1 +:+ " chroot")) ∧
     spec_get "CHROOT" s2
     = Some (VStr ("setarch " +:+ a2 +:+ " setarch " +:+ a1 +:+ " chroot"))).
Proof.
  intros settings.
  assert (Hc : is_Some (spec_get "CHROOT" settings)).
  { subst settings. unfold generic_init.
    destruct (spec_get "CHROOT" myspec) eqn:E; [by rewrite E|].
    by rewrite spec_get_set_eq. }
  split_and!.
  - done.
  - intros [v Hv]. subst settings. unfold generic_init. by rewrite Hv.
  - unfold setarch. destruct (String.eqb sys "Linux"); [|by eexists].
    destruct Hc as [v Hv]. rewrite (getitem_some _ _ _ Hv). by eexists.
  - intros Hsys. unfold setarch.
    by rewrite (proj2 (String.eqb_neq sys "Linux")).
  - intros Hno.
    assert (Hv : spec_get "CHROOT" settings = Some (VStr "chroot")).
    { subst settings. unfold generic_init. rewrite Hno.
      by rewrite spec_get_set_eq. }
    unfold setarch at 1. cbn [String.eqb Ascii.eqb Bool.eqb].
    rewrite (getitem_some _ _ _ Hv). cbn [mbind Res_bind py_str].
    eexists. eexists. split; [reflexivity|].
    unfold setarch. cbn [String.eqb Ascii.eqb Bool.eqb].
    rewrite (getitem_some _ _ (spec_set _ _ _) (spec_get_set_eq _ _ _)).
    cbn [mbind Res_bind py_str]. split; [reflexivity|].
    split; [by rewrite spec_get_set_eq|].
    rewrite spec_get_set_eq. do 2 f_equal; by rewrite ?string_app_assoc.
Qed.


(** * The stage and settings theorems on the examples *)

Lemma plain_gate_open (point : string) (w : World) :
  gate_open plain_builder point w.
Proof. by left. Defined.

(** [run_local] where every command fails: the stage unbinds and raises
    its own error. *)
Lemma run_local_example :
  (run_local demo_normpath plain_builder commands_fail_world).1
  = Raise (CatalystError "Stage build aborting due to error.").
Proof.
  pose proof (run_local_spec demo_normpath plain_builder commands_fail_world
                (plain_gate_open _ _)) as H.
  cbv zeta in H. destruct H as [_ H].
  rewrite H by (vm_compute; eexists; reflexivity).
  vm_compute. reflexivity.
Defined.

(** [preclean] where the script succeeds: the point is recorded. *)
Lemma preclean_example :
  preclean demo_normpath plain_builder clean_world
  = (Ok tt,
     recorded "preclean" None
       (ran [controller_file plain_builder; "preclean"] clean_world)).
Proof.
  pose proof (preclean_spec demo_normpath plain_builder clean_world
                (plain_gate_open _ _)) as H.
  cbv zeta in H. destruct H as [_ H].
  rewrite H by (vm_compute; eexists; reflexivity). reflexivity.
Defined.

(** [setup_confdir] without [portage_confdir]: nothing happens. *)
Lemma setup_confdir_example :
  setup_confdir demo_normpath plain_builder clean_world = (Ok tt, clean_world).
Proof.
  exact (setup_confdir_spec demo_normpath plain_builder clean_world
           (plain_gate_open _ _)).
Defined.

(** [_copy_kernel_config] where the configured file is a directory: the
    copy fails and the stage only unbinds. *)
Lemma copy_kernel_config_example :
  _copy_kernel_config demo_normpath contents_builder "gentoo" overlay_world
  = unbind demo_normpath contents_builder overlay_world.
Proof.
  pose proof (copy_kernel_config_spec demo_normpath contents_builder "gentoo"
                "/etc/kernels/gentoo.config" overlay_world) as H.
  cbv zeta in H. destruct H as (_ & _ & H).
  destruct (H eq_refl) as (_ & H' & _). apply H'.
  - vm_compute. eexists. reflexivity.
  - left. reflexivity.
Defined.

(** [build_kernel] where [pre-kmerge] fails. *)
Lemma build_kernel_example :
  (build_kernel demo_normpath plain_builder commands_fail_world).1
  = Raise (CatalystError "build aborting due to kernel build error.").
Proof.
  pose proof (build_kernel_spec demo_normpath plain_builder
                commands_fail_world (plain_gate_open _ _)) as H.
  cbv zeta in H. destruct H as (_ & H & _).
  rewrite H; [|vm_compute; eexists; reflexivity|reflexivity].
  vm_compute. reflexivity.
Defined.

(** [capture] with [contents] configured: the archive is made and the
    stage stops on [gzip]. *)
Lemma capture_contents_example :
  (capture contents_builder clean_world).1 = Raise (NameError "gzip") ∧
  points (capture contents_builder clean_world).2 = points clean_world.
Proof.
  pose proof (capture_contents_never_records contents_builder clean_world)
    as H.
  destruct H as (_ & Hp & _).
  - left. eexists. reflexivity.
  - left. reflexivity.
  - intros tr. reflexivity.
  - split; [vm_compute; reflexivity | exact Hp].
Defined.

(** A run with [purgeonly]: nothing is purged and the run stops with
    [NameError]. *)
Lemma run_purge_example :
  (_run demo_normpath purging_builder (demo_methods purging_builder)
     clean_world).1 = Raise (NameError "countdown") ∧
  cleared
    (trace (_run demo_normpath purging_builder (demo_methods purging_builder)
              clean_world).2) = [].
Proof.
  set (w1 := ((kill_chroot_pids demo_normpath purging_builder ;;
               mount_safety_check demo_normpath purging_builder)
                clean_world).2).
  pose proof (run_purge_never_purges demo_normpath purging_builder
                (demo_methods purging_builder) clean_world w1) as H.
  cbv zeta in H. destruct H as [_ H].
  - right. left. reflexivity.
  - vm_compute. reflexivity.
  - rewrite H, pair_fst, pair_snd. split; [reflexivity|].
    vm_compute. reflexivity.
Defined.

(** [bind] and then [unbind] where every command succeeds. *)
Lemma bind_unbind_example :
  mounted
    (unbind demo_normpath plain_builder
       (bind demo_normpath plain_builder clean_world).2).2 = [].
Proof.
  set (w1 := (bind demo_normpath plain_builder clean_world).2).
  set (w2 := (unbind demo_normpath plain_builder w1).2).
  destruct (bind_unbind_restores demo_normpath plain_builder clean_world w1 w2)
    as [H _].
  - exact plain_builder_resolved.
  - apply (bool_decide_unpack _). vm_compute. exact I.
  - vm_compute. reflexivity.
  - vm_compute. reflexivity.
  - exact H.
Defined.

(** [unbind] where [/work/proc] carries two mounts: one is left. *)
Lemma unbind_stacked_example :
  "/work/proc" ∈ mounted (unbind demo_normpath plain_builder stacked_world).2.
Proof.
  destruct (unbind_takes_one_mount demo_normpath plain_builder stacked_world
              "/work/proc" plain_builder_resolved) as [_ H].
  - vm_compute. reflexivity.
  - apply H.
    + vm_compute. eexists. reflexivity.
    + vm_compute. lia.
Defined.

(** [portage_overlay] with three overlays of which the second is
    missing: the other two are copied, in order. *)
Lemma portage_overlay_example :
  commands (trace (portage_overlay_stage contents_builder overlay_world).2)
  = [ (overlay_copy_command contents_builder "/overlays/a", true);
      (overlay_copy_command contents_builder "/overlays/b", true) ].
Proof.
  destruct (portage_overlay_copies contents_builder
              ["/overlays/a"; "/overlays/missing"; "/overlays/b"]
              overlay_world eq_refl) as (_ & _ & H).
  - apply (bool_decide_unpack _). vm_compute. exact I.
  - destruct H as [[_ H]|(copied & x & rest & _ & H & _)].
    + rewrite H. vm_compute. reflexivity.
    + vm_compute in H. discriminate H.
Defined.

(** [run_local] with its point enabled: skipped, though every command
    would fail. *)
Lemma resume_gate_example :
  ∃ msg,
    run_local demo_normpath resuming_builder run_local_done_world
    = (Ok tt, with_event (EvLog Notice msg []) run_local_done_world).
Proof.
  apply (resume_gate_skips demo_normpath resuming_builder "run_local").
  - unfold gated_stages. apply elem_of_cons. right.
    apply elem_of_cons. by left.
  - reflexivity.
  - vm_compute. eexists. reflexivity.
Defined.

(** [bootloader] where the script fails. *)
Lemma bootloader_example :
  (bootloader demo_normpath plain_builder commands_fail_world).1
  = Raise (CatalystError "Script aborting due to error.").
Proof.
  pose proof (bootloader_spec demo_normpath plain_builder
                commands_fail_world) as H.
  cbv zeta in H. destruct H as [H _].
  rewrite H by apply plain_gate_open. vm_compute. reflexivity.
Defined.

(** [target_setup] where the script fails: the error of the command, and
    the mounts as they were. *)
Lemma target_setup_example :
  mounted (target_setup plain_builder commands_fail_world).2
  = mounted commands_fail_world.
Proof.
  pose proof (target_setup_spec plain_builder commands_fail_world) as H.
  cbv zeta in H. destruct H as (_ & _ & H & _).
  eapply H. vm_compute. reflexivity.
Defined.

(** The path settings of the example. *)
Lemma set_paths_example :
  ∃ settings',
    set_paths demo_normpath demo_normpath_list demo_settings = Ok settings' ∧
    spec_str "chroot_path" settings' = Some "/store/tmp/default/stage3-amd64-2021" ∧
    spec_str "destpath" settings' = Some "/store/tmp/default/stage3-amd64-2021/".
Proof.
  destruct (set_paths_spec demo_normpath demo_normpath_list demo_settings
              "/store" "default/stage3-amd64-2021/" eq_refl eq_refl)
    as (s' & H & _ & Hc & Hd & _).
  exists s'. split_and!; [exact H | exact Hc | exact Hd].
Defined.

(** The subpaths of the example. *)
Lemma set_target_subpath_example :
  ∃ settings',
    set_target_subpath demo_settings = Ok settings' ∧
    spec_str "target_subpath" settings' = Some "default/stage3-amd64-2021/".
Proof.
  destruct (set_target_subpath_spec demo_settings) as [H _].
  destruct (H "default" "stage3" "amd64" "2021" eq_refl eq_refl eq_refl
              eq_refl) as (s' & Hs & Hv & _).
  exists s'. split; [exact Hs | exact Hv].
Defined.

(** [set_rcadd] on the example. *)
Lemma set_rcadd_example :
  ∃ settings',
    set_rcadd demo_settings = Ok settings' ∧
    spec_get "rcadd" settings' = Some (VStr "sshd|default") ∧
    spec_get "stage3/rcadd" settings' = None.
Proof.
  destruct set_rcadd_moves as [H _].
  destruct (H "stage3" demo_settings eq_refl) as (s' & Hs & Hv & Hk & _).
  exists s'. split_and!; [exact Hs | exact Hv | exact Hk].
Defined.

(** [set_linuxrc] on the example. *)
Lemma set_linuxrc_example :
  ∃ settings',
    set_linuxrc demo_settings = Ok settings' ∧
    spec_get "linuxrc" settings' = Some (VStr "/etc/linuxrc").
Proof.
  destruct (set_linuxrc_spec "stage3" demo_settings eq_refl)
    as (s' & Hs & Hv & _).
  exists s'. split; [exact Hs | exact Hv].
Defined.

(** [set_catalyst_use] on the example: the flags of the prefixed key and
    [bindist]; the old value of [catalyst_use] is gone. *)
Lemma set_catalyst_use_example :
  ∃ settings',
    set_catalyst_use demo_split demo_settings = Ok settings' ∧
    spec_get "catalyst_use" settings' = Some (VList ["static"; "bindist"]).
Proof.
  destruct (set_catalyst_use_spec demo_split "stage3" demo_settings
              (VList ["bindist"]) eq_refl eq_refl)
    as [_ (s' & Hs & Hv & _)].
  exists s'. split; [exact Hs | exact Hv].
Defined.

(** The package cache of the example. *)
Lemma set_cache_path_example :
  set_pkgcache_path demo_normpath demo_normpath_list demo_settings
  = Ok (spec_set "pkgcache_path"
          (VStr "/store/packages/default/stage3-amd64//") demo_settings).
Proof.
  destruct (set_cache_path_spec demo_normpath demo_normpath_list
              demo_settings) as (_ & _ & H).
  destruct (H (VList ["bindist"]) "/store" "default/stage3-amd64/" eq_refl
              eq_refl eq_refl) as [H' _].
  destruct (H' eq_refl) as [Hs _]. exact Hs.
Defined.

(** The kernel variables of the example. *)
Lemma set_valid_build_kernel_vars_example :
  length (set_valid_build_kernel_vars valid_values demo_settings).1
  = length valid_values + 26 ∧
  spec_get "boot/kernel/gentoo/packages"
    (set_valid_build_kernel_vars valid_values demo_settings).2
  = Some (VList ["sys-kernel/zfs"]).
Proof.
  destruct (set_valid_build_kernel_vars_spec valid_values demo_settings)
    as (_ & Hl & _ & Hp & _).
  split; [exact Hl|].
  apply (Hp "gentoo"); [|reflexivity].
  apply (bool_decide_unpack _). vm_compute. exact I.
Defined.

(** [setarch] twice on Linux. *)
Lemma setarch_example :
  ∃ s1 s2,
    setarch demo_repr_list "Linux" "linux32" (generic_init demo_settings)
    = Ok s1 ∧
    setarch demo_repr_list "Linux" "linux64" s1 = Ok s2 ∧
    spec_get "CHROOT" s2
    = Some (VStr "setarch linux64 setarch linux32 chroot").
Proof.
  destruct (setarch_spec demo_repr_list "Linux" "linux32" "linux64"
              demo_settings) as (_ & _ & _ & _ & H).
  destruct (H eq_refl) as (s1 & s2 & H1 & H2 & _ & H3).
  exists s1, s2. split_and!; [exact H1 | exact H2 | exact H3].
Defined.


(** * What a failing unpack leaves alone, and the snapshot cache *)

Lemma same_transfers_event (e : Event) (w : World) :
  transfers [e] = [] → cleared [e] = [] → same_transfers w (with_event e w).
Proof.
  intros Ht Hc. unfold same_transfers. cbn [trace with_event].
  by rewrite transfers_app, cleared_app, Ht, Hc, !app_nil_r.
Qed.

Lemma keeps_tr_log lvl fmt args : keeps same_transfers (log lvl fmt args).
Proof. intros w. by apply same_transfers_event. Qed.

Lemma keeps_tr_call_cmd argv : keeps same_transfers (call (Cmd argv)).
Proof.
  intros w. unfold call. cbn [snd].
  etrans; [|by apply same_transfers_event].
  destruct (oracle w (trace w) (Cmd argv)); [|done].
  destruct argv as [|prog args]; [done|]. unfold call_effect.
  destruct (String.eqb prog "umount"); [by destruct args as [|? [|]]|].
  destruct (is_mount_prog prog); [|done]. by destruct (last args).
Qed.

Lemma keeps_tr_cmd argv f :
  (∀ g, f = Some g → keeps same_transfers g) →
  keeps same_transfers (cmd argv f).
Proof.
  intros Hf. pose proof keeps_tr_call_cmd. unfold cmd.
  apply keeps_bind; [apply _ | done | intros ok].
  destruct ok; [by apply keeps_ret; apply _|].
  destruct f as [g|]; [|by apply keeps_raise; apply _].
  apply keeps_bind; [apply _ | by apply Hf | intros _].
  by apply keeps_raise; apply _.
Qed.

Lemma keeps_tr_cmd_None argv : keeps same_transfers (cmd argv None).
Proof. by apply keeps_tr_cmd. Qed.

Lemma keeps_tr_os_path_exists p : keeps same_transfers (os_path_exists p).
Proof. by intros w. Qed.

Lemma keeps_tr_os_path_isdir p : keeps same_transfers (os_path_isdir p).
Proof. by intros w. Qed.

Lemma keeps_tr_os_path_isfile p : keeps same_transfers (os_path_isfile p).
Proof. by intros w. Qed.

Lemma keeps_tr_ismount p : keeps same_transfers (ismount p).
Proof. by intros w. Qed.

Lemma keeps_tr_resume_is_enabled p :
  keeps same_transfers (resume_is_enabled p).
Proof. by intros w. Qed.

Lemma keeps_tr_resume_get p : keeps same_transfers (resume_get p).
Proof. by intros w. Qed.

Global Hint Resolve keeps_tr_log keeps_tr_cmd_None keeps_tr_os_path_exists
  keeps_tr_os_path_isdir keeps_tr_os_path_isfile keeps_tr_ismount
  keeps_tr_resume_is_enabled keeps_tr_resume_get : keeps.

(** A method that leaves [R] alone whenever it raises. *)
Lemma on_raise_bind {A B} (R : World → World → Prop) `{!PreOrder R}
    (m : M A) (k : A → M B) :
  keeps R m →
  (∀ a w e, (k a w).1 = Raise e → R w (k a w).2) →
  ∀ w e, (bind_ m k w).1 = Raise e → R w (bind_ m k w).2.
Proof.
  intros Hm Hk w e. rewrite bind_eq. specialize (Hm w).
  destruct (m w) as [[a|e'] w1]; cbn [snd] in *; [|done].
  intros He. etrans; [done | by eapply Hk].
Qed.



Section Safety.

Variable normpath : string → string.
Variable determine_mode : string → string.
Variable b : Builder.

Lemma keeps_tr_kill_chroot_pids :
  keeps same_transfers (kill_chroot_pids normpath b).
Proof. unfold kill_chroot_pids, setup_environment. keeps_store. Qed.

Lemma keeps_tr_unbind : keeps same_transfers (unbind normpath b).
Proof.
  pose proof keeps_tr_kill_chroot_pids.
  unfold unbind, unbind_entry, target_mounts_get. keeps_store.
Qed.

Lemma keeps_tr_mount_safety_check :
  keeps same_transfers (mount_safety_check normpath b).
Proof.
  pose proof keeps_tr_unbind.
  unfold mount_safety_check, mount_safety_check_entry, target_mounts_get.
  keeps_store.
Qed.

Lemma keeps_tr_file_check p : keeps same_transfers (file_check p).
Proof. unfold file_check. keeps_store. Qed.

Lemma keeps_tr_unpack_validate clst source :
  keeps same_transfers (unpack_validate b clst source).
Proof.
  pose proof keeps_tr_file_check.
  unfold unpack_validate, source_path_hash_get. keeps_store.
Qed.

(** An [unpack] that raises has cleared no directory and has not called
    the extractor: everything that can raise in it (the check of the source,
    the validation of the resume point, the mount safety check with its
    [unbind]) comes before the working root is cleared, and nothing after
    that point raises.  In particular a mount that cannot be undone keeps
    [unpack] from emptying the working root. *)
Theorem unpack_raises_before_clearing (w : World) (e : exn) :
  (unpack normpath b w).1 = Raise e →
  same_transfers w (unpack normpath b w).2 ∧
  same_store w (unpack normpath b w).2.
Proof.
  intros He. split; [|by eapply records_unpack].
  revert w e He.
  pose proof keeps_tr_file_check. pose proof keeps_tr_unpack_validate.
  pose proof keeps_tr_mount_safety_check.
  unfold unpack.
  apply on_raise_bind; [apply _ | keeps_store |]. intros clst.
  apply on_raise_bind; [apply _ | keeps_store |]. intros info.
  apply on_raise_bind; [apply _ | keeps_store |]. intros v. cbv zeta.
  destruct v.1.1.
  - apply on_raise_bind; [apply _ | keeps_store |]. intros _ w e He.
    exfalso.
    assert (Hn : never_raises
                   ((if v.1.2 then
                       (if opt b "autoresume" then
                          log Notice
                            "Resume: Target chroot is invalid, cleaning up..."
                            []
                        else ret tt) ;;
                       clear_autoresume b ;; clear_chroot b
                     else ret tt) ;;
                    unpack_extract b v.2 info.2)).
    { unfold clear_autoresume, clear_chroot, unpack_extract, log,
        ensure_dirs, clear_dir, resume_clear_all, resume_enable.
      never_raises. }
    destruct (Hn w) as [a Ha]. congruence.
  - intros w e _. by apply keeps_tr_log.
Qed.


End Safety.


(** * The directories of bind, and the verdict of a run *)

Section BindRun.

Variable normpath : string → string.
Variable b : Builder.
Variable methods : string → option (M unit).

(** The directories that the loop of [bind] needs for entry [x] exist in
    the file system [f]. *)
Lemma bind_prepare_dirs (x : string) (w : World) (c : option (list string))
    (w2 : World) :
  bind_prepare normpath b x w = (Ok c, w2) →
  ∃ tm src,
    target_mounts b !! x = Some tm ∧ mountmap b !! x = Some src ∧
    is_Some (fs w2 !! normpath (chroot_path b +:+ tm)) ∧
    (virtual_source src = false → is_Some (fs w2 !! src)).
Proof.
  unfold bind_prepare, target_mounts_get, mountmap_get.
  destruct (target_mounts b !! x) as [tm|]; [|done]. rewrite bind_ret_l.
  set (t := normpath (chroot_path b +:+ tm)).
  cbv zeta. rewrite bind_eq.
  destruct (ensure_dirs_eq t w) as (f1 & -> & Ht & Hmono1).
  destruct (mountmap b !! x) as [src|]; [|done]. rewrite bind_ret_l.
  unfold os_path_exists. rewrite bind_gets. rewrite bind_eq.
  set (cond := negb _ && negb _).
  assert (∃ f, (if cond then ensure_dirs src else ret tt) (with_fs f1 w)
               = (Ok tt, with_fs f w) ∧
               (∀ q, is_Some (f1 !! q) → is_Some (f !! q)) ∧
               (virtual_source src = false → is_Some (f !! src)))
    as (f2 & -> & Hmono2 & Hs).
  { subst cond. cbn [fs with_fs].
    destruct (bool_decide (is_Some (f1 !! src))) eqn:He; cbn [negb andb].
    - exists f1. split_and!; [done | done |]. intros _.
      by apply bool_decide_eq_true_1 in He.
    - destruct (virtual_source src); cbn [negb].
      + exists f1. done.
      + destruct (ensure_dirs_eq src (with_fs f1 w)) as (f & Hf & Hsf & Hm).
        exists f. split_and!; [by rewrite Hf | done | done]. }
  rewrite bind_gets. unfold ret. intros [= <- <-].
  exists tm, src. cbn [fs with_fs].
  split_and!; [done | done | by apply Hmono2 | done].
Qed.

Lemma bind_entry_dirs (x : string) (w w1 : World) :
  bind_entry normpath b x w = (Ok tt, w1) →
  ∃ tm src,
    target_mounts b !! x = Some tm ∧ mountmap b !! x = Some src ∧
    is_Some (fs w1 !! normpath (chroot_path b +:+ tm)) ∧
    (virtual_source src = false → is_Some (fs w1 !! src)).
Proof.
  unfold bind_entry. rewrite bind_eq.
  destruct (bind_prepare normpath b x w) as [[c|e] w2] eqn:Hp; [|done].
  pose proof (bind_prepare_dirs _ _ _ _ Hp) as Hd.
  apply bind_prepare_spec in Hp as (f & -> & _ & _ & Heff).
  destruct c as [argv|].
  - rewrite cmd_Some_eq. destruct (oracle _ _ _).
    + rewrite (Heff argv _ eq_refl). by intros [= <-].
    + by destruct (unbind _ _ _) as [[[]|e] w'].
  - by intros [= <-].
Qed.

(** When [bind] returns, every entry of [self.mounts] has a target and a
    source, the target directory exists under the working root, and the
    source directory exists too unless it is one of the names [maybe_tmpfs],
    [tmpfs] and [shmfs], which are no paths.  No path that existed before
    is gone. *)
Theorem bind_makes_directories (w w1 : World) :
  bind normpath b w = (Ok tt, w1) →
  (∀ q, is_Some (fs w !! q) → is_Some (fs w1 !! q)) ∧
  ∀ x, x ∈ mounts b →
    ∃ tm src,
      target_mounts b !! x = Some tm ∧ mountmap b !! x = Some src ∧
      is_Some (fs w1 !! normpath (chroot_path b +:+ tm)) ∧
      (virtual_source src = false → is_Some (fs w1 !! src)).
Proof.
  unfold bind. generalize (mounts b). intros l. revert w.
  induction l as [|y l IH]; intros w Heq.
  - injection Heq as <-. split; [done|]. intros x Hx. by apply elem_of_nil in Hx.
  - cbn [for_each] in Heq. rewrite bind_eq in Heq.
    destruct (bind_entry normpath b y w) as [[[]|e] w0] eqn:Hy; [|done].
    pose proof (bind_entry_dirs _ _ _ Hy) as (tm & src & Htm & Hsrc & Ht & Hs).
    apply bind_entry_ok in Hy as [Hmono0 _].
    destruct (IH _ Heq) as [Hmono Hall].
    split; [by auto|]. intros x Hx.
    apply elem_of_cons in Hx as [->|Hx]; [|by apply Hall].
    exists tm, src. split_and!; [done | done | by apply Hmono |].
    intros Hv. by apply Hmono, Hs.
Qed.

(** The loop of [_run] reports no failure exactly when every action of the
    sequence returned. *)
Lemma run_loop_no_failure (seq : list string) :
  ∀ (w w' : World) (d : list string),
    _run_loop methods seq w = (Ok (false, d), w') ↔
    dispatch_all methods seq w = (Ok tt, w') ∧ d = seq.
Proof.
  induction seq as [|x rest IH]; intros w w' d.
  - cbn [_run_loop dispatch_all]. unfold ret. split.
    + by intros [= <- <-].
    + by intros [[= <-] ->].
  - rewrite run_loop_cons. cbn [dispatch_all].
    rewrite bind_modify, bind_eq.
    destruct (getattr_call methods x (with_event (running_notice x) w))
      as [[[]|e] w1].
    + destruct (_run_loop methods rest w1) as [[[fl d'] |e] w2] eqn:Hl.
      * cbn [fst snd]. split.
        -- intros [= -> <- <-]. by apply IH in Hl as [-> ->].
        -- intros [Hd ->].
           assert (_run_loop methods rest w1 = (Ok (false, rest), w'))
             as Hl' by by apply IH.
           rewrite Hl in Hl'. by injection Hl' as -> -> ->.
      * split; [done|]. intros [Hd ->].
        assert (_run_loop methods rest w1 = (Ok (false, rest), w'))
          as Hl' by by apply IH.
        by rewrite Hl in Hl'.
    + split; [done | by intros [? _]].
Qed.

(** [_run] returns [True] exactly when the statements before the loop
    returned without leaving [_run] and every action of the action sequence
    was dispatched and returned; the world is then as the last action left
    it: [unbind] is not run and nothing is logged after the last action. *)
Theorem run_returns_true_iff (w w' : World) :
  _run normpath b methods w = (Ok (Some true), w') ↔
  ∃ w0, _run_prelude normpath b w = (Ok false, w0) ∧
        dispatch_all methods (action_sequence b) w0 = (Ok tt, w').
Proof.
  unfold _run. rewrite bind_eq.
  destruct (_run_prelude normpath b w) as [[[]|e] w0].
  - split; [done | by intros (? & [=] & _)].
  - unfold _run_actions. rewrite bind_eq.
    destruct (run_loop_dispatched methods (action_sequence b) w0)
      as (fl & d & w1 & Hl & _).
    rewrite Hl. cbn [fst]. destruct fl.
    + rewrite bind_log, bind_eq. split.
      * by destruct (unbind _ _ _) as [[[]|e] w2].
      * intros (w0' & [= <-] & Hd).
        assert (_run_loop methods (action_sequence b) w0
                = (Ok (false, action_sequence b), w')) as Hl'
          by by apply run_loop_no_failure.
        by rewrite Hl in Hl'.
    + apply run_loop_no_failure in Hl as [Hd ->]. unfold ret. split.
      * intros [= <-]. by exists w0.
      * intros (w0' & [= <-] & Hd'). rewrite Hd in Hd'. by injection Hd' as <-.
  - split; [done | by intros (? & [=] & _)].
Qed.

Lemma dispatch_all_unknown (s : string) (seq : list string) :
  s ∈ seq → methods s = None →
  ∀ w w', dispatch_all methods seq w ≠ (Ok tt, w').
Proof.
  intros Hs Hnone. induction seq as [|x rest IH]; intros w w'.
  - by apply elem_of_nil in Hs.
  - cbn [dispatch_all]. rewrite bind_modify, bind_eq.
    destruct (decide (x = s)) as [->|Hne].
    + unfold getattr_call. by rewrite Hnone.
    + apply elem_of_cons in Hs as [->|Hs]; [done|].
      destruct (getattr_call methods x _) as [[[]|e] w1]; [|done].
      by apply IH.
Qed.

(** A name in the action sequence that is no method of the object makes the
    run fail: the [AttributeError] of the lookup is caught like the error of
    an action, so [_run] does not return [True], whatever the other actions
    do. *)
Theorem unknown_action_fails (w : World) (s : string) :
  s ∈ action_sequence b → methods s = None →
  (_run normpath b methods w).1 ≠ Ok (Some true).
Proof.
  intros Hs Hnone Heq.
  destruct (_run normpath b methods w) as [r w'] eqn:Hrun.
  cbn [fst] in Heq. subst r.
  apply run_returns_true_iff in Hrun as (w0 & _ & Hd).
  by eapply dispatch_all_unknown.
Qed.

End BindRun.


(** * Examples for the safety of unpack, the snapshot cache, bind and the run *)

(** [unpack] where [/work/proc] is mounted and cannot be unmounted: the
    mount safety check raises, and nothing was cleared or extracted. *)
Lemma unpack_raises_example :
  (unpack demo_normpath plain_builder busy_world).1
  = Raise (CatalystError "Unable to auto-unbind /work/proc") ∧
  same_transfers busy_world (unpack demo_normpath plain_builder busy_world).2.
Proof.
  assert (H : (unpack demo_normpath plain_builder busy_world).1
              = Raise (CatalystError "Unable to auto-unbind /work/proc"))
    by (vm_compute; reflexivity).
  split; [exact H|].
  exact (proj1 (unpack_raises_before_clearing demo_normpath plain_builder
                  busy_world _ H)).
Defined.


(** [bind] where [/work/dev/pts] is missing: the directory is made. *)
Lemma bind_makes_directories_example :
  is_Some (fs (bind demo_normpath plain_builder mixed_world).2
             !! "/work/dev/pts").
Proof.
  set (w1 := (bind demo_normpath plain_builder mixed_world).2).
  destruct (bind_makes_directories demo_normpath plain_builder mixed_world w1)
    as [_ H].
  - vm_compute. reflexivity.
  - destruct (H "devpts") as (tm & src & Htm & _ & Ht & _).
    + decide_it.
    + vm_compute in Htm. injection Htm as <-. exact Ht.
Defined.

(** A run whose second action is no method of the object. *)
Lemma unknown_action_example :
  (_run demo_normpath unknown_action_builder
     (demo_methods unknown_action_builder) clean_world).1 ≠ Ok (Some true).
Proof.
  apply (unknown_action_fails demo_normpath unknown_action_builder
           (demo_methods unknown_action_builder) clean_world
           "no_such_action").
  - decide_it.
  - vm_compute. reflexivity.
Defined.
